(** * The Godot LSP bridge: frame interceptor, port prober, readiness poller
    and orchestrator of [godot-lsp-bridge.js], embedded and verified.

  The bridge proxies a stdio client to a TCP language server.  Bytes read
  from standard input go through [createLspInterceptor], a stream transform
  that reassembles [Content-Length] frames and rewrites one JSON field;
  [main], [launchGodotEditor], [isPortOpen] and [cleanup] decide whether a
  server is spawned, when it is ready and how the process ends.  The top of
  the script reads the command line and the environment; [findGodot] and
  [findProjectFile] look for the executable and the project.  The earlier
  version of the script, without interceptor and cleanup, is embedded
  beside the later one. *)

From Stdlib Require Import Strings.String Strings.Byte.
From Stdlib Require Import List NArith ZArith Arith Bool Lia.
Import ListNotations.
Local Open Scope list_scope.

(** ** JavaScript strings

  A JS string is a sequence of UTF-16 code units; string indices (as returned
  by [indexOf]) count code units. *)

Module JsString.

Definition jsstring := list N.

(** The code units of an ASCII byte text. *)
Definition text (bs : list byte) : jsstring := map Byte.to_N bs.

Local Open Scope N_scope.

(** [s.startsWith(pat)]: the literal [pat] sits at the head of [s]. *)
Fixpoint starts_with (pat s : jsstring) : bool :=
  match pat, s with
  | [], _ => true
  | p :: pat', c :: s' => (p =? c) && starts_with pat' s'
  | _ :: _, [] => false
  end.

(** The rest of [s] once the literal [pat] has been read off its head. *)
Fixpoint strip_prefix (pat s : jsstring) : option jsstring :=
  match pat, s with
  | [], _ => Some s
  | p :: pat', c :: s' => if p =? c then strip_prefix pat' s' else None
  | _ :: _, [] => None
  end.

(** [s.indexOf(pat)]; JavaScript's [-1] is [None]. *)
Fixpoint index_of (pat s : jsstring) : option nat :=
  match s with
  | [] => if starts_with pat [] then Some O else None
  | _ :: s' =>
      if starts_with pat s then Some O else option_map S (index_of pat s')
  end.

(** [s.includes(pat)]. *)
Definition includes (pat s : jsstring) : bool :=
  match index_of pat s with Some _ => true | None => false end.

(** [s.replace(/pat/g, rep)] for a literal, non-empty [pat] and a replacement
    free of [$]: the scan goes left to right and resumes after each match.
    [skip] counts the code units of the current match still to be dropped. *)
Fixpoint replace_all_from (skip : nat) (pat rep s : jsstring) : jsstring :=
  match s with
  | [] => []
  | c :: s' =>
      match skip with
      | S k => replace_all_from k pat rep s'
      | O =>
          if starts_with pat s
          then rep ++ replace_all_from (pred (length pat)) pat rep s'
          else c :: replace_all_from O pat rep s'
      end
  end.

Definition replace_all (pat rep s : jsstring) : jsstring :=
  replace_all_from O pat rep s.

(** The class [\d]: ASCII digits only. *)
Definition is_digit (c : N) : bool := (48 <=? c) && (c <=? 57).

(** The greedy run [\d*] at the head of [s], and what follows it. *)
Fixpoint span_digits (s : jsstring) : jsstring * jsstring :=
  match s with
  | [] => ([], [])
  | c :: s' =>
      if is_digit c
      then let (d, r) := span_digits s' in (c :: d, r)
      else ([], s)
  end.

(** [parseInt(digits, 10)] on a string of decimal digits.  The value is
    exact here; a JS number rounds above 2^53, which no byte count of a
    buffer reaches. *)
Definition parse_int (digits : jsstring) : N :=
  fold_left (fun acc c => 10 * acc + (c - 48)) digits 0.

(** The decimal digits of [n], most significant first. *)
Fixpoint digits_fuel (fuel : nat) (n : N) : jsstring :=
  match fuel with
  | O => []
  | S f =>
      (if n <? 10 then [] else digits_fuel f (n / 10)) ++ [48 + n mod 10]
  end.

(** [`${n}`] for a non-negative integer [n]. *)
Definition to_string (n : N) : jsstring :=
  digits_fuel (S (N.to_nat (N.log2 n))) n.

(** [a === b] on strings. *)
Fixpoint same (a b : jsstring) : bool :=
  match a, b with
  | [], [] => true
  | x :: a', y :: b' => (x =? y) && same a' b'
  | _, _ => false
  end.

(** White space and line terminators, which [trim] and [parseInt] strip:
    TAB, LF, VT, FF, CR, the space separators and the byte order mark. *)
Definition is_white_space (c : N) : bool :=
  ((9 <=? c) && (c <=? 13))
  || (c =? 0x20) || (c =? 0xA0) || (c =? 0x1680)
  || ((0x2000 <=? c) && (c <=? 0x200A))
  || (c =? 0x2028) || (c =? 0x2029) || (c =? 0x202F) || (c =? 0x205F)
  || (c =? 0x3000) || (c =? 0xFEFF).

Fixpoint trim_start (s : jsstring) : jsstring :=
  match s with
  | [] => []
  | c :: s' => if is_white_space c then trim_start s' else s
  end.

Definition trim_end (s : jsstring) : jsstring := rev (trim_start (rev s)).

(** [s.trim()]. *)
Definition trim (s : jsstring) : jsstring := trim_end (trim_start s).

(** [s.split('\n')[0]]: the text before the first line feed. *)
Fixpoint first_line (s : jsstring) : jsstring :=
  match s with
  | [] => []
  | c :: s' => if c =? 10 then [] else c :: first_line s'
  end.

End JsString.

(** ** UTF-8, as [Buffer.prototype.toString('utf8')] and
     [Buffer.from(str, 'utf8')] perform it *)

Module Utf8.
Import JsString.
Local Open Scope N_scope.

Definition REPLACEMENT : N := 0xFFFD.

Definition in_range (lo hi : N) (b : byte) : bool :=
  (lo <=? Byte.to_N b) && (Byte.to_N b <=? hi).

(** The code units of a code point: itself, or a surrogate pair. *)
Definition code_units (cp : N) : jsstring :=
  if cp <? 0x10000 then [cp]
  else [0xD800 + (cp - 0x10000) / 1024; 0xDC00 + (cp - 0x10000) mod 1024].

(** Decoding replaces every maximal ill-formed subsequence by U+FFFD and
    resumes at the byte that broke the sequence. *)
Fixpoint utf8_decode (bs : list byte) : jsstring :=
  match bs with
  | [] => []
  | b0 :: r0 =>
      let c0 := Byte.to_N b0 in
      if c0 <? 0x80 then c0 :: utf8_decode r0
      else if (0xC2 <=? c0) && (c0 <=? 0xDF) then
        match r0 with
        | [] => [REPLACEMENT]
        | b1 :: r1 =>
            if in_range 0x80 0xBF b1
            then ((c0 - 0xC0) * 64 + (Byte.to_N b1 - 0x80)) :: utf8_decode r1
            else REPLACEMENT :: utf8_decode r0
        end
      else if (0xE0 <=? c0) && (c0 <=? 0xEF) then
        let lo := if c0 =? 0xE0 then 0xA0 else 0x80 in
        let hi := if c0 =? 0xED then 0x9F else 0xBF in
        match r0 with
        | [] => [REPLACEMENT]
        | b1 :: r1 =>
            if in_range lo hi b1 then
              match r1 with
              | [] => [REPLACEMENT]
              | b2 :: r2 =>
                  if in_range 0x80 0xBF b2
                  then ((c0 - 0xE0) * 4096 + (Byte.to_N b1 - 0x80) * 64
                        + (Byte.to_N b2 - 0x80)) :: utf8_decode r2
                  else REPLACEMENT :: utf8_decode r1
              end
            else REPLACEMENT :: utf8_decode r0
        end
      else if (0xF0 <=? c0) && (c0 <=? 0xF4) then
        let lo := if c0 =? 0xF0 then 0x90 else 0x80 in
        let hi := if c0 =? 0xF4 then 0x8F else 0xBF in
        match r0 with
        | [] => [REPLACEMENT]
        | b1 :: r1 =>
            if in_range lo hi b1 then
              match r1 with
              | [] => [REPLACEMENT]
              | b2 :: r2 =>
                  if in_range 0x80 0xBF b2 then
                    match r2 with
                    | [] => [REPLACEMENT]
                    | b3 :: r3 =>
                        if in_range 0x80 0xBF b3
                        then code_units
                               ((c0 - 0xF0) * 262144
                                + (Byte.to_N b1 - 0x80) * 4096
                                + (Byte.to_N b2 - 0x80) * 64
                                + (Byte.to_N b3 - 0x80))
                             ++ utf8_decode r3
                        else REPLACEMENT :: utf8_decode r2
                    end
                  else REPLACEMENT :: utf8_decode r1
              end
            else REPLACEMENT :: utf8_decode r0
        end
      else REPLACEMENT :: utf8_decode r0
  end.

(** Well-formed UTF-8: the byte sequences the decoder reads without a
    replacement. *)
Fixpoint well_formed (bs : list byte) : bool :=
  match bs with
  | [] => true
  | b0 :: r0 =>
      let c0 := Byte.to_N b0 in
      if c0 <? 0x80 then well_formed r0
      else if (0xC2 <=? c0) && (c0 <=? 0xDF) then
        match r0 with
        | b1 :: r1 => in_range 0x80 0xBF b1 && well_formed r1
        | _ => false
        end
      else if (0xE0 <=? c0) && (c0 <=? 0xEF) then
        let lo := if c0 =? 0xE0 then 0xA0 else 0x80 in
        let hi := if c0 =? 0xED then 0x9F else 0xBF in
        match r0 with
        | b1 :: b2 :: r2 =>
            in_range lo hi b1 && in_range 0x80 0xBF b2 && well_formed r2
        | _ => false
        end
      else if (0xF0 <=? c0) && (c0 <=? 0xF4) then
        let lo := if c0 =? 0xF0 then 0x90 else 0x80 in
        let hi := if c0 =? 0xF4 then 0x8F else 0xBF in
        match r0 with
        | b1 :: b2 :: b3 :: r3 =>
            in_range lo hi b1 && in_range 0x80 0xBF b2
            && in_range 0x80 0xBF b3 && well_formed r3
        | _ => false
        end
      else false
  end.

(** Two decodings that agree up to a last U+FFFD of the first: how the
    decoding of a buffer relates to the decoding of the buffer with more
    bytes after it (the U+FFFD stands for a character cut by the end). *)
Definition agree_before_tail (u v : jsstring) : Prop :=
  exists s t t', u = s ++ t /\ v = s ++ t' /\ (t = [] \/ t = [REPLACEMENT]).

Definition byte_of_N (n : N) : byte :=
  match Byte.of_N (n mod 256) with Some b => b | None => x00 end.

Definition REPLACEMENT_BYTES : list byte := [xef; xbf; xbd].

Definition is_high_surrogate (u : N) : bool := (0xD800 <=? u) && (u <=? 0xDBFF).
Definition is_low_surrogate (u : N) : bool := (0xDC00 <=? u) && (u <=? 0xDFFF).

(** Encoding pairs surrogates and writes U+FFFD for a lone one. *)
Fixpoint utf8_encode (s : jsstring) : list byte :=
  match s with
  | [] => []
  | u :: s' =>
      if u <? 0x80 then byte_of_N u :: utf8_encode s'
      else if u <? 0x800 then
        byte_of_N (0xC0 + u / 64) :: byte_of_N (0x80 + u mod 64)
          :: utf8_encode s'
      else if is_high_surrogate u then
        match s' with
        | [] => REPLACEMENT_BYTES
        | v :: s'' =>
            if is_low_surrogate v then
              let cp := 0x10000 + (u - 0xD800) * 1024 + (v - 0xDC00) in
              byte_of_N (0xF0 + cp / 262144)
                :: byte_of_N (0x80 + (cp / 4096) mod 64)
                :: byte_of_N (0x80 + (cp / 64) mod 64)
                :: byte_of_N (0x80 + cp mod 64)
                :: utf8_encode s''
            else REPLACEMENT_BYTES ++ utf8_encode s'
        end
      else if is_low_surrogate u then REPLACEMENT_BYTES ++ utf8_encode s'
      else
        byte_of_N (0xE0 + u / 4096) :: byte_of_N (0x80 + (u / 64) mod 64)
          :: byte_of_N (0x80 + u mod 64) :: utf8_encode s'
  end.

End Utf8.

(** ** The frame interceptor ([createLspInterceptor]) *)

Module Interceptor.
Import JsString Utf8.

Definition Buffer := list byte.

Definition CRLF : list byte := [x0d; x0a].
Definition CRLFCRLF : list byte := CRLF ++ CRLF.

(** The literal head of both header patterns, ['Content-Length: ']. *)
Definition CONTENT_LENGTH : list byte :=
  Eval cbv in list_byte_of_string "Content-Length: ".

Definition QUOTE : byte := x22.
Definition COLON : byte := x3a.

(** ['"languageId":"plaintext"'] and ['"languageId":"gdscript"']. *)
Definition LANGUAGE_ID_PLAINTEXT : list byte :=
  Eval cbv in
    QUOTE :: list_byte_of_string "languageId" ++ [QUOTE; COLON; QUOTE]
      ++ list_byte_of_string "plaintext" ++ [QUOTE].
Definition LANGUAGE_ID_GDSCRIPT : list byte :=
  Eval cbv in
    QUOTE :: list_byte_of_string "languageId" ++ [QUOTE; COLON; QUOTE]
      ++ list_byte_of_string "gdscript" ++ [QUOTE].

(** [buffer.slice(start, end)], for [start <= end]. *)
Definition slice (buffer : Buffer) (start stop : nat) : Buffer :=
  firstn (stop - start) (skipn start buffer).

(** [/Content-Length: \d+/] tried at the head of [s]: the digits matched and
    the rest of [s].  [\d+] is greedy, and giving digits back never helps
    what follows it in either pattern, so the greedy run is the match. *)
Definition content_length_at (s : jsstring) : option (jsstring * jsstring) :=
  match strip_prefix (text CONTENT_LENGTH) s with
  | None => None
  | Some r =>
      match span_digits r with
      | ([], _) => None
      | (d, r') => Some (d, r')
      end
  end.

(** The first character of the literal, which its other characters, digits
    and line breaks are not. *)
Definition is_capital_c (c : N) : bool := (c =? 67)%N.

(** [/Content-Length: (\d+)\r\n/] tried at the head of [s]: group 1. *)
Definition content_length_line_at (s : jsstring) : option jsstring :=
  match content_length_at s with
  | Some (d, r) => if starts_with (text CRLF) r then Some d else None
  | None => None
  end.

(** [str.match(/Content-Length: (\d+)\r\n/)]: group 1 of the leftmost match,
    [None] for JavaScript's [null]. *)
Fixpoint match_content_length (str : jsstring) : option jsstring :=
  match content_length_line_at str with
  | Some d => Some d
  | None =>
      match str with
      | [] => None
      | _ :: str' => match_content_length str'
      end
  end.

(** [headers.replace(/Content-Length: \d+/, `Content-Length: ${n}`)]: only
    the leftmost match is replaced. *)
Fixpoint replace_content_length (headers : jsstring) (n : N) : jsstring :=
  match content_length_at headers with
  | Some (_, r) => text CONTENT_LENGTH ++ to_string n ++ r
  | None =>
      match headers with
      | [] => []
      | c :: headers' => c :: replace_content_length headers' n
      end
  end.

(** One turn of the [while (true)] loop on the current [buffer]: [None] is
    a [break]; otherwise the chunks pushed, in order, and the new buffer. *)
Definition frame_step (buffer : Buffer) : option (list Buffer * Buffer) :=
  let str := utf8_decode buffer in
  match match_content_length str with
  | None => None
  | Some contentLengthMatch =>
      match index_of (text CRLFCRLF) str with
      | None => None
      | Some headerEndIndex =>
          let contentLength := parse_int contentLengthMatch in
          let bodyStart := headerEndIndex + 4 in
          if (N.of_nat (length buffer) <? N.of_nat bodyStart + contentLength)%N
          then None
          else
            let bodyEnd := bodyStart + N.to_nat contentLength in
            let body := utf8_decode (slice buffer bodyStart bodyEnd) in
            let pushed :=
              if includes (text LANGUAGE_ID_PLAINTEXT) body then
                let body' :=
                  replace_all (text LANGUAGE_ID_PLAINTEXT)
                              (text LANGUAGE_ID_GDSCRIPT) body in
                let newBody := utf8_encode body' in
                let newHeaders :=
                  replace_content_length (firstn headerEndIndex str)
                                         (N.of_nat (length newBody)) in
                [utf8_encode (newHeaders ++ text CRLFCRLF); newBody]
              else [slice buffer 0 bodyEnd] in
            Some (pushed, skipn bodyEnd buffer)
      end
  end.

(** The loop itself.  Every turn that does not break removes at least the
    four delimiter bytes, so [length buffer] turns are never used up. *)
Fixpoint drain (fuel : nat) (buffer : Buffer) : list Buffer * Buffer :=
  match fuel with
  | O => ([], buffer)
  | S fuel' =>
      match frame_step buffer with
      | None => ([], buffer)
      | Some (pushed, buffer') =>
          let (more, rest) := drain fuel' buffer' in (pushed ++ more, rest)
      end
  end.

(** [transform(chunk, encoding, callback)] with the closure's [buffer] passed
    in and handed back. *)
Definition transform (buffer chunk : Buffer) : list Buffer * Buffer :=
  drain (S (length (buffer ++ chunk))) (buffer ++ chunk).

(** The transform fed a sequence of chunks, starting from [buffer]. *)
Fixpoint feed (buffer : Buffer) (chunks : list Buffer) : list Buffer * Buffer :=
  match chunks with
  | [] => ([], buffer)
  | chunk :: chunks' =>
      let (pushed, buffer') := transform buffer chunk in
      let (more, rest) := feed buffer' chunks' in
      (pushed ++ more, rest)
  end.

(** A fresh interceptor ([Buffer.alloc(0)]) fed [chunks]: everything pushed. *)
Definition intercept (chunks : list Buffer) : list Buffer :=
  fst (feed [] chunks).

End Interceptor.

(** ** Protocol frames *)

Module Frame.
Import JsString Utf8 Interceptor.

(** A frame on the wire: header lines, among them the length declaration,
    a blank line, and the body.  [leading] and [trailing] are the header
    lines before and after the declaration, without their line ends. *)
Record Frame := mkFrame {
  leading : list (list byte);
  trailing : list (list byte);
  body : list byte
}.

Definition with_body (f : Frame) (b : list byte) : Frame :=
  {| leading := leading f; trailing := trailing f; body := b |}.

Definition lines (ls : list (list byte)) : list byte :=
  concat (map (fun l => l ++ CRLF) ls).

(** The decimal digits of a byte count. *)
Definition decimal (n : nat) : list byte :=
  map byte_of_N (to_string (N.of_nat n)).

(** The header block with its closing blank line. *)
Definition header (f : Frame) : list byte :=
  lines (leading f) ++ CONTENT_LENGTH ++ decimal (length (body f)) ++ CRLF
    ++ lines (trailing f) ++ CRLF.

Definition encode (f : Frame) : list byte := header f ++ body f.

Definition stream (fs : list Frame) : list byte := concat (map encode fs).

Definition is_ascii (bs : list byte) : bool :=
  forallb (fun b => (Byte.to_N b <? 128)%N) bs.

(** The header lines after the declaration, each behind its line break. *)
Definition continuation (ls : list (list byte)) : list byte :=
  concat (map (fun l => CRLF ++ l) ls).

(** Header text is ASCII and a header line holds no line break. *)
Definition is_header_byte (b : byte) : bool :=
  (Byte.to_N b <? 128)%N && negb (Byte.eqb b x0d) && negb (Byte.eqb b x0a).

Definition is_header_line (l : list byte) : bool :=
  negb (Nat.eqb (length l) 0) && forallb is_header_byte l.

Definition without_literal (ls : list (list byte)) : bool :=
  forallb (fun l => negb (includes (text CONTENT_LENGTH) (text l))) ls.

(** A valid frame: well-formed header lines, and the text
    ['Content-Length: '] first appears in the length declaration. *)
Definition valid (f : Frame) : bool :=
  forallb is_header_line (leading f)
  && forallb is_header_line (trailing f)
  && without_literal (leading f).

(** [/Content-Length: \d+/.test(s)]: the pattern of the replacement
    matches somewhere in [s]. *)
Fixpoint mentions_length (s : jsstring) : bool :=
  match content_length_at s with
  | Some _ => true
  | None =>
      match s with
      | [] => false
      | _ :: s' => mentions_length s'
      end
  end.

(** A frame whose length declaration is the first text of its header that
    the header patterns match: well-formed header lines, none of which,
    before the declaration, holds ['Content-Length: '] followed by a
    digit. *)
Definition well_declared (f : Frame) : bool :=
  forallb is_header_line (leading f)
  && forallb is_header_line (trailing f)
  && forallb (fun l => negb (mentions_length (text l))) (leading f).

(** The body as text, and the test the interceptor applies to it. *)
Definition body_text (f : Frame) : jsstring := utf8_decode (body f).

Definition targeted (f : Frame) : bool :=
  includes (text LANGUAGE_ID_PLAINTEXT) (body_text f).

Definition rewritten_body (f : Frame) : list byte :=
  utf8_encode (replace_all (text LANGUAGE_ID_PLAINTEXT)
                           (text LANGUAGE_ID_GDSCRIPT) (body_text f)).

(** What the interceptor is expected to push for a frame: a targeted frame
    leaves as its header (with the new length) and then its new body,
    any other frame as one chunk of its own bytes. *)
Definition emitted (f : Frame) : list Buffer :=
  if targeted f
  then [header (with_body f (rewritten_body f)); rewritten_body f]
  else [encode f].

(** The frame that leaves the interceptor for [f]. *)
Definition rewritten (f : Frame) : Frame :=
  if targeted f then with_body f (rewritten_body f) else f.

(** Every way of cutting a byte stream into chunks. *)
Definition chunking (chunks : list Buffer) (bytes : Buffer) : Prop :=
  concat chunks = bytes.

End Frame.

(** ** The port prober ([isPortOpen]) *)

Module Prober.
Local Open Scope N_scope.

(** The events the probing socket has a listener for. *)
Inductive ProbeEvent := OnConnect | OnError | OnTimeout.

(** What the prober does to its socket and to its promise. *)
Inductive ProbeAction :=
| NewSocket
| SetTimeout (ms : N)
| ConnectTo (port : N) (host : string)
| Destroy
| Resolve (open : bool).

(** The executor of the promise: it creates the socket, arms its timeout,
    registers the three listeners and starts connecting. *)
Definition start (port : N) (host : string) (timeout : N) : list ProbeAction :=
  [NewSocket; SetTimeout timeout; ConnectTo port host].

(** The listener of each event. *)
Definition listener (e : ProbeEvent) : list ProbeAction :=
  match e with
  | OnConnect => [Destroy; Resolve true]
  | OnError => [Destroy; Resolve false]
  | OnTimeout => [Destroy; Resolve false]
  end.

(** Everything a probe does when the socket emits [events] in that order. *)
Definition actions (port : N) (host : string) (timeout : N)
           (events : list ProbeEvent) : list ProbeAction :=
  start port host timeout ++ flat_map listener events.

(** A promise keeps the value of the first [resolve]. *)
Fixpoint settled (acts : list ProbeAction) : option bool :=
  match acts with
  | [] => None
  | Resolve b :: _ => Some b
  | _ :: acts' => settled acts'
  end.

(** The socket is destroyed at every [resolve]: a [Destroy] comes before it
    with no [ConnectTo] in between. *)
Fixpoint closed_when_resolved (destroyed : bool) (acts : list ProbeAction) : bool :=
  match acts with
  | [] => true
  | Resolve _ :: acts' => destroyed && closed_when_resolved destroyed acts'
  | Destroy :: acts' => closed_when_resolved true acts'
  | ConnectTo _ _ :: acts' => closed_when_resolved false acts'
  | NewSocket :: acts' => closed_when_resolved false acts'
  | SetTimeout _ :: acts' => closed_when_resolved destroyed acts'
  end.

(** How the network answers a connection attempt, and how long after
    [connect] it does: the peer accepts, the attempt fails (a closed port is
    refused), or nothing ever comes back. *)
Inductive Network := Accepts (after : N) | Refuses (after : N) | Silent.

(** The first event the socket emits, and when, once the executor has armed
    its timer and started the connection.  The idle timer armed by
    [setTimeout(ms)] fires after [ms] without activity; [setTimeout(0)]
    arms nothing. *)
Definition first_event (timeout : N) (net : Network) : option (ProbeEvent * N) :=
  match net with
  | Accepts t =>
      if (timeout =? 0) || (t <? timeout) then Some (OnConnect, t)
      else Some (OnTimeout, timeout)
  | Refuses t =>
      if (timeout =? 0) || (t <? timeout) then Some (OnError, t)
      else Some (OnTimeout, timeout)
  | Silent => if timeout =? 0 then None else Some (OnTimeout, timeout)
  end.

(** [isPortOpen(port, host, timeout)] against a network, for an endpoint
    that [connect] takes: the value the promise settles to and the time it
    takes, [None] while it stays pending.  This is the probe as the
    orchestrator awaits it; [await] below runs the executor on the socket
    itself. *)
Definition isPortOpen (port : N) (host : string) (timeout : N) (net : Network)
  : option (bool * N) :=
  match first_event timeout net with
  | None => None
  | Some (e, t) =>
      match settled (actions port host timeout [e]) with
      | Some b => Some (b, t)
      | None => None
      end
  end.

(** The default of the [timeout] parameter. *)
Definition DEFAULT_TIMEOUT : N := 1000.

(** *** The socket behind the promise *)

(** What the actions of a probe leave of its socket: the idle timer armed
    by [setTimeout], the endpoint given to [connect], and whether [destroy]
    has been called. *)
Record Socket := mkSocket {
  timer : option N;
  peer : option (N * string);
  destroyed : bool
}.

Inductive Promise := Unsettled | Resolved (open : bool) | Rejected.

(** A probe under way: its socket, once [new net.Socket()] has run, and its
    promise. *)
Record Probe := mkProbe {
  socket : option Socket;
  promise : Promise
}.

Definition unstarted : Probe := {| socket := None; promise := Unsettled |}.

(** The highest port [socket.connect] takes; given any other number it
    throws [ERR_SOCKET_BAD_PORT]. *)
Definition MAX_PORT : N := 65535.

(** One action on the probe, [None] when it throws.  [setTimeout(0)] arms
    no timer, [destroy] stops the timer and the connection attempt, and a
    promise keeps its first settlement. *)
Definition perform (a : ProbeAction) (pr : Probe) : option Probe :=
  match a with
  | NewSocket =>
      Some {| socket := Some {| timer := None; peer := None;
                                destroyed := false |};
              promise := promise pr |}
  | Resolve b =>
      Some {| socket := socket pr;
              promise := match promise pr with
                         | Unsettled => Resolved b
                         | kept => kept
                         end |}
  | SetTimeout ms =>
      match socket pr with
      | Some s =>
          Some {| socket := Some {| timer := if ms =? 0 then None else Some ms;
                                    peer := peer s;
                                    destroyed := destroyed s |};
                  promise := promise pr |}
      | None => None
      end
  | ConnectTo port host =>
      match socket pr with
      | Some s =>
          if port <=? MAX_PORT
          then Some {| socket := Some {| timer := timer s;
                                         peer := Some (port, host);
                                         destroyed := destroyed s |};
                       promise := promise pr |}
          else None
      | None => None
      end
  | Destroy =>
      match socket pr with
      | Some _ =>
          Some {| socket := Some {| timer := None; peer := None;
                                    destroyed := true |};
                  promise := promise pr |}
      | None => None
      end
  end.

(** Actions in sequence, up to the first that throws: the probe as they
    leave it, and whether one threw. *)
Fixpoint run (acts : list ProbeAction) (pr : Probe) : Probe * bool :=
  match acts with
  | [] => (pr, false)
  | a :: acts' =>
      match perform a pr with
      | Some pr' => run acts' pr'
      | None => (pr, true)
      end
  end.

(** [new Promise(executor)]: the executor runs at once, and an exception
    out of it rejects the promise. *)
Definition executor (port : N) (host : string) (timeout : N) : Probe :=
  let (pr, thrown) := run (start port host timeout) unstarted in
  if thrown
  then {| socket := socket pr;
          promise := match promise pr with
                     | Unsettled => Rejected
                     | kept => kept
                     end |}
  else pr.

(** The next event of a socket and when it comes: the answer of the network
    to the connection attempt, or the idle timer if that fires first.  A
    socket that is not connecting gets no answer, one without timer waits
    for as long as it takes, and a destroyed socket emits nothing. *)
Definition next_event (s : Socket) (net : Network) : option (ProbeEvent * N) :=
  if destroyed s then None
  else
    let answer :=
      match peer s, net with
      | Some _, Accepts t => Some (OnConnect, t)
      | Some _, Refuses t => Some (OnError, t)
      | _, _ => None
      end in
    match answer, timer s with
    | Some (e, t), Some ms =>
        if t <? ms then Some (e, t) else Some (OnTimeout, ms)
    | Some (e, t), None => Some (e, t)
    | None, Some ms => Some (OnTimeout, ms)
    | None, None => None
    end.

(** The listener of [e] run on the probe. *)
Definition handle (e : ProbeEvent) (pr : Probe) : Probe :=
  fst (run (listener e) pr).

(** What [await isPortOpen(port, host, timeout)] comes to: a value after
    some time, an exception, or nothing, ever. *)
Inductive Awaited := Value (open : bool) (elapsed : N) | Exception | Never.

Definition await (port : N) (host : string) (timeout : N) (net : Network)
  : Awaited :=
  let pr := executor port host timeout in
  match promise pr with
  | Rejected => Exception
  | Resolved b => Value b 0
  | Unsettled =>
      match socket pr with
      | None => Never
      | Some s =>
          match next_event s net with
          | None => Never
          | Some (e, t) =>
              match promise (handle e pr) with
              | Resolved b => Value b t
              | Rejected => Exception
              | Unsettled => Never
              end
          end
      end
  end.

End Prober.

(** ** The orchestrator ([main], [launchGodotEditor], [cleanup]) *)

Module Bridge.
Import Interceptor.
Local Open Scope N_scope.

Inductive Platform := Win32 | LinuxOS | Darwin | OtherOS.

Definition isWindows (p : Platform) : bool :=
  match p with Win32 => true | _ => false end.
Definition isLinux (p : Platform) : bool :=
  match p with LinuxOS => true | _ => false end.

(** Command-line words of the spawned server. *)
Inductive Arg := Word (s : string) | PortNumber (p : N).

(** The lines written to the diagnostic channel ([console.error]). *)
Inductive Message :=
| CouldNotFindGodot | SetGodotPathHint
| CouldNotFindProject | RunFromProjectHint
| LaunchingHeadless | GodotIs (path : string) | ProjectIs (path : string)
| PortIs (p : N) | CommandIs (command : string) (args : list Arg)
| UsingXvfbRun | XvfbRunNotFound
| WaitingForLsp | LspReady (p : N) | StillWaiting (seconds : nat)
| TimeoutWaiting | TroubleshootingTips
| FailedToStart | PleaseStartManually
| Connected (host : string) (p : N) | SocketErrorMessage
| CleaningUp | FatalError.

(** What the bridge does to the outside world. *)
Inductive Effect :=
| Log (m : Message)
| Probed (port : N) (open : bool)
| Spawn (command : string) (args : list Arg)
| Unref
| Sleep (ms : N)
| SocketConnect (port : N) (host : string)
| PipeStdin
| SocketWrite (bytes : Buffer)
| StdoutWrite (bytes : Buffer)
| SocketEnd
| TaskKill (pid : N)
| Kill (pid : N)
| Exit (code : N).

(** The environment of one session.  [network k port] is how a connection
    to [port] is answered once [k] polling waits have elapsed. *)
Record World := mkWorld {
  platform : Platform;
  display : bool;
  xvfb_run : bool;
  findGodot : option string;
  findProjectFile : option string;
  host : string;
  network : nat -> N -> Prober.Network;
  child_pid : N;
  kill_throws : bool
}.

(** The module-level variables and the closure of the interceptor. *)
Record State := mkState {
  port : N;
  spawnedGodotProcess : option N;
  waits : nat;
  piped : bool;
  buffer : Buffer;
  effects : list Effect
}.

Definition initial (p : N) : State :=
  {| port := p; spawnedGodotProcess := None; waits := O; piped := false;
     buffer := []; effects := [] |}.

(** How a computation ends: with a value, with a thrown exception, with
    [process.exit], or never (an [await] that stays pending). *)
Inductive Outcome (A : Type) :=
| Ret (a : A)
| Throw
| Exited (code : N)
| Pending.
Arguments Ret {A} a.
Arguments Throw {A}.
Arguments Exited {A} code.
Arguments Pending {A}.

Definition M (A : Type) : Type := World -> State -> Outcome A * State.

Definition ret {A} (a : A) : M A := fun _ st => (Ret a, st).

Definition bind {A B} (m : M A) (k : A -> M B) : M B :=
  fun w st =>
    match m w st with
    | (Ret a, st') => k a w st'
    | (Throw, st') => (Throw, st')
    | (Exited c, st') => (Exited c, st')
    | (Pending, st') => (Pending, st')
    end.

Notation "x <- m ;; k" := (bind m (fun x => k))
  (at level 61, m at next level, right associativity).
Notation "m ;; k" := (bind m (fun _ => k))
  (at level 61, right associativity).

Definition emit (e : Effect) : M unit :=
  fun _ st =>
    (Ret tt,
     {| port := port st; spawnedGodotProcess := spawnedGodotProcess st;
        waits := waits st; piped := piped st; buffer := buffer st;
        effects := effects st ++ [e] |}).

Definition log (m : Message) : M unit := emit (Log m).

Definition ask {A} (f : World -> A) : M A := fun w st => (Ret (f w), st).
Definition get {A} (f : State -> A) : M A := fun _ st => (Ret (f st), st).

Definition set_port (p : N) : M unit :=
  fun _ st =>
    (Ret tt,
     {| port := p; spawnedGodotProcess := spawnedGodotProcess st;
        waits := waits st; piped := piped st; buffer := buffer st;
        effects := effects st |}).

Definition set_spawned (pid : N) : M unit :=
  fun _ st =>
    (Ret tt,
     {| port := port st; spawnedGodotProcess := Some pid;
        waits := waits st; piped := piped st; buffer := buffer st;
        effects := effects st |}).

Definition set_piped : M unit :=
  fun _ st =>
    (Ret tt,
     {| port := port st; spawnedGodotProcess := spawnedGodotProcess st;
        waits := waits st; piped := true; buffer := buffer st;
        effects := effects st |}).

Definition set_buffer (b : Buffer) : M unit :=
  fun _ st =>
    (Ret tt,
     {| port := port st; spawnedGodotProcess := spawnedGodotProcess st;
        waits := waits st; piped := piped st; buffer := b;
        effects := effects st |}).

(** [process.exit(code)]. *)
Definition exit {A} (code : N) : M A :=
  fun w st =>
    match emit (Exit code) w st with
    | (_, st') => (Exited code, st')
    end.

(** [try { body } catch (e) {}]. *)
Definition try_ignore (body : M unit) : M unit :=
  fun w st =>
    match body w st with
    | (Throw, st') => (Ret tt, st')
    | r => r
    end.

(** [await new Promise(r => setTimeout(r, ms))]. *)
Definition sleep (ms : N) : M unit :=
  fun _ st =>
    (Ret tt,
     {| port := port st; spawnedGodotProcess := spawnedGodotProcess st;
        waits := S (waits st); piped := piped st; buffer := buffer st;
        effects := effects st ++ [Sleep ms] |}).

(** [await isPortOpen(port, host)], with the default timeout. *)
Definition isPortOpen (p : N) : M bool :=
  fun w st =>
    match Prober.isPortOpen p (host w) Prober.DEFAULT_TIMEOUT
                            (network w (waits st) p) with
    | Some (open, _) => (Ret open, snd (emit (Probed p open) w st))
    | None => (Pending, st)
    end.

(** The command line of the server, for Godot 4.4.1 and later. *)
Definition godotArgs (p : N) (project : string) : list Arg :=
  [Word "--editor"; Word "--headless";
   Word "--display-driver"; Word "headless";
   Word "--audio-driver"; Word "Dummy";
   Word "--lsp-port"; PortNumber p;
   Word "--path"; Word project].

(** [spawnedGodotProcess = spawn(command, args, spawnOptions)]. *)
Definition spawn (command : string) (args : list Arg) : M unit :=
  emit (Spawn command args) ;;
  pid <- ask child_pid ;;
  set_spawned pid.

(** The number of turns of the polling loop and the wait before each probe. *)
Definition POLL_ATTEMPTS : nat := 60.
Definition POLL_INTERVAL : N := 500.

(** [for (let i = ...; i < ...; i++) { ... }] with [n] turns left: wait,
    probe, return [true] at the first open port, report every tenth turn. *)
Fixpoint waitForLsp (n : nat) (i : nat) : M bool :=
  match n with
  | O => ret false
  | S n' =>
      sleep POLL_INTERVAL ;;
      p <- get port ;;
      open <- isPortOpen p ;;
      if open then
        log (LspReady p) ;;
        ret true
      else
        (if Nat.eqb (Nat.modulo (i + 1) 10) 0
         then log (StillWaiting (Nat.div (i + 1) 2))
         else ret tt) ;;
        waitForLsp n' (S i)
  end.

Definition launchGodotEditor : M bool :=
  found <- ask findGodot ;;
  match found with
  | None =>
      log CouldNotFindGodot ;;
      log SetGodotPathHint ;;
      ret false
  | Some godot =>
      located <- ask findProjectFile ;;
      match located with
      | None =>
          log CouldNotFindProject ;;
          log RunFromProjectHint ;;
          ret false
      | Some project =>
          p <- get port ;;
          log LaunchingHeadless ;;
          log (GodotIs godot) ;;
          log (ProjectIs project) ;;
          log (PortIs p) ;;
          log (CommandIs godot (godotArgs p project)) ;;
          os <- ask platform ;;
          hasDisplay <- ask display ;;
          (if isLinux os && negb hasDisplay then
             hasXvfb <- ask xvfb_run ;;
             if hasXvfb then
               log UsingXvfbRun ;;
               spawn "xvfb-run" (Word "-a" :: Word godot :: godotArgs p project)
             else
               log XvfbRunNotFound ;;
               spawn godot (godotArgs p project)
           else
             spawn godot (godotArgs p project)) ;;
          emit Unref ;;
          log WaitingForLsp ;;
          ready <- waitForLsp POLL_ATTEMPTS 0 ;;
          if ready then ret true
          else
            log TimeoutWaiting ;;
            log TroubleshootingTips ;;
            ret false
      end
  end.

(** [main] up to [socket.connect]: probe, try the alternate default port,
    launch if nothing answers, then connect.  The listeners it registers
    are [on_event] below. *)
Definition main : M unit :=
  p <- get port ;;
  lspRunning <- isPortOpen p ;;
  lspRunning <-
    (if negb lspRunning && (p =? 6005) then
       alt <- isPortOpen 6008 ;;
       (if alt then set_port 6008 else ret tt) ;;
       ret alt
     else if negb lspRunning && (p =? 6008) then
       alt <- isPortOpen 6005 ;;
       (if alt then set_port 6005 else ret tt) ;;
       ret alt
     else ret lspRunning) ;;
  (if negb lspRunning then
     launched <- launchGodotEditor ;;
     if negb launched then
       log FailedToStart ;;
       log PleaseStartManually ;;
       exit 1
     else ret tt
   else ret tt) ;;
  p <- get port ;;
  h <- ask host ;;
  emit (SocketConnect p h).

(** [cleanup], the listener of both termination signals. *)
Definition cleanup : M unit :=
  emit SocketEnd ;;
  spawned <- get spawnedGodotProcess ;;
  (match spawned with
   | Some pid =>
       log CleaningUp ;;
       try_ignore
         (os <- ask platform ;;
          (if isWindows os then emit (TaskKill pid) else emit (Kill pid)) ;;
          throws <- ask kill_throws ;;
          if throws then (fun _ st => (Throw, st)) else ret tt)
   | None => ret tt
   end) ;;
  exit 0.

(** What reaches the running bridge once [main] has returned. *)
Inductive Signal := SIGTERM | SIGINT.

Inductive Event :=
| SocketConnected
| SocketData (bytes : Buffer)
| SocketError
| SocketClosed
| StdinData (chunk : Buffer)
| Signalled (s : Signal).

Fixpoint write_all (chunks : list Buffer) : M unit :=
  match chunks with
  | [] => ret tt
  | c :: chunks' => emit (SocketWrite c) ;; write_all chunks'
  end.

(** The listener of each event.  Standard input flows, through the
    interceptor, only once the socket is connected. *)
Definition on_event (e : Event) : M unit :=
  match e with
  | SocketConnected =>
      h <- ask host ;;
      p <- get port ;;
      log (Connected h p) ;;
      emit PipeStdin ;;
      set_piped
  | SocketData bytes => emit (StdoutWrite bytes)
  | SocketError =>
      log SocketErrorMessage ;;
      exit 1
  | SocketClosed => exit 0
  | StdinData chunk =>
      flowing <- get piped ;;
      if flowing then
        b <- get buffer ;;
        let (pushed, b') := transform b chunk in
        set_buffer b' ;;
        write_all pushed
      else ret tt
  | Signalled _ => cleanup
  end.

Fixpoint react (events : list Event) : M unit :=
  match events with
  | [] => ret tt
  | e :: events' => on_event e ;; react events'
  end.

(** [main().catch(...)]: an exception out of [main] is fatal. *)
Definition catch_fatal (m : M unit) : M unit :=
  fun w st =>
    match m w st with
    | (Throw, st') => (log FatalError ;; exit 1) w st'
    | r => r
    end.

(** One session: start with the configured port, then serve [events]. *)
Definition session (w : World) (p : N) (events : list Event)
  : Outcome unit * State :=
  (catch_fatal main ;; react events) w (initial p).

Definition exit_code (r : Outcome unit * State) : option N :=
  match fst r with Exited c => Some c | _ => None end.

Definition trace (r : Outcome unit * State) : list Effect := effects (snd r).

Definition is_spawn (e : Effect) : bool :=
  match e with Spawn _ _ => true | _ => false end.
Definition is_termination (e : Effect) : bool :=
  match e with TaskKill _ | Kill _ => true | _ => false end.
Definition is_log (e : Effect) : bool :=
  match e with Log _ => true | _ => false end.

(** Effects that neither start nor stop a process nor end the session. *)
Definition is_quiet (e : Effect) : bool :=
  match e with
  | Spawn _ _ | TaskKill _ | Kill _ | Exit _ => false
  | _ => true
  end.

(** Executable and project are both found. *)
Definition launchable (w : World) : bool :=
  match findGodot w, findProjectFile w with
  | Some _, Some _ => true
  | _, _ => false
  end.

(** A state with further effects recorded. *)
Definition record (es : list Effect) (st : State) : State :=
  {| port := port st; spawnedGodotProcess := spawnedGodotProcess st;
     waits := waits st; piped := piped st; buffer := buffer st;
     effects := effects st ++ es |}.

Definition is_probe (e : Effect) : bool :=
  match e with Probed _ _ => true | _ => false end.
Definition is_sleep (e : Effect) : bool :=
  match e with Sleep _ => true | _ => false end.

Definition is_progress (e : Effect) : bool :=
  match e with Log (StillWaiting _) => true | _ => false end.

(** The effects at which [main] is suspended: it awaits every probe and
    every polling wait. *)
Definition is_await (e : Effect) : bool := is_probe e || is_sleep e.

(** A termination signal that arrives while [main] awaits its effect number
    [n] (from 0).  [main] registers [cleanup] for the signals in its last
    statements but one (l.329-330), after all its awaits; until then a
    signal has its default action, which ends the process on the spot: no
    listener runs, and what the session has done is what it had done by
    then.  [None] when effect [n] of the session is no await of [main]. *)
Definition interrupted (w : World) (p : N) (n : nat) : option (list Effect) :=
  let done := trace (session w p []) in
  match nth_error done n with
  | Some e => if is_await e then Some (firstn n done) else None
  | None => None
  end.

Definition count (f : Effect -> bool) (t : list Effect) : nat :=
  length (filter f t).

(** What a probe of [p] resolves to once [k] polling waits have elapsed. *)
Definition answers (w : World) (k : nat) (p : N) : bool :=
  match Prober.isPortOpen p (host w) Prober.DEFAULT_TIMEOUT (network w k p) with
  | Some (open, _) => open
  | None => false
  end.

(** The alternate default port tried when [p] does not answer. *)
Definition fallback (p : N) : option N :=
  if p =? 6005 then Some 6008
  else if p =? 6008 then Some 6005
  else None.

(** The configured endpoint, or its fallback, answers at startup. *)
Definition already_running (w : World) (p : N) : bool :=
  answers w O p
  || match fallback p with Some q => answers w O q | None => false end.

(** The port answers at one of the [n] polling attempts that follow [from]
    waits. *)
Fixpoint ready_within (w : World) (p : N) (from n : nat) : bool :=
  match n with
  | O => false
  | S n' => answers w (S from) p || ready_within w p (S from) n'
  end.

(** The launch succeeds: executable and project are found and the server
    answers before the polling attempts run out. *)
Definition launch_succeeds (w : World) (p : N) : bool :=
  match findGodot w, findProjectFile w with
  | Some _, Some _ => ready_within w p O POLL_ATTEMPTS
  | _, _ => false
  end.

(** The first event that ends a running session, and the code it ends with,
    in the words of the exit-code table: [0] on a close by the peer or on a
    termination signal, non-zero on a socket error. *)
Fixpoint first_ending (events : list Event) : option N :=
  match events with
  | [] => None
  | SocketClosed :: _ => Some 0
  | Signalled _ :: _ => Some 0
  | SocketError :: _ => Some 1
  | _ :: events' => first_ending events'
  end.

Definition ending (events : list Event) : Outcome unit :=
  match first_ending events with
  | Some c => Exited c
  | None => Ret tt
  end.


(** The same environment with another answer to "does the kill throw". *)
Definition with_kill_throws (b : bool) (w : World) : World :=
  {| platform := platform w; display := display w; xvfb_run := xvfb_run w;
     findGodot := findGodot w; findProjectFile := findProjectFile w;
     host := host w; network := network w; child_pid := child_pid w;
     kill_throws := b |}.

(** What the polling loop does when the port first answers at attempt [k],
    the loop index being [i] at its start: before each probe a wait of one
    interval; after each tenth unanswered attempt a progress line. *)
Fixpoint expected_poll (p : N) (k : nat) (i : nat) : list Effect :=
  match k with
  | O => []
  | S O => [Sleep POLL_INTERVAL; Probed p true; Log (LspReady p)]
  | S k' =>
      [Sleep POLL_INTERVAL; Probed p false]
        ++ (if Nat.eqb (Nat.modulo (i + 1) 10) 0
            then [Log (StillWaiting (Nat.div (i + 1) 2))] else [])
        ++ expected_poll p k' (S i)
  end.

(** The termination attempted for a process on a platform. *)
Definition termination (os : Platform) (pid : N) : Effect :=
  if isWindows os then TaskKill pid else Kill pid.

(** What [cleanup] does, given the process reference it finds. *)
Definition expected_cleanup (os : Platform) (spawned : option N) : list Effect :=
  SocketEnd
    :: match spawned with
       | Some pid => [Log CleaningUp; termination os pid]
       | None => []
       end
    ++ [Exit 0].

(** A diagnostic line written after a termination was attempted. *)
Fixpoint logged_after_termination (t : list Effect) : bool :=
  match t with
  | [] => false
  | e :: t' =>
      if is_termination e then existsb is_log t'
      else logged_after_termination t'
  end.

(** *** What a session does, told apart by kind *)


(** The chunks written to the socket and to standard output, in order. *)
Definition to_socket (t : list Effect) : list Buffer :=
  flat_map (fun e => match e with SocketWrite b => [b] | _ => [] end) t.

Definition to_stdout (t : list Effect) : list Buffer :=
  flat_map (fun e => match e with StdoutWrite b => [b] | _ => [] end) t.

(** The chunks standard input and the socket deliver among [events]. *)
Definition stdin_chunks (events : list Event) : list Buffer :=
  flat_map (fun e => match e with StdinData c => [c] | _ => [] end) events.

Definition socket_chunks (events : list Event) : list Buffer :=
  flat_map (fun e => match e with SocketData b => [b] | _ => [] end) events.

Definition is_data (e : Event) : bool :=
  match e with StdinData _ | SocketData _ => true | _ => false end.

(** The port the bridge ends up with: the configured one, or the alternate
    default when only that one answers at startup. *)
Definition endpoint (w : World) (p : N) : N :=
  if answers w O p then p
  else match fallback p with
       | Some q => if answers w O q then q else p
       | None => p
       end.

(** The process a launch starts: the editor itself, or the editor under
    [xvfb-run -a] on Linux without a display when [xvfb-run] is there. *)
Definition expected_spawn (w : World) (godot project : string) (p : N)
  : Effect :=
  if isLinux (platform w) && negb (display w) && xvfb_run w
  then Spawn "xvfb-run" (Word "-a" :: Word godot :: godotArgs p project)
  else Spawn godot (godotArgs p project).

(** *** The effects of startup, listed

  The trace of the polling loop over [n] attempts that follow [from] waits,
  the loop index being [i]; the number of waits it makes; the trace of a
  launch and of [main]. *)
Fixpoint poll_trace (w : World) (p : N) (from n i : nat) : list Effect :=
  match n with
  | O => []
  | S n' =>
      Sleep POLL_INTERVAL :: Probed p (answers w (S from) p)
        :: (if answers w (S from) p then [Log (LspReady p)]
            else (if Nat.eqb (Nat.modulo (i + 1) 10) 0
                  then [Log (StillWaiting (Nat.div (i + 1) 2))] else [])
                   ++ poll_trace w p (S from) n' (S i))
  end.

Fixpoint poll_waits (w : World) (p : N) (from n : nat) : nat :=
  match n with
  | O => O
  | S n' =>
      S (if answers w (S from) p then O else poll_waits w p (S from) n')
  end.

Definition launch_trace (w : World) (p : N) : list Effect :=
  match findGodot w with
  | None => [Log CouldNotFindGodot; Log SetGodotPathHint]
  | Some godot =>
      match findProjectFile w with
      | None => [Log CouldNotFindProject; Log RunFromProjectHint]
      | Some project =>
          [Log LaunchingHeadless; Log (GodotIs godot); Log (ProjectIs project);
           Log (PortIs p); Log (CommandIs godot (godotArgs p project))]
            ++ (if isLinux (platform w) && negb (display w)
                then [Log (if xvfb_run w then UsingXvfbRun
                           else XvfbRunNotFound)]
                else [])
            ++ [expected_spawn w godot project p; Unref; Log WaitingForLsp]
            ++ poll_trace w p O POLL_ATTEMPTS 0
            ++ (if ready_within w p O POLL_ATTEMPTS then []
                else [Log TimeoutWaiting; Log TroubleshootingTips])
      end
  end.

Definition startup_trace (w : World) (p : N) : list Effect :=
  Probed p (answers w O p)
    :: (if answers w O p then []
        else match fallback p with
             | Some q => [Probed q (answers w O q)]
             | None => []
             end)
    ++ (if already_running w p then [] else launch_trace w p)
    ++ (if already_running w p || launch_succeeds w p
        then [SocketConnect (endpoint w p) (host w)]
        else [Log FailedToStart; Log PleaseStartManually; Exit 1]).

(** The state [main] leaves behind. *)
Definition started (w : World) (p : N) : State :=
  {| port := endpoint w p;
     spawnedGodotProcess :=
       if negb (already_running w p) && launchable w
       then Some (child_pid w) else None;
     waits :=
       if negb (already_running w p) && launchable w
       then poll_waits w p O POLL_ATTEMPTS else O;
     piped := false;
     buffer := [];
     effects := startup_trace w p |}.

(** Effects only a listener has: writes, the pipe, the end of the socket,
    terminations, the diagnostics of the listeners and the exit. *)
Definition is_served (e : Effect) : bool :=
  match e with
  | Probed _ _ | Spawn _ _ | Unref | Sleep _ | SocketConnect _ _ => false
  | Log (Connected _ _) | Log SocketErrorMessage | Log CleaningUp => true
  | Log _ => false
  | _ => true
  end.

(** The line the launch writes when its polling attempts have run out. *)
Definition is_timeout_log (e : Effect) : bool :=
  match e with Log TimeoutWaiting => true | _ => false end.

End Bridge.

(** ** The earlier bridge script, without interceptor or cleanup *)

Module Legacy.
Import Bridge.

(** Its polling loop runs for 40 turns. *)
Definition POLL_ATTEMPTS : nat := 40.

(** Its listeners of [SIGTERM] and [SIGINT]; the spawned process is a local
    of [launchGodotEditor] and out of their reach. *)
Definition on_signal : M unit :=
  emit SocketEnd ;;
  exit 0.

(** Its command line has no driver options. *)
Definition godotArgs (p : N) (project : string) : list Arg :=
  [Word "--editor"; Word "--headless";
   Word "--lsp-port"; PortNumber p;
   Word "--path"; Word project].

(** [godotProcess = spawn(command, args, spawnOptions)]: the child is a
    local variable of the launch. *)
Definition spawn (command : string) (args : list Arg) : M unit :=
  emit (Spawn command args).

Definition launchGodotEditor : M bool :=
  found <- ask findGodot ;;
  match found with
  | None =>
      log CouldNotFindGodot ;;
      log SetGodotPathHint ;;
      ret false
  | Some godot =>
      located <- ask findProjectFile ;;
      match located with
      | None =>
          log CouldNotFindProject ;;
          log RunFromProjectHint ;;
          ret false
      | Some project =>
          p <- get port ;;
          log LaunchingHeadless ;;
          log (GodotIs godot) ;;
          log (ProjectIs project) ;;
          log (PortIs p) ;;
          log (CommandIs godot (godotArgs p project)) ;;
          os <- ask platform ;;
          hasDisplay <- ask display ;;
          (if isLinux os && negb hasDisplay then
             hasXvfb <- ask xvfb_run ;;
             if hasXvfb then
               log UsingXvfbRun ;;
               spawn "xvfb-run" (Word "-a" :: Word godot :: godotArgs p project)
             else
               log XvfbRunNotFound ;;
               spawn godot (godotArgs p project)
           else
             spawn godot (godotArgs p project)) ;;
          emit Unref ;;
          log WaitingForLsp ;;
          ready <- waitForLsp POLL_ATTEMPTS 0 ;;
          if ready then ret true
          else
            log TimeoutWaiting ;;
            log TroubleshootingTips ;;
            ret false
      end
  end.

Definition main : M unit :=
  p <- get port ;;
  lspRunning <- isPortOpen p ;;
  lspRunning <-
    (if negb lspRunning && N.eqb p 6005 then
       alt <- isPortOpen 6008 ;;
       (if alt then set_port 6008 else ret tt) ;;
       ret alt
     else if negb lspRunning && N.eqb p 6008 then
       alt <- isPortOpen 6005 ;;
       (if alt then set_port 6005 else ret tt) ;;
       ret alt
     else ret lspRunning) ;;
  (if negb lspRunning then
     launched <- launchGodotEditor ;;
     if negb launched then
       log FailedToStart ;;
       log PleaseStartManually ;;
       exit 1
     else ret tt
   else ret tt) ;;
  p <- get port ;;
  h <- ask host ;;
  emit (SocketConnect p h).

(** Its listeners: standard input is piped to the socket as it is. *)
Definition on_event (e : Event) : M unit :=
  match e with
  | SocketConnected =>
      h <- ask host ;;
      p <- get port ;;
      log (Connected h p) ;;
      emit PipeStdin ;;
      set_piped
  | SocketData bytes => emit (StdoutWrite bytes)
  | SocketError =>
      log SocketErrorMessage ;;
      exit 1
  | SocketClosed => exit 0
  | StdinData chunk =>
      flowing <- get piped ;;
      if flowing then emit (SocketWrite chunk) else ret tt
  | Signalled _ => on_signal
  end.

Fixpoint react (events : list Event) : M unit :=
  match events with
  | [] => ret tt
  | e :: events' => on_event e ;; react events'
  end.

Definition session (w : World) (p : N) (events : list Event)
  : Outcome unit * State :=
  (catch_fatal main ;; react events) w (initial p).

End Legacy.

(** ** What a computation may emit *)

Module Invariant.
Import Bridge.

(** Every effect [m] adds to the trace satisfies [g]. *)
Definition emits_only (g : Effect -> bool) {A} (m : M A) : Prop :=
  forall (w : World) (st : State),
  exists es,
    effects (snd (m w st)) = effects st ++ es /\ forallb g es = true.

End Invariant.

(** ** The command line and the environment (the top of the script) *)

Module Cli.
Import JsString.
Local Open Scope N_scope.

(** A JavaScript number as far as the script meets one: [NaN], or a sign and
    a magnitude.  The magnitude is the integer the digits spell; a JS
    number is that integer up to 2^53 and the nearest double above. *)
Inductive Number := NaN | Num (negative : bool) (magnitude : N).

(** [parseInt(s, 10)]: leading white space is skipped, one sign is read,
    then the longest run of decimal digits; no digit gives [NaN]. *)
Definition parseInt (s : jsstring) : Number :=
  let s1 := trim_start s in
  let signed :=
    match s1 with
    | c :: r =>
        if c =? 45 then (true, r)
        else if c =? 43 then (false, r)
        else (false, s1)
    | [] => (false, [])
    end in
  match fst (span_digits (snd signed)) with
  | [] => NaN
  | d => Num (fst signed) (parse_int d)
  end.

(** The four module-level variables the command line can set. *)
Record Config := mkConfig {
  port : Number;
  host : jsstring;
  godotPath : jsstring;
  projectPath : jsstring
}.

(** What the script reads of [process.env] and [process.cwd()]. *)
Record Env := mkEnv {
  GODOT_PATH : option jsstring;
  GODOT_PROJECT : option jsstring;
  OPENCODE_PROJECT_ROOT : option jsstring;
  cwd : jsstring
}.

(** [value || fallback] for a string that may be undefined: an empty string
    is falsy as well. *)
Definition or_else (value : option jsstring) (fallback : jsstring) : jsstring :=
  match value with
  | Some (c :: s) => c :: s
  | _ => fallback
  end.

Definition DEFAULT_HOST : jsstring :=
  Eval cbv in text (list_byte_of_string "127.0.0.1").
Definition GODOT : jsstring := Eval cbv in text (list_byte_of_string "godot").

(** The initial values of the variables. *)
Definition defaults (env : Env) : Config :=
  {| port := Num false 6005;
     host := DEFAULT_HOST;
     godotPath := or_else (GODOT_PATH env) GODOT;
     projectPath :=
       or_else (GODOT_PROJECT env)
               (or_else (OPENCODE_PROJECT_ROOT env) (cwd env)) |}.

(** The earlier script does not read [OPENCODE_PROJECT_ROOT]. *)
Definition legacy_defaults (env : Env) : Config :=
  {| port := Num false 6005;
     host := DEFAULT_HOST;
     godotPath := or_else (GODOT_PATH env) GODOT;
     projectPath := or_else (GODOT_PROJECT env) (cwd env) |}.

Definition PORT_FLAG : jsstring :=
  Eval cbv in text (list_byte_of_string "--port").
Definition HOST_FLAG : jsstring :=
  Eval cbv in text (list_byte_of_string "--host").
Definition GODOT_FLAG : jsstring :=
  Eval cbv in text (list_byte_of_string "--godot").
Definition PROJECT_FLAG : jsstring :=
  Eval cbv in text (list_byte_of_string "--project").

(** The loop over [args], from index [i] on ([args] is what is left from
    there): an option followed by a non-empty word takes the word and skips
    it; anything else is stepped over. *)
Fixpoint parseArgs (c : Config) (args : list jsstring) : Config :=
  match args with
  | [] => c
  | a :: rest =>
      match rest with
      | (_ :: _) as v :: rest' =>
          if same a PORT_FLAG then
            parseArgs {| port := parseInt v; host := host c;
                         godotPath := godotPath c;
                         projectPath := projectPath c |} rest'
          else if same a HOST_FLAG then
            parseArgs {| port := port c; host := v;
                         godotPath := godotPath c;
                         projectPath := projectPath c |} rest'
          else if same a GODOT_FLAG then
            parseArgs {| port := port c; host := host c;
                         godotPath := v;
                         projectPath := projectPath c |} rest'
          else if same a PROJECT_FLAG then
            parseArgs {| port := port c; host := host c;
                         godotPath := godotPath c;
                         projectPath := v |} rest'
          else parseArgs c rest
      | _ => parseArgs c rest
      end
  end.

Definition is_flag (a : jsstring) : bool :=
  same a PORT_FLAG || same a HOST_FLAG || same a GODOT_FLAG
  || same a PROJECT_FLAG.

(** The loop ends on an option that still waits for its word. *)
Fixpoint dangling (args : list jsstring) : bool :=
  match args with
  | [] => false
  | a :: rest =>
      match rest with
      | [] => is_flag a
      | (_ :: _) as v :: rest' =>
          if is_flag a then dangling rest' else dangling rest
      | [] :: _ => dangling rest
      end
  end.

End Cli.

(** ** Finding the executable and the project ([findGodot],
     [findProjectFile]) *)

Module Discovery.
Import JsString.
Local Open Scope N_scope.

(** The machine as the two searches see it: the platform, the file system,
    the commands run through [execSync] (with [encoding: 'utf8']; [None]
    when the call throws), and the two functions of the [path] module. *)
Record Host := mkHost {
  isWindows : bool;
  existsSync : jsstring -> bool;
  execSync : jsstring -> option jsstring;
  join : jsstring -> jsstring -> jsstring;
  dirname : jsstring -> jsstring
}.

Definition BACKSLASH : list byte := [x5c].

Definition WINGET_LINK : jsstring :=
  Eval cbv in
    text (list_byte_of_string "C:" ++ BACKSLASH
          ++ list_byte_of_string "Users" ++ BACKSLASH
          ++ list_byte_of_string "Administrator" ++ BACKSLASH
          ++ list_byte_of_string "AppData" ++ BACKSLASH
          ++ list_byte_of_string "Local" ++ BACKSLASH
          ++ list_byte_of_string "Microsoft" ++ BACKSLASH
          ++ list_byte_of_string "WinGet" ++ BACKSLASH
          ++ list_byte_of_string "Links" ++ BACKSLASH
          ++ list_byte_of_string "godot.exe").
Definition PROGRAM_FILES : jsstring :=
  Eval cbv in
    text (list_byte_of_string "C:" ++ BACKSLASH
          ++ list_byte_of_string "Program Files" ++ BACKSLASH
          ++ list_byte_of_string "Godot" ++ BACKSLASH
          ++ list_byte_of_string "godot.exe").
Definition PROGRAM_FILES_X86 : jsstring :=
  Eval cbv in
    text (list_byte_of_string "C:" ++ BACKSLASH
          ++ list_byte_of_string "Program Files (x86)" ++ BACKSLASH
          ++ list_byte_of_string "Godot" ++ BACKSLASH
          ++ list_byte_of_string "godot.exe").

(** The candidates, the configured path first. *)
Definition godotPaths (godotPath : jsstring) : list jsstring :=
  [godotPath; WINGET_LINK; PROGRAM_FILES; PROGRAM_FILES_X86].

Definition WHERE_GODOT : jsstring :=
  Eval cbv in text (list_byte_of_string "where godot").
Definition WHICH : jsstring :=
  Eval cbv in text (list_byte_of_string "which ").
Definition WHICH_GODOT : jsstring := Eval cbv in WHICH ++ Cli.GODOT.
Definition GODOT4 : jsstring := Eval cbv in text (list_byte_of_string "godot4").
Definition GODOT_EDITOR : jsstring :=
  Eval cbv in text (list_byte_of_string "godot-editor").

(** "Try to find in PATH": the first line of the trimmed output, trimmed
    again, when that line is not empty. *)
Definition lookup (h : Host) : option jsstring :=
  match execSync h (if isWindows h then WHERE_GODOT else WHICH_GODOT) with
  | Some result =>
      match first_line (trim result) with
      | [] => None
      | line => Some (trim line)
      end
  | None => None
  end.

(** "Fallback variations": the first name [which] knows gives the first
    line of its trimmed output, whatever that line is. *)
Fixpoint variations (h : Host) (names : list jsstring) : option jsstring :=
  match names with
  | [] => None
  | v :: names' =>
      match execSync h (WHICH ++ v) with
      | Some result => Some (first_line (trim result))
      | None => variations h names'
      end
  end.

(** [findGodot()]; JavaScript's [null] is [None]. *)
Definition findGodot (h : Host) (godotPath : jsstring) : option jsstring :=
  match find (existsSync h) (godotPaths godotPath) with
  | Some p => Some p
  | None =>
      match lookup h with
      | Some p => Some p
      | None =>
          if isWindows h then None
          else variations h [GODOT4; GODOT_EDITOR]
      end
  end.

(** [!godot] in [launchGodotEditor]: [null] and the empty string both count
    as not found. *)
Definition found (godot : option jsstring) : bool :=
  match godot with
  | Some (_ :: _) => true
  | _ => false
  end.

Definition PROJECT_GODOT : jsstring :=
  Eval cbv in text (list_byte_of_string "project.godot").

(** The loop of [findProjectFile] with [n] turns left. *)
Fixpoint climb (h : Host) (n : nat) (current : jsstring) : option jsstring :=
  match n with
  | O => None
  | S n' =>
      if existsSync h (join h current PROJECT_GODOT) then Some current
      else
        let parent := dirname h current in
        if same parent current then None else climb h n' parent
  end.

(** [findProjectFile(dir)]. *)
Definition findProjectFile (h : Host) (dir : jsstring) : option jsstring :=
  climb h 10 dir.

(** The directory [k] levels above [dir]. *)
Definition ancestor (h : Host) (k : nat) (dir : jsstring) : jsstring :=
  Nat.iter k (dirname h) dir.

Definition has_project (h : Host) (dir : jsstring) : bool :=
  existsSync h (join h dir PROJECT_GODOT).

End Discovery.

(** ** Sample frames, chunkings and environments *)

Module Examples.
Import JsString Utf8 Interceptor Frame.

Definition CONTENT_TYPE : list byte :=
  Eval cbv in
    list_byte_of_string "Content-Type: application/vscode-jsonrpc; charset=utf-8".

(** An untargeted frame, [{}] behind its length declaration. *)
Definition plain : Frame := mkFrame [] [] [x7b; x7d].

(** A frame without a body. *)
Definition empty : Frame := mkFrame [] [] [].

(** A targeted frame with a header line before and one after the
    declaration; its body is the pair in braces, twice, around a
    two-byte character. *)
Definition opened : Frame :=
  mkFrame [CONTENT_TYPE] [list_byte_of_string "X-Trace: 1"]
          ([x7b] ++ LANGUAGE_ID_PLAINTEXT ++ [x2c; xc3; xa9; x2c]
             ++ LANGUAGE_ID_PLAINTEXT ++ [x7d]).

(** A body in which two occurrences of the pair share a quote. *)
Definition overlapping : Frame :=
  mkFrame [] [] (LANGUAGE_ID_PLAINTEXT ++ tl LANGUAGE_ID_PLAINTEXT).

(** A body in which three occurrences of the pair share two quotes. *)
Definition chained : Frame :=
  mkFrame [] []
          (LANGUAGE_ID_PLAINTEXT ++ tl LANGUAGE_ID_PLAINTEXT
             ++ tl LANGUAGE_ID_PLAINTEXT).

Definition X_CONTENT_LENGTH_5 : list byte :=
  Eval cbv in list_byte_of_string "X-Content-Length: 5".

(** An untargeted frame, and one without body, behind a header field whose
    name ends in [Content-Length]. *)
Definition suffixed : Frame := mkFrame [X_CONTENT_LENGTH_5] [] [x7b; x7d].
Definition hollow : Frame := mkFrame [X_CONTENT_LENGTH_5] [] [].

(** A targeted frame behind such a field, whose value goes on after its
    digit. *)
Definition masked : Frame :=
  mkFrame [X_CONTENT_LENGTH_5 ++ list_byte_of_string "abc"] []
          LANGUAGE_ID_PLAINTEXT.

Definition X_NAME : list byte := Eval cbv in list_byte_of_string "X-Name: ".

(** Targeted frames behind a header field that is not ASCII: an e with
    acute accent in UTF-8 (two bytes), and in Latin-1 (one byte, which is
    no UTF-8); and an untargeted frame behind the first of these fields. *)
Definition accented : Frame :=
  mkFrame [X_NAME ++ [xc3; xa9]] [] LANGUAGE_ID_PLAINTEXT.
Definition latin : Frame :=
  mkFrame [X_NAME ++ [xe9]] [] LANGUAGE_ID_PLAINTEXT.
Definition noted : Frame := mkFrame [X_NAME ++ [xc3; xa9]] [] [x7b; x7d].

(** The stream of three frames cut inside a header, inside a body and
    inside the blank line. *)
Definition three : list Frame := [opened; empty; plain].

Definition cut : list Buffer :=
  let s := stream three in
  [firstn 30 s; firstn 59 (skipn 30 s); firstn 41 (skipn 89 s); [];
   firstn 40 (skipn 130 s); firstn 1 (skipn 170 s); skipn 171 s].

(** A Windows machine on which nothing listens until the spawned editor
    answers the second polling attempt, and on which [taskkill] fails. *)
Definition stubborn : Bridge.World :=
  {| Bridge.platform := Bridge.Win32;
     Bridge.display := true;
     Bridge.xvfb_run := false;
     Bridge.findGodot := Some "C:/Godot/godot.exe"%string;
     Bridge.findProjectFile := Some "C:/game"%string;
     Bridge.host := "127.0.0.1"%string;
     Bridge.network :=
       fun k _ => if Nat.leb 2 k then Prober.Accepts 3 else Prober.Refuses 1;
     Bridge.child_pid := 4242%N;
     Bridge.kill_throws := true |}.

(** A Linux machine without display where the editor already listens on
    the alternate default port. *)
Definition attached : Bridge.World :=
  {| Bridge.platform := Bridge.LinuxOS;
     Bridge.display := false;
     Bridge.xvfb_run := true;
     Bridge.findGodot := Some "/usr/bin/godot"%string;
     Bridge.findProjectFile := Some "/home/dev/game"%string;
     Bridge.host := "127.0.0.1"%string;
     Bridge.network :=
       fun _ p => if N.eqb p 6008 then Prober.Accepts 2 else Prober.Refuses 1;
     Bridge.child_pid := 77%N;
     Bridge.kill_throws := false |}.

(** A machine without Godot on which nothing listens. *)
Definition bare : Bridge.World :=
  {| Bridge.platform := Bridge.Darwin;
     Bridge.display := true;
     Bridge.xvfb_run := false;
     Bridge.findGodot := None;
     Bridge.findProjectFile := Some "/Users/dev/game"%string;
     Bridge.host := "127.0.0.1"%string;
     Bridge.network := fun _ _ => Prober.Silent;
     Bridge.child_pid := 1%N;
     Bridge.kill_throws := false |}.

(** A Linux machine with Godot and a project on which no port ever
    answers. *)
Definition unresponsive : Bridge.World :=
  {| Bridge.platform := Bridge.LinuxOS;
     Bridge.display := true;
     Bridge.xvfb_run := false;
     Bridge.findGodot := Some "/usr/bin/godot"%string;
     Bridge.findProjectFile := Some "/home/dev/game"%string;
     Bridge.host := "127.0.0.1"%string;
     Bridge.network := fun _ _ => Prober.Refuses 1;
     Bridge.child_pid := 512%N;
     Bridge.kill_throws := false |}.

(** Messages in both directions once the socket is connected. *)
Definition traffic : list Bridge.Event :=
  [Bridge.StdinData (firstn 30 (stream three));
   Bridge.SocketData [x7b; x7d];
   Bridge.StdinData (skipn 30 (stream three));
   Bridge.SocketData [x5b; x5d]].

(** [path.dirname] and [path.join] as they act on absolute paths without a
    trailing slash: the path without its last segment, [/] at the top. *)
Definition SLASH : N := 47.

Fixpoint drop_segment (reversed : jsstring) : jsstring :=
  match reversed with
  | [] => []
  | c :: r => if N.eqb c SLASH then r else drop_segment r
  end.

Definition parent_directory (path : jsstring) : jsstring :=
  match rev (drop_segment (rev path)) with
  | [] => [SLASH]
  | d => d
  end.

Definition under (dir name : jsstring) : jsstring :=
  if same dir [SLASH] then dir ++ name else dir ++ [SLASH] ++ name.

(** A directory ten levels below the root. *)
Definition deep : jsstring :=
  Eval cbv in text (list_byte_of_string "/a/b/c/d/e/f/g/h/i/j").

(** A Linux machine whose only project file is [/project.godot], with no
    Godot at the listed paths, and on which [which godot] prints two
    paths, the first between blanks. *)
Definition workstation : Discovery.Host :=
  {| Discovery.isWindows := false;
     Discovery.existsSync :=
       fun p => same p (SLASH :: Discovery.PROJECT_GODOT);
     Discovery.execSync :=
       fun command =>
         if same command Discovery.WHICH_GODOT
         then Some (text (list_byte_of_string "  /usr/local/bin/godot "
                          ++ [x0a] ++ list_byte_of_string "/usr/bin/godot"
                          ++ [x0a]))
         else None;
     Discovery.join := under;
     Discovery.dirname := parent_directory |}.

(** A Windows machine on which [where godot] prints two lines that end in
    a carriage return and a line feed. *)
Definition desktop : Discovery.Host :=
  {| Discovery.isWindows := true;
     Discovery.existsSync := fun _ => false;
     Discovery.execSync :=
       fun command =>
         if same command Discovery.WHERE_GODOT
         then Some (text (list_byte_of_string "C:/Tools/godot.exe"
                          ++ [x0d; x0a] ++ list_byte_of_string "D:/Old/godot.exe"
                          ++ [x0d; x0a]))
         else None;
     Discovery.join := under;
     Discovery.dirname := parent_directory |}.

(** A Linux machine with Godot outside the search path. *)
Definition OPT_GODOT : jsstring :=
  Eval cbv in text (list_byte_of_string "/opt/godot/godot").

Definition kiosk : Discovery.Host :=
  {| Discovery.isWindows := false;
     Discovery.existsSync := fun p => same p OPT_GODOT;
     Discovery.execSync := fun _ => None;
     Discovery.join := under;
     Discovery.dirname := parent_directory |}.

(** A Linux machine on which [which godot] fails, [which godot4] prints a
    blank line and [which godot-editor] prints a path. *)
Definition USR_BIN_GODOT_EDITOR : jsstring :=
  Eval cbv in text (list_byte_of_string "/usr/bin/godot-editor").

Definition shadowed : Discovery.Host :=
  {| Discovery.isWindows := false;
     Discovery.existsSync := fun _ => false;
     Discovery.execSync :=
       fun command =>
         if same command (Discovery.WHICH ++ Discovery.GODOT4)
         then Some [10]%N
         else if same command (Discovery.WHICH ++ Discovery.GODOT_EDITOR)
              then Some (USR_BIN_GODOT_EDITOR ++ [10]%N)
              else None;
     Discovery.join := under;
     Discovery.dirname := parent_directory |}.

End Examples.

(** * Properties *)

(** ** JavaScript strings *)

Section JsStringFacts.
Import JsString.
Local Open Scope N_scope.

Lemma starts_with_app (pat s : jsstring) : starts_with pat (pat ++ s) = true.
Proof.
  induction pat as [|p pat IH]; simpl; [reflexivity|].
  now rewrite N.eqb_refl, IH.
Qed.

Lemma starts_with_split (pat s : jsstring) :
  starts_with pat s = true -> exists r, s = pat ++ r.
Proof.
  revert s; induction pat as [|p pat IH]; intros s H; simpl in *.
  - now exists s.
  - destruct s as [|c s]; [discriminate|].
    apply andb_true_iff in H as [Hpc H].
    apply N.eqb_eq in Hpc; subst c.
    destruct (IH _ H) as [r ->]. now exists r.
Qed.

Lemma starts_with_length (pat s : jsstring) :
  starts_with pat s = true -> (length pat <= length s)%nat.
Proof.
  intros H. destruct (starts_with_split _ _ H) as [r ->].
  rewrite length_app. lia.
Qed.

(** A match that fits in the first part of a text is a match of that part. *)
Lemma starts_with_fits (pat a b : jsstring) :
  starts_with pat (a ++ b) = true -> (length pat <= length a)%nat ->
  starts_with pat a = true.
Proof.
  revert a; induction pat as [|p pat IH]; intros a H L; simpl in *.
  - reflexivity.
  - destruct a as [|c a]; simpl in *; [lia|].
    apply andb_true_iff in H as [Hpc H]. rewrite Hpc. simpl.
    apply IH; [assumption|lia].
Qed.

Lemma starts_with_extend (pat a b : jsstring) :
  starts_with pat a = true -> starts_with pat (a ++ b) = true.
Proof.
  intros H. destruct (starts_with_split _ _ H) as [r ->].
  rewrite <- app_assoc. apply starts_with_app.
Qed.

(** A literal free of [c] cannot reach across an occurrence of [c]. *)
Lemma starts_with_before (c : N) (pat a b : jsstring) :
  forallb (fun p => negb (p =? c)) pat = true ->
  starts_with pat (a ++ c :: b) = true -> starts_with pat a = true.
Proof.
  revert a; induction pat as [|p pat IH]; intros a F H; simpl in *.
  - reflexivity.
  - apply andb_true_iff in F as [Fp F].
    destruct a as [|x a]; simpl in *.
    + apply andb_true_iff in H as [Hpc _]. rewrite Hpc in Fp. discriminate.
    + apply andb_true_iff in H as [Hpx H]. rewrite Hpx. simpl. now apply IH.
Qed.

Lemma strip_prefix_app (pat s : jsstring) : strip_prefix pat (pat ++ s) = Some s.
Proof.
  induction pat as [|p pat IH]; simpl; [reflexivity|].
  now rewrite N.eqb_refl.
Qed.

Lemma strip_prefix_none (pat s : jsstring) :
  starts_with pat s = false -> strip_prefix pat s = None.
Proof.
  revert s; induction pat as [|p pat IH]; intros s H; simpl in *.
  - discriminate.
  - destruct s as [|c s]; [reflexivity|].
    destruct (p =? c); simpl in *; [now apply IH|reflexivity].
Qed.

(** *** [indexOf] and [includes] *)

Lemma index_of_cons (pat : jsstring) (c : N) (s : jsstring) :
  index_of pat (c :: s) =
  if starts_with pat (c :: s) then Some O else option_map S (index_of pat s).
Proof. reflexivity. Qed.

Lemma index_of_bound (pat s : jsstring) (k : nat) :
  index_of pat s = Some k -> (k + length pat <= length s)%nat.
Proof.
  revert k; induction s as [|c s IH]; intros k H.
  - simpl in H. destruct (starts_with pat []) eqn:E; [|discriminate].
    injection H as <-. apply starts_with_length in E. simpl in *. lia.
  - rewrite index_of_cons in H.
    destruct (starts_with pat (c :: s)) eqn:E.
    + injection H as <-. apply starts_with_length in E. simpl in *. lia.
    + destruct (index_of pat s) as [j|]; [|discriminate].
      injection H as <-. specialize (IH j eq_refl). simpl. lia.
Qed.

(** The first occurrence in a text stays the first when the text grows. *)
Lemma index_of_extend (pat a b : jsstring) (k : nat) :
  index_of pat a = Some k -> index_of pat (a ++ b) = Some k.
Proof.
  revert k; induction a as [|c a IH]; intros k H.
  - simpl in H. destruct (starts_with pat []) eqn:E; [|discriminate].
    injection H as <-.
    destruct pat; [|discriminate]. destruct b; reflexivity.
  - simpl app. rewrite index_of_cons in *.
    destruct (starts_with pat (c :: a)) eqn:E.
    + injection H as <-.
      pose proof (starts_with_extend pat (c :: a) b E) as E'.
      simpl app in E'. now rewrite E'.
    + destruct (index_of pat a) as [j|] eqn:Ej; [|discriminate].
      injection H as <-.
      destruct (starts_with pat (c :: a ++ b)) eqn:E'.
      * apply index_of_bound in Ej.
        assert (starts_with pat (c :: a) = true).
        { apply (starts_with_fits pat (c :: a) b); [exact E'|simpl; lia]. }
        congruence.
      * now rewrite (IH j eq_refl).
Qed.

Lemma includes_cons (pat : jsstring) (c : N) (s : jsstring) :
  includes pat (c :: s) = false ->
  starts_with pat (c :: s) = false /\ includes pat s = false.
Proof.
  unfold includes. rewrite index_of_cons.
  destruct (starts_with pat (c :: s)); [discriminate|].
  destruct (index_of pat s); [discriminate|]. now split.
Qed.

(** [includes] is the substring relation. *)
Lemma includes_spec (pat s : jsstring) :
  includes pat s = true <-> exists l r, s = l ++ pat ++ r.
Proof.
  unfold includes. split.
  - induction s as [|c s IH]; intros H.
    + simpl in H. destruct (starts_with pat []) eqn:E; [|discriminate].
      destruct (starts_with_split _ _ E) as [r Hr]. now exists [], r.
    + rewrite index_of_cons in H.
      destruct (starts_with pat (c :: s)) eqn:E.
      * destruct (starts_with_split _ _ E) as [r Hr]. now exists [], r.
      * destruct (index_of pat s); [|discriminate].
        destruct (IH eq_refl) as (l & r & ->). now exists (c :: l), r.
  - intros (l & r & ->). induction l as [|c l IH].
    + simpl. destruct (pat ++ r) eqn:E.
      * destruct pat; [reflexivity|discriminate].
      * rewrite index_of_cons, <- E, starts_with_app. reflexivity.
    + simpl app. rewrite index_of_cons.
      destruct (starts_with pat (c :: l ++ pat ++ r)); [reflexivity|].
      destruct (index_of pat (l ++ pat ++ r)); [reflexivity|discriminate].
Qed.

(** *** Global replacement *)

Lemma replace_all_from_skip (pat rep x t : jsstring) :
  replace_all_from (length x) pat rep (x ++ t) = replace_all_from O pat rep t.
Proof. induction x as [|c x IH]; simpl; [reflexivity|exact IH]. Qed.

Lemma replace_all_match (pat rep t : jsstring) :
  pat <> [] -> replace_all pat rep (pat ++ t) = rep ++ replace_all pat rep t.
Proof.
  intros Hne. unfold replace_all. destruct pat as [|p pat]; [congruence|].
  change ((p :: pat) ++ t) with (p :: pat ++ t).
  cbn [replace_all_from].
  change (p :: pat ++ t) with ((p :: pat) ++ t).
  rewrite starts_with_app. f_equal.
  change (pred (length (p :: pat))) with (length pat).
  apply replace_all_from_skip.
Qed.

Lemma replace_all_absent (pat rep s : jsstring) :
  includes pat s = false -> replace_all pat rep s = s.
Proof.
  unfold replace_all. induction s as [|c s IH]; intros H; [reflexivity|].
  apply includes_cons in H as [H1 H2].
  cbn [replace_all_from]. rewrite H1. f_equal. now apply IH.
Qed.

(** Up to the first occurrence nothing changes; the occurrence is replaced
    and the scan resumes after it. *)
Lemma replace_all_segment (pat rep s t : jsstring) :
  pat <> [] -> includes pat (s ++ removelast pat) = false ->
  replace_all pat rep (s ++ pat ++ t) = s ++ rep ++ replace_all pat rep t.
Proof.
  intros Hne. induction s as [|c s IH]; intros H.
  - simpl app. now apply replace_all_match.
  - simpl app in *. apply includes_cons in H as [H1 H2].
    unfold replace_all in *. cbn [replace_all_from].
    assert (X : pat ++ t = removelast pat ++ last pat 0 :: t).
    { rewrite (app_removelast_last 0 Hne) at 1.
      rewrite <- app_assoc. reflexivity. }
    assert (L : length pat = S (length (removelast pat))).
    { rewrite (app_removelast_last 0 Hne) at 1.
      rewrite length_app. simpl. lia. }
    assert (E : starts_with pat (c :: s ++ pat ++ t) = false).
    { destruct (starts_with pat (c :: s ++ pat ++ t)) eqn:E; [|reflexivity].
      rewrite <- H1. symmetry. rewrite X in E.
      apply (starts_with_fits pat (c :: s ++ removelast pat) (last pat 0 :: t)).
      - simpl app. rewrite <- app_assoc. exact E.
      - simpl. rewrite length_app. lia. }
    rewrite E. f_equal. now apply IH.
Qed.

(** *** Decimal numerals *)

Lemma parse_int_snoc (s : jsstring) (c : N) :
  parse_int (s ++ [c]) = 10 * parse_int s + (c - 48).
Proof. unfold parse_int. now rewrite fold_left_app. Qed.

Lemma digits_fuel_value (fuel : nat) (n : N) :
  n < 10 ^ N.of_nat fuel -> parse_int (digits_fuel fuel n) = n.
Proof.
  revert n; induction fuel as [|fuel IH]; intros n H.
  - simpl in *. assert (n = 0) by lia. now subst.
  - cbn [digits_fuel]. rewrite parse_int_snoc.
    destruct (N.ltb_spec n 10) as [L|L].
    + change (parse_int []) with 0. rewrite N.mod_small by assumption. lia.
    + rewrite IH.
      * pose proof (N.div_mod n 10 ltac:(lia)) as Hd. revert Hd.
        generalize (n / 10) (n mod 10). intros q r Hd. lia.
      * apply N.Div0.div_lt_upper_bound.
        rewrite Nat2N.inj_succ, N.pow_succ_r' in H. exact H.
Qed.

Lemma to_string_fuel (n : N) : n < 10 ^ N.of_nat (S (N.to_nat (N.log2 n))).
Proof.
  rewrite Nat2N.inj_succ, N2Nat.id.
  destruct (N.eq_dec n 0) as [->|Hn]; [cbn; lia|].
  apply N.lt_le_trans with (2 ^ N.succ (N.log2 n)).
  - apply N.log2_lt_pow2; lia.
  - apply N.pow_le_mono_l. lia.
Qed.

(** Printing a number and reading it back gives the number. *)
Lemma parse_int_to_string (n : N) : parse_int (to_string n) = n.
Proof. apply digits_fuel_value, to_string_fuel. Qed.

Lemma digits_fuel_digits (fuel : nat) (n : N) :
  forallb is_digit (digits_fuel fuel n) = true.
Proof.
  revert n; induction fuel as [|fuel IH]; intros n; [reflexivity|].
  cbn [digits_fuel]. rewrite forallb_app. apply andb_true_iff. split.
  - destruct (n <? 10); [reflexivity|apply IH].
  - cbn [forallb]. rewrite andb_true_r. unfold is_digit.
    pose proof (N.mod_upper_bound n 10 ltac:(lia)) as Hm. revert Hm.
    generalize (n mod 10). intros r Hm.
    apply andb_true_iff. split; apply N.leb_le; lia.
Qed.

Lemma to_string_digits (n : N) : forallb is_digit (to_string n) = true.
Proof. apply digits_fuel_digits. Qed.

Lemma to_string_nonempty (n : N) : to_string n <> [].
Proof.
  unfold to_string. cbn [digits_fuel].
  intros H. apply app_eq_nil in H as [_ H]. discriminate.
Qed.

Lemma span_digits_run (d r : jsstring) :
  forallb is_digit d = true ->
  match r with [] => True | c :: _ => is_digit c = false end ->
  span_digits (d ++ r) = (d, r).
Proof.
  intros Hd Hr. induction d as [|c d IH]; cbn [app span_digits forallb] in *.
  - destruct r as [|c r]; [reflexivity|]. cbn [span_digits]. now rewrite Hr.
  - apply andb_true_iff in Hd as [Hc Hd]. rewrite Hc, (IH Hd). reflexivity.
Qed.

End JsStringFacts.

(** ** UTF-8 on ASCII text *)

Section Utf8Facts.
Import JsString Utf8 Interceptor Frame.
Local Open Scope N_scope.

Lemma text_app (a b : list byte) : text (a ++ b) = text a ++ text b.
Proof. apply map_app. Qed.

Lemma text_length (a : list byte) : length (text a) = length a.
Proof. apply length_map. Qed.

Lemma is_ascii_app (a b : list byte) :
  is_ascii (a ++ b) = is_ascii a && is_ascii b.
Proof. apply forallb_app. Qed.

(** ASCII bytes decode to themselves, whatever follows them. *)
Lemma utf8_decode_ascii (a r : list byte) :
  is_ascii a = true -> utf8_decode (a ++ r) = text a ++ utf8_decode r.
Proof.
  induction a as [|b a IH]; intros H; [reflexivity|].
  cbn [is_ascii forallb] in H. apply andb_true_iff in H as [Hb Ha].
  simpl app. cbn [utf8_decode text map]. rewrite Hb. f_equal. now apply IH.
Qed.

Lemma utf8_decode_text (a : list byte) :
  is_ascii a = true -> utf8_decode a = text a.
Proof.
  intros H. rewrite <- (app_nil_r a) at 1.
  rewrite utf8_decode_ascii by assumption. simpl. apply app_nil_r.
Qed.

Lemma byte_of_N_to_N (b : byte) : byte_of_N (Byte.to_N b) = b.
Proof.
  unfold byte_of_N. pose proof (Byte.to_N_bounded b).
  rewrite N.mod_small by lia. now rewrite Byte.of_to_N.
Qed.

Lemma to_N_byte_of_N (n : N) : n < 256 -> Byte.to_N (byte_of_N n) = n.
Proof.
  intros H. unfold byte_of_N. rewrite N.mod_small by assumption.
  destruct (Byte.of_N n) as [b|] eqn:E.
  - now apply Byte.to_of_N.
  - apply Byte.of_N_None_iff in E. lia.
Qed.

(** ASCII text encodes to its own bytes. *)
Lemma utf8_encode_ascii (a : list byte) (s : jsstring) :
  is_ascii a = true -> utf8_encode (text a ++ s) = a ++ utf8_encode s.
Proof.
  induction a as [|b a IH]; intros H; [reflexivity|].
  cbn [is_ascii forallb] in H. apply andb_true_iff in H as [Hb Ha].
  cbn [text map app utf8_encode]. rewrite Hb, byte_of_N_to_N.
  simpl app. f_equal. now apply IH.
Qed.

Lemma utf8_encode_text (a : list byte) :
  is_ascii a = true -> utf8_encode (text a) = a.
Proof.
  intros H. rewrite <- (app_nil_r (text a)).
  rewrite utf8_encode_ascii by assumption. simpl. apply app_nil_r.
Qed.

Lemma is_digit_bound (c : N) : is_digit c = true -> 48 <= c <= 57.
Proof.
  unfold is_digit. intros H. apply andb_true_iff in H as [H1 H2].
  apply N.leb_le in H1, H2. lia.
Qed.

Lemma text_digits (d : jsstring) :
  forallb is_digit d = true -> text (map byte_of_N d) = d.
Proof.
  induction d as [|c d IH]; intros H; [reflexivity|].
  cbn [forallb] in H. apply andb_true_iff in H as [Hc Hd].
  apply is_digit_bound in Hc.
  cbn [map text]. rewrite to_N_byte_of_N by lia. f_equal. now apply IH.
Qed.

(** The digits of a byte count, as text. *)
Lemma text_decimal (n : nat) : text (decimal n) = to_string (N.of_nat n).
Proof. apply text_digits, to_string_digits. Qed.

Lemma decimal_header_bytes (n : nat) : forallb is_header_byte (decimal n) = true.
Proof.
  unfold decimal. generalize (to_string_digits (N.of_nat n)).
  generalize (to_string (N.of_nat n)).
  intros d; induction d as [|c d IH]; intros H; [reflexivity|].
  cbn [forallb] in H. apply andb_true_iff in H as [Hc Hd].
  apply is_digit_bound in Hc.
  cbn [map forallb]. rewrite (IH Hd), andb_true_r.
  unfold is_header_byte. rewrite to_N_byte_of_N by lia.
  assert (A : forall b, 48 <= Byte.to_N b <= 57 ->
              (Byte.to_N b <? 128) && negb (Byte.eqb b x0d)
              && negb (Byte.eqb b x0a) = true).
  { intros b Hb. destruct b; try reflexivity; exfalso;
      match type of Hb with
      | context [Byte.to_N ?x] =>
          let v := eval vm_compute in (Byte.to_N x) in
          change (Byte.to_N x) with v in Hb
      end; lia. }
  pose proof (A (byte_of_N c)) as A'.
  rewrite to_N_byte_of_N in A' by lia. apply A'. lia.
Qed.

Lemma decimal_nonempty (n : nat) : decimal n <> [].
Proof.
  unfold decimal. intros H. apply map_eq_nil in H.
  now apply to_string_nonempty in H.
Qed.

Lemma header_byte_ascii (l : list byte) :
  forallb is_header_byte l = true -> is_ascii l = true.
Proof.
  unfold is_ascii.
  induction l as [|b l IH]; intros H; [reflexivity|].
  cbn [forallb] in *. apply andb_true_iff in H as [Hb Hl].
  rewrite (IH Hl), andb_true_r.
  unfold is_header_byte in Hb.
  apply andb_true_iff in Hb as [Hb _]. now apply andb_true_iff in Hb as [Hb _].
Qed.

Lemma header_byte_not_cr (b : byte) :
  is_header_byte b = true -> (13 =? Byte.to_N b) = false.
Proof.
  unfold is_header_byte. intros H.
  apply andb_true_iff in H as [H _]. apply andb_true_iff in H as [_ H].
  destruct b; try reflexivity; discriminate.
Qed.

End Utf8Facts.

(** ** Reading a well-formed header *)

Ltac text_norm := repeat (rewrite text_app || rewrite <- app_assoc).

Section HeaderFacts.
Import JsString Utf8 Interceptor Frame.
Local Open Scope N_scope.

Lemma lines_cons (l : list byte) (ls : list (list byte)) :
  lines (l :: ls) = l ++ CRLF ++ lines ls.
Proof. unfold lines. simpl. now rewrite <- app_assoc. Qed.

Lemma lines_app (a b : list (list byte)) : lines (a ++ b) = lines a ++ lines b.
Proof. unfold lines. now rewrite map_app, concat_app. Qed.

Lemma lines_continuation (ls : list (list byte)) :
  CRLF ++ lines ls = continuation ls ++ CRLF.
Proof.
  induction ls as [|l ls IH]; [reflexivity|].
  rewrite lines_cons. unfold continuation in *. cbn [map concat].
  rewrite <- !app_assoc. do 2 f_equal. exact IH.
Qed.

(** The header block: the lines before the declaration, the declaration,
    what follows it, and the blank line. *)
Lemma header_shape (f : Frame) :
  header f =
  lines (leading f) ++ CONTENT_LENGTH ++ decimal (length (body f))
    ++ continuation (trailing f) ++ CRLFCRLF.
Proof.
  unfold header, CRLFCRLF. do 3 f_equal.
  rewrite !app_assoc. f_equal. apply lines_continuation.
Qed.

Lemma header_lines (f : Frame) :
  header f =
  lines (leading f ++ (CONTENT_LENGTH ++ decimal (length (body f)))
                   :: trailing f) ++ CRLF.
Proof.
  unfold header. rewrite lines_app, lines_cons.
  now rewrite <- !app_assoc.
Qed.

Lemma lines_length (ls : list (list byte)) :
  ls <> [] -> (2 <= length (lines ls))%nat.
Proof.
  destruct ls as [|l ls]; [congruence|]. intros _.
  rewrite lines_cons, !length_app. simpl. lia.
Qed.

(** *** The blank line *)

Lemma index_of_skip_line (l : list byte) (s : jsstring) :
  forallb is_header_byte l = true ->
  index_of (text CRLFCRLF) (text l ++ s)
  = option_map (Nat.add (length l)) (index_of (text CRLFCRLF) s).
Proof.
  induction l as [|b l IH]; intros H.
  - cbn [text map app length].
    now destruct (index_of (text CRLFCRLF) s).
  - cbn [forallb] in H. apply andb_true_iff in H as [Hb Hl].
    cbn [text map app]. rewrite index_of_cons.
    replace (starts_with (text CRLFCRLF) (Byte.to_N b :: map Byte.to_N l ++ s))
      with false.
    + fold (text l). rewrite (IH Hl).
      now destruct (index_of (text CRLFCRLF) s).
    + change (text CRLFCRLF) with [13; 10; 13; 10].
      cbn [starts_with]. now rewrite (header_byte_not_cr b Hb).
Qed.

Lemma index_of_line_break (c : N) (s : jsstring) :
  (13 =? c) = false ->
  index_of (text CRLFCRLF) (13 :: 10 :: c :: s)
  = option_map (Nat.add 2%nat) (index_of (text CRLFCRLF) (c :: s)).
Proof.
  intros H. rewrite !index_of_cons.
  change (text CRLFCRLF) with [13; 10; 13; 10].
  cbn [starts_with]. rewrite H.
  change (13 =? 13) with true. change (10 =? 10) with true.
  change (13 =? 10) with false. cbn [andb].
  now destruct (index_of [13; 10; 13; 10] s).
Qed.

Lemma index_of_blank_line (l : list byte) (s : jsstring) :
  forallb is_header_byte l = true ->
  index_of (text CRLFCRLF) (text l ++ text CRLFCRLF ++ s) = Some (length l).
Proof.
  intros H. rewrite index_of_skip_line by assumption.
  change (text CRLFCRLF ++ s) with (13 :: ([10; 13; 10] ++ s)).
  rewrite index_of_cons.
  change (13 :: [10; 13; 10] ++ s) with (text CRLFCRLF ++ s).
  rewrite starts_with_app. simpl. f_equal. lia.
Qed.

Lemma header_line_parts (l : list byte) :
  is_header_line l = true -> l <> [] /\ forallb is_header_byte l = true.
Proof.
  unfold is_header_line. intros H. apply andb_true_iff in H as [H1 H2].
  split; [|assumption]. intros ->. discriminate.
Qed.

(** In a block of header lines closed by a blank line, the first blank line
    is the closing one. *)
Lemma index_of_lines (ls : list (list byte)) (s : jsstring) :
  ls <> [] -> forallb is_header_line ls = true ->
  index_of (text CRLFCRLF) (text (lines ls ++ CRLF) ++ s)
  = Some (length (lines ls) - 2)%nat.
Proof.
  induction ls as [|l ls IH]; [congruence|]. intros _ H.
  cbn [forallb] in H. apply andb_true_iff in H as [Hl Hls].
  apply header_line_parts in Hl as [_ Hl].
  destruct ls as [|l2 ls].
  - rewrite lines_cons. change (lines []) with (@nil byte).
    rewrite app_nil_r. text_norm.
    change (text CRLF ++ text CRLF ++ s) with (text CRLFCRLF ++ s).
    rewrite index_of_blank_line by assumption.
    f_equal. rewrite length_app. simpl. lia.
  - assert (Hne : l2 :: ls <> []) by congruence.
    specialize (IH Hne Hls).
    pose proof (lines_length (l2 :: ls) Hne) as L2.
    cbn [forallb] in Hls. apply andb_true_iff in Hls as [Hl2 _].
    apply header_line_parts in Hl2 as [Hl2ne Hl2].
    destruct l2 as [|b l2]; [congruence|].
    cbn [forallb] in Hl2. apply andb_true_iff in Hl2 as [Hb _].
    rewrite (lines_cons l).
    remember (lines ((b :: l2) :: ls)) as whole eqn:Ew.
    assert (exists rest, whole = b :: rest) as [rest Er].
    { subst whole. rewrite lines_cons. eexists. reflexivity. }
    clear Ew. subst whole.
    revert IH. text_norm. intros IH.
    rewrite index_of_skip_line by assumption.
    change (text CRLF ++ text (b :: rest) ++ text CRLF ++ s)
      with (13 :: 10 :: Byte.to_N b :: (text rest ++ text CRLF ++ s)).
    rewrite index_of_line_break by now apply header_byte_not_cr.
    change (Byte.to_N b :: text rest ++ text CRLF ++ s)
      with (text (b :: rest) ++ text CRLF ++ s).
    rewrite IH. cbn [option_map]. f_equal.
    rewrite !length_app. change (length CRLF) with 2%nat.
    cbn [length] in *. lia.
Qed.

End HeaderFacts.

(** ** Finding and replacing the length declaration *)

Section DeclarationFacts.
Import JsString Utf8 Interceptor Frame.
Local Open Scope N_scope.

Lemma match_content_length_eq (str : jsstring) :
  match_content_length str =
  match content_length_line_at str with
  | Some d => Some d
  | None =>
      match str with
      | [] => None
      | _ :: str' => match_content_length str'
      end
  end.
Proof. destruct str; reflexivity. Qed.

Lemma replace_content_length_eq (headers : jsstring) (n : N) :
  replace_content_length headers n =
  match content_length_at headers with
  | Some (_, r) => text CONTENT_LENGTH ++ to_string n ++ r
  | None =>
      match headers with
      | [] => []
      | c :: headers' => c :: replace_content_length headers' n
      end
  end.
Proof. destruct headers; reflexivity. Qed.

Lemma content_length_at_none (s : jsstring) :
  starts_with (text CONTENT_LENGTH) s = false -> content_length_at s = None.
Proof.
  intros H. unfold content_length_at. now rewrite strip_prefix_none.
Qed.

Lemma content_length_line_at_none (s : jsstring) :
  starts_with (text CONTENT_LENGTH) s = false ->
  content_length_line_at s = None.
Proof.
  intros H. unfold content_length_line_at.
  now rewrite content_length_at_none.
Qed.

(** The literal holds no carriage return, so it cannot reach across a line
    break. *)
Lemma literal_in_line (l : list byte) (s : jsstring) :
  starts_with (text CONTENT_LENGTH) (text l) = false ->
  starts_with (text CONTENT_LENGTH) (text l ++ 13 :: s) = false.
Proof.
  intros H.
  destruct (starts_with (text CONTENT_LENGTH) (text l ++ 13 :: s)) eqn:E;
    [|reflexivity].
  apply starts_with_before in E; [congruence|reflexivity].
Qed.

Lemma mentions_length_cons (c : N) (s : jsstring) :
  mentions_length (c :: s) = false ->
  content_length_at (c :: s) = None /\ mentions_length s = false.
Proof.
  cbn [mentions_length].
  destruct (content_length_at (c :: s)); [discriminate|now split].
Qed.

(** Text without the literal holds no match of the pattern. *)
Lemma literal_absent (s : jsstring) :
  includes (text CONTENT_LENGTH) s = false -> mentions_length s = false.
Proof.
  induction s as [|c s IH]; intros H; [reflexivity|].
  apply includes_cons in H as [H1 H2].
  cbn [mentions_length]. rewrite content_length_at_none by assumption.
  now apply IH.
Qed.

(** Where the pattern does not match in a line, it does not match once the
    line break is there: the break is no digit. *)
Lemma content_length_at_in_line (l : list byte) (s : jsstring) :
  content_length_at (text l) = None ->
  content_length_at (text l ++ 13 :: s) = None.
Proof.
  intros H.
  destruct (starts_with (text CONTENT_LENGTH) (text l)) eqn:S.
  - destruct (starts_with_split _ _ S) as [r E]. rewrite E in *.
    rewrite <- app_assoc. unfold content_length_at in *.
    rewrite strip_prefix_app in *.
    destruct r as [|c r]; [reflexivity|].
    cbn [app span_digits] in *.
    destruct (is_digit c); [|reflexivity].
    now destruct (span_digits r).
  - apply content_length_at_none. now apply literal_in_line.
Qed.

(** A header line in which the pattern has no match is passed over by both
    patterns. *)
Lemma match_skip_line (l : list byte) (s : jsstring) :
  mentions_length (text l) = false ->
  match_content_length (text l ++ text CRLF ++ s) = match_content_length s.
Proof.
  induction l as [|b l IH]; intros H.
  - change (text [] ++ text CRLF ++ s) with (13 :: 10 :: s).
    rewrite match_content_length_eq.
    rewrite content_length_line_at_none by reflexivity.
    rewrite match_content_length_eq.
    now rewrite content_length_line_at_none by reflexivity.
  - cbn [text map] in H. apply mentions_length_cons in H as [H1 H2].
    change (text (b :: l) ++ text CRLF ++ s)
      with (text (b :: l) ++ 13 :: 10 :: s).
    rewrite match_content_length_eq. unfold content_length_line_at.
    rewrite (content_length_at_in_line (b :: l) (10 :: s) H1).
    now apply IH.
Qed.

Lemma replace_skip_line (l : list byte) (s : jsstring) (n : N) :
  mentions_length (text l) = false ->
  replace_content_length (text l ++ text CRLF ++ s) n
  = text l ++ text CRLF ++ replace_content_length s n.
Proof.
  induction l as [|b l IH]; intros H.
  - change (text [] ++ text CRLF ++ s) with (13 :: 10 :: s).
    rewrite replace_content_length_eq.
    rewrite content_length_at_none by reflexivity.
    rewrite replace_content_length_eq.
    now rewrite content_length_at_none by reflexivity.
  - cbn [text map] in H. apply mentions_length_cons in H as [H1 H2].
    change (text (b :: l) ++ text CRLF ++ s)
      with (text (b :: l) ++ 13 :: 10 :: s).
    rewrite replace_content_length_eq.
    rewrite (content_length_at_in_line (b :: l) (10 :: s) H1).
    cbn [text map app]. f_equal. now apply IH.
Qed.

Lemma match_skip_lines (ls : list (list byte)) (s : jsstring) :
  forallb (fun l => negb (mentions_length (text l))) ls = true ->
  match_content_length (text (lines ls) ++ s) = match_content_length s.
Proof.
  induction ls as [|l ls IH]; intros H; [reflexivity|].
  cbn [forallb] in H. apply andb_true_iff in H as [Hl Hls].
  apply negb_true_iff in Hl.
  rewrite lines_cons. text_norm. rewrite match_skip_line by assumption.
  now apply IH.
Qed.

Lemma replace_skip_lines (ls : list (list byte)) (s : jsstring) (n : N) :
  forallb (fun l => negb (mentions_length (text l))) ls = true ->
  replace_content_length (text (lines ls) ++ s) n
  = text (lines ls) ++ replace_content_length s n.
Proof.
  induction ls as [|l ls IH]; intros H; [reflexivity|].
  cbn [forallb] in H. apply andb_true_iff in H as [Hl Hls].
  apply negb_true_iff in Hl.
  rewrite lines_cons. text_norm. rewrite replace_skip_line by assumption.
  now rewrite IH.
Qed.

(** At the declaration both patterns match, with all its digits. *)
Lemma content_length_at_declaration (d r : jsstring) :
  d <> [] -> forallb is_digit d = true ->
  match r with [] => True | c :: _ => is_digit c = false end ->
  content_length_at (text CONTENT_LENGTH ++ d ++ r) = Some (d, r).
Proof.
  intros Hne Hd Hr. unfold content_length_at.
  rewrite strip_prefix_app, span_digits_run by assumption.
  destruct d; [congruence|reflexivity].
Qed.

Lemma match_declaration (n : N) (s : jsstring) :
  match_content_length (text CONTENT_LENGTH ++ to_string n ++ text CRLF ++ s)
  = Some (to_string n).
Proof.
  rewrite match_content_length_eq. unfold content_length_line_at.
  rewrite content_length_at_declaration.
  - reflexivity.
  - apply to_string_nonempty.
  - apply to_string_digits.
  - reflexivity.
Qed.

Lemma replace_declaration (n m : N) (r : jsstring) :
  match r with [] => True | c :: _ => is_digit c = false end ->
  replace_content_length (text CONTENT_LENGTH ++ to_string n ++ r) m
  = text CONTENT_LENGTH ++ to_string m ++ r.
Proof.
  intros Hr. rewrite replace_content_length_eq.
  rewrite content_length_at_declaration; try assumption.
  - reflexivity.
  - apply to_string_nonempty.
  - apply to_string_digits.
Qed.

Lemma continuation_head (ls : list (list byte)) :
  match text (continuation ls) with
  | [] => True
  | c :: _ => is_digit c = false
  end.
Proof. destruct ls as [|l ls]; [exact I|reflexivity]. Qed.

Lemma well_declared_parts (f : Frame) :
  well_declared f = true ->
  forallb is_header_line (leading f) = true
  /\ forallb is_header_line (trailing f) = true
  /\ forallb (fun l => negb (mentions_length (text l))) (leading f) = true.
Proof.
  unfold well_declared. intros H.
  apply andb_true_iff in H as [H H3]. apply andb_true_iff in H as [H1 H2].
  now repeat split.
Qed.

(** A valid frame is well declared. *)
Lemma valid_well_declared (f : Frame) :
  valid f = true -> well_declared f = true.
Proof.
  unfold valid, well_declared, without_literal. intros H.
  apply andb_true_iff in H as [H H3]. rewrite H. cbn [andb].
  rewrite forallb_forall in *. intros l Hl.
  specialize (H3 l Hl). apply negb_true_iff in H3.
  apply negb_true_iff. now apply literal_absent.
Qed.

Lemma declaration_line (n : nat) :
  is_header_line (CONTENT_LENGTH ++ decimal n) = true.
Proof.
  unfold is_header_line. apply andb_true_iff. split.
  - reflexivity.
  - rewrite forallb_app, decimal_header_bytes. reflexivity.
Qed.

Lemma lines_header_bytes (ls : list (list byte)) :
  forallb is_header_line ls = true -> is_ascii (lines ls) = true.
Proof.
  induction ls as [|l ls IH]; intros H; [reflexivity|].
  cbn [forallb] in H. apply andb_true_iff in H as [Hl Hls].
  apply header_line_parts in Hl as [_ Hl].
  rewrite lines_cons, !is_ascii_app, (header_byte_ascii l Hl), (IH Hls).
  reflexivity.
Qed.

Lemma continuation_ascii (ls : list (list byte)) :
  forallb is_header_line ls = true -> is_ascii (continuation ls) = true.
Proof.
  induction ls as [|l ls IH]; intros H; [reflexivity|].
  cbn [forallb] in H. apply andb_true_iff in H as [Hl Hls].
  apply header_line_parts in Hl as [_ Hl].
  unfold continuation in *. cbn [map concat].
  rewrite !is_ascii_app, (header_byte_ascii l Hl), (IH Hls).
  reflexivity.
Qed.

Lemma header_ascii (f : Frame) : well_declared f = true -> is_ascii (header f) = true.
Proof.
  intros H. apply well_declared_parts in H as (H1 & H2 & _).
  unfold header. rewrite !is_ascii_app.
  rewrite (lines_header_bytes _ H1), (lines_header_bytes _ H2).
  rewrite (header_byte_ascii _ (decimal_header_bytes _)).
  reflexivity.
Qed.

(** How the interceptor reads the header of such a frame, whatever bytes
    come after it: the declared length, and where the header ends. *)
Lemma header_declared (f : Frame) (s : jsstring) :
  well_declared f = true ->
  match_content_length (text (header f) ++ s)
  = Some (to_string (N.of_nat (length (body f)))).
Proof.
  intros H. apply well_declared_parts in H as (_ & _ & H3).
  unfold header. text_norm.
  rewrite match_skip_lines by assumption.
  rewrite text_decimal. apply match_declaration.
Qed.

Lemma header_end (f : Frame) (s : jsstring) :
  well_declared f = true ->
  index_of (text CRLFCRLF) (text (header f) ++ s)
  = Some (length (header f) - 4)%nat.
Proof.
  intros H. apply well_declared_parts in H as (H1 & H2 & _).
  rewrite header_lines. rewrite index_of_lines.
  - f_equal. rewrite length_app. simpl. lia.
  - now destruct (leading f).
  - rewrite forallb_app. cbn [forallb].
    now rewrite H1, H2, declaration_line.
Qed.

Lemma header_length (f : Frame) : (4 <= length (header f))%nat.
Proof. rewrite header_shape, !length_app. simpl. lia. Qed.

(** The header text in front of the blank line, with a new length put in. *)
Lemma header_replaced (f : Frame) (s : jsstring) (m : nat) :
  well_declared f = true ->
  utf8_encode
    (replace_content_length
       (firstn (length (header f) - 4) (text (header f) ++ s)) (N.of_nat m)
     ++ text CRLFCRLF)
  = lines (leading f) ++ CONTENT_LENGTH ++ decimal m
      ++ continuation (trailing f) ++ CRLFCRLF.
Proof.
  intros H. apply well_declared_parts in H as (H1 & H2 & H3).
  rewrite header_shape.
  assert (E : firstn
                (length (lines (leading f) ++ CONTENT_LENGTH
                         ++ decimal (length (body f))
                         ++ continuation (trailing f) ++ CRLFCRLF) - 4)
                (text (lines (leading f) ++ CONTENT_LENGTH
                       ++ decimal (length (body f))
                       ++ continuation (trailing f) ++ CRLFCRLF) ++ s)
              = text (lines (leading f)) ++ text CONTENT_LENGTH
                  ++ to_string (N.of_nat (length (body f)))
                  ++ text (continuation (trailing f))).
  { rewrite <- text_decimal.
    replace (text (lines (leading f)) ++ text CONTENT_LENGTH
             ++ text (decimal (length (body f)))
             ++ text (continuation (trailing f)))
      with (text (lines (leading f) ++ CONTENT_LENGTH
                  ++ decimal (length (body f))
                  ++ continuation (trailing f)))
      by now text_norm.
    rewrite !app_assoc, text_app, <- !app_assoc.
    rewrite !app_assoc, length_app, <- !app_assoc.
    change (length CRLFCRLF) with 4%nat.
    rewrite Nat.add_sub, <- text_length.
    rewrite <- (Nat.add_0_r (length (text _))).
    rewrite firstn_app_2. simpl. apply app_nil_r. }
  rewrite E.
  rewrite replace_skip_lines by assumption.
  rewrite replace_declaration by apply continuation_head.
  rewrite <- text_decimal.
  replace ((text (lines (leading f)) ++ text CONTENT_LENGTH
            ++ text (decimal m) ++ text (continuation (trailing f)))
           ++ text CRLFCRLF)
    with (text (lines (leading f) ++ CONTENT_LENGTH ++ decimal m
                ++ continuation (trailing f) ++ CRLFCRLF))
    by now text_norm.
  apply utf8_encode_text.
  rewrite !is_ascii_app, (lines_header_bytes _ H1), (continuation_ascii _ H2).
  rewrite (header_byte_ascii _ (decimal_header_bytes _)).
  reflexivity.
Qed.

End DeclarationFacts.

(** ** One turn of the interceptor's loop *)

Section StepFacts.
Import JsString Utf8 Interceptor Frame.
Local Open Scope nat_scope.

Lemma slice_body (h b r : Buffer) :
  slice (h ++ b ++ r) (length h) (length h + length b) = b.
Proof.
  unfold slice. rewrite skipn_app, skipn_all, Nat.sub_diag. simpl.
  replace (length h + length b - length h) with (length b + 0) by lia.
  rewrite firstn_app_2. simpl. apply app_nil_r.
Qed.

Lemma slice_front (a r : Buffer) : slice (a ++ r) 0 (length a) = a.
Proof.
  unfold slice. simpl. rewrite Nat.sub_0_r.
  rewrite <- (Nat.add_0_r (length a)), firstn_app_2. simpl. apply app_nil_r.
Qed.

Lemma skipn_front (a r : Buffer) : skipn (length a) (a ++ r) = r.
Proof. rewrite skipn_app, skipn_all, Nat.sub_diag. reflexivity. Qed.

(** A well-declared frame at the head of the buffer is taken off whole, and
    what is pushed for it is [emitted]. *)
Lemma frame_step_frame (f : Frame) (rest : Buffer) :
  well_declared f = true ->
  frame_step (encode f ++ rest) = Some (emitted f, rest).
Proof.
  intros V. unfold frame_step, encode.
  rewrite <- app_assoc.
  rewrite (utf8_decode_ascii (header f)) by now apply header_ascii.
  rewrite header_declared, header_end by assumption.
  rewrite parse_int_to_string.
  pose proof (header_length f) as L.
  replace (length (header f) - 4 + 4) with (length (header f)) by lia.
  rewrite Nat2N.id.
  destruct (N.ltb_spec (N.of_nat (length (header f ++ body f ++ rest)))
              (N.of_nat (length (header f)) + N.of_nat (length (body f))))
    as [Hlt|_].
  { rewrite !length_app in Hlt. lia. }
  rewrite slice_body.
  rewrite (app_assoc (header f) (body f) rest).
  rewrite <- (length_app (header f) (body f)).
  rewrite slice_front, skipn_front.
  unfold emitted, targeted, rewritten_body, body_text.
  destruct (includes (text LANGUAGE_ID_PLAINTEXT) (utf8_decode (body f)));
    [|reflexivity].
  rewrite header_replaced by assumption.
  rewrite (header_shape (with_body f _)). reflexivity.
Qed.

(** Any proper prefix of such a frame makes the loop break. *)
Lemma frame_step_partial (f : Frame) (p q : Buffer) :
  well_declared f = true -> encode f = p ++ q -> q <> [] ->
  frame_step p = None.
Proof.
  intros V E Hq. unfold encode in E.
  pose proof (header_length f) as L.
  apply app_eq_app in E as [x [[Ep Eq]|[Eh Eq]]].
  - (* only the header is there, and not all of it *)
    destruct x as [|b x].
    + (* the whole header, and a body still to come *)
      rewrite app_nil_r in Ep. simpl in Eq. subst p.
      unfold frame_step.
      assert (D : utf8_decode (header f) = text (header f) ++ []).
      { rewrite app_nil_r. now apply utf8_decode_text, header_ascii. }
      rewrite D.
      rewrite header_declared, header_end by assumption.
      rewrite parse_int_to_string.
      destruct (N.ltb_spec (N.of_nat (length (header f)))
                  (N.of_nat (length (header f) - 4 + 4)
                   + N.of_nat (length (body f)))) as [_|Hge]; [reflexivity|].
      exfalso. assert (length (body f) = 0) by lia.
      destruct (body f); [now subst q|discriminate].
    + assert (A : is_ascii p = true).
      { pose proof (header_ascii f V) as A. rewrite Ep, is_ascii_app in A.
        now apply andb_true_iff in A as [A _]. }
      unfold frame_step. rewrite (utf8_decode_text p A).
      destruct (match_content_length (text p)) as [d|]; [|reflexivity].
      destruct (index_of (text CRLFCRLF) (text p)) as [j|] eqn:Ej;
        [|reflexivity].
      exfalso.
      pose proof (index_of_bound _ _ _ Ej) as B.
      apply (index_of_extend _ _ (text (b :: x))) in Ej.
      rewrite <- text_app, <- Ep in Ej.
      rewrite <- (app_nil_r (text (header f))) in Ej.
      rewrite header_end in Ej by assumption.
      injection Ej as <-.
      rewrite !text_length in B. change (length CRLFCRLF) with 4 in B.
      assert (length (header f) = length p + S (length x)).
      { rewrite Ep, length_app. reflexivity. }
      lia.
  - (* the header and a part of the body *)
    subst p. unfold frame_step.
    rewrite (utf8_decode_ascii (header f)) by now apply header_ascii.
    rewrite header_declared, header_end by assumption.
    rewrite parse_int_to_string.
    destruct (N.ltb_spec (N.of_nat (length (header f ++ x)))
                (N.of_nat (length (header f) - 4 + 4)
                 + N.of_nat (length (body f)))) as [_|Hge]; [reflexivity|].
    exfalso. rewrite Eq, !length_app in Hge.
    destruct q; [congruence|]. simpl in Hge. lia.
Qed.

Lemma frame_step_empty : frame_step [] = None.
Proof. reflexivity. Qed.

(** *** The loop *)

Lemma drain_break (fuel : nat) (b : Buffer) :
  frame_step b = None -> drain fuel b = ([], b).
Proof. intros H. destruct fuel; [reflexivity|]. simpl. now rewrite H. Qed.

Lemma drain_frame (fuel : nat) (f : Frame) (x : Buffer) :
  well_declared f = true ->
  drain (S fuel) (encode f ++ x)
  = (emitted f ++ fst (drain fuel x), snd (drain fuel x)).
Proof.
  intros V. cbn [drain]. rewrite frame_step_frame by assumption.
  now destruct (drain fuel x).
Qed.

Lemma encode_length (f : Frame) : 4 <= length (encode f).
Proof.
  unfold encode. rewrite length_app. pose proof (header_length f). lia.
Qed.

(** The loop run on a prefix [x] of a stream of valid frames pushes what is
    expected for the frames wholly in [x], in order, and keeps the proper
    prefix of the next frame. *)
Lemma drain_stream (fs : list Frame) :
  forallb valid fs = true ->
  forall (x y : Buffer) (fuel : nat),
    x ++ y = stream fs -> length x < fuel ->
    exists fs1 fs2 p,
      fs = fs1 ++ fs2 /\ x = stream fs1 ++ p /\ frame_step p = None
      /\ p ++ y = stream fs2
      /\ drain fuel x = (flat_map emitted fs1, p).
Proof.
  induction fs as [|f fs IH]; intros V x y fuel E Hfuel.
  - apply app_eq_nil in E as [-> ->].
    exists [], [], []. repeat split. now apply drain_break.
  - cbn [forallb] in V. apply andb_true_iff in V as [Vf Vfs].
    unfold stream in E. cbn [map concat] in E.
    fold (stream fs) in E.
    assert (whole : forall l, x = encode f ++ l -> stream fs = l ++ y ->
              exists fs1 fs2 p,
                f :: fs = fs1 ++ fs2 /\ x = stream fs1 ++ p
                /\ frame_step p = None /\ p ++ y = stream fs2
                /\ drain fuel x = (flat_map emitted fs1, p)).
    { intros l Ex El. subst x.
      destruct fuel as [|fuel]; [lia|].
      rewrite length_app in Hfuel. pose proof (encode_length f) as Hlen.
      destruct (IH Vfs l y fuel (eq_sym El) ltac:(lia))
        as (fs1 & fs2 & p & -> & -> & Hp & Hy & Hd).
      exists (f :: fs1), fs2, p. repeat split; try assumption.
      - unfold stream. cbn [map concat]. now rewrite app_assoc.
      - rewrite drain_frame by now apply valid_well_declared.
        now rewrite Hd. }
    apply app_eq_app in E as [l [[Ex El]|[Ef Ey]]].
    + now apply (whole l).
    + destruct l as [|b l].
      * rewrite app_nil_r in Ef. simpl in Ey. subst y.
        apply (whole []); [now rewrite app_nil_r|reflexivity].
      * assert (Hp : frame_step x = None).
        { apply (frame_step_partial f x (b :: l));
            [now apply valid_well_declared|assumption|congruence]. }
        exists [], (f :: fs), x. repeat split; try assumption.
        -- subst y. unfold stream. cbn [map concat].
           now rewrite Ef, <- app_assoc.
        -- now apply drain_break.
Qed.

Lemma stream_break (fs : list Frame) :
  forallb valid fs = true -> frame_step (stream fs) = None -> fs = [].
Proof.
  destruct fs as [|f fs]; [reflexivity|]. intros V H.
  cbn [forallb] in V. apply andb_true_iff in V as [Vf _].
  unfold stream in H. cbn [map concat] in H.
  now rewrite frame_step_frame in H by now apply valid_well_declared.
Qed.

(** Fed chunk by chunk, a stream of valid frames leaves the interceptor as
    the expected chunks of its frames, in order, with nothing kept back. *)
Lemma feed_stream (chunks : list Buffer) :
  forall (fs : list Frame) (b : Buffer),
    forallb valid fs = true -> frame_step b = None ->
    b ++ concat chunks = stream fs ->
    feed b chunks = (flat_map emitted fs, []).
Proof.
  induction chunks as [|c chunks IH]; intros fs b V Hb E.
  - simpl in E. rewrite app_nil_r in E. subst b.
    apply stream_break in Hb; [|assumption]. now subst fs.
  - cbn [concat] in E. rewrite app_assoc in E.
    cbn [feed]. unfold transform.
    destruct (drain_stream fs V (b ++ c) (concat chunks)
                (S (length (b ++ c))) E ltac:(lia))
      as (fs1 & fs2 & p & -> & _ & Hp & Hy & ->).
    rewrite forallb_app in V. apply andb_true_iff in V as [_ V2].
    rewrite (IH fs2 p V2 Hp Hy). now rewrite flat_map_app.
Qed.

End StepFacts.

(** ** A buffer that grows *)

Section ExtensionFacts.
Import JsString Utf8 Interceptor.
Local Open Scope N_scope.

Lemma agree_nil (v : jsstring) : agree_before_tail [] v.
Proof. exists [], [], v. auto. Qed.

Lemma agree_cut (v : jsstring) : agree_before_tail [REPLACEMENT] v.
Proof. exists [], [REPLACEMENT], v. auto. Qed.

Lemma agree_cons (c : N) (u v : jsstring) :
  agree_before_tail u v -> agree_before_tail (c :: u) (c :: v).
Proof.
  intros (s & t & t' & -> & -> & H). exists (c :: s), t, t'. auto.
Qed.

Lemma agree_app (p u v : jsstring) :
  agree_before_tail u v -> agree_before_tail (p ++ u) (p ++ v).
Proof.
  intros (s & t & t' & -> & -> & H). exists (p ++ s), t, t'.
  now rewrite !app_assoc.
Qed.

(** Decoding a buffer and decoding it with more bytes behind it agree, but
    for a character cut by the end of the buffer. *)
Lemma utf8_decode_grows (n : nat) :
  forall (b x : list byte),
    (length b <= n)%nat ->
    agree_before_tail (utf8_decode b) (utf8_decode (b ++ x)).
Proof.
  induction n as [|n IH]; intros b x Hn.
  - destruct b; [apply agree_nil|simpl in Hn; lia].
  - destruct b as [|b0 r0]; [apply agree_nil|].
    simpl in Hn. cbn [app utf8_decode]. cbv beta iota zeta.
    destruct (Byte.to_N b0 <? 128); [apply agree_cons, IH; lia|].
    destruct ((194 <=? Byte.to_N b0) && (Byte.to_N b0 <=? 223)).
    { destruct r0 as [|b1 r1]; [apply agree_cut|].
      simpl in Hn. cbn [app]. cbv beta iota zeta.
      destruct (in_range 128 191 b1).
      - apply agree_cons, IH. lia.
      - apply agree_cons, (IH (b1 :: r1) x). simpl. lia. }
    destruct ((224 <=? Byte.to_N b0) && (Byte.to_N b0 <=? 239)).
    { destruct r0 as [|b1 r1]; [apply agree_cut|].
      simpl in Hn. cbn [app]. cbv beta iota zeta.
      destruct (in_range _ _ b1).
      - destruct r1 as [|b2 r2]; [apply agree_cut|].
        simpl in Hn. cbn [app]. cbv beta iota zeta.
        destruct (in_range 128 191 b2).
        + apply agree_cons, IH. lia.
        + apply agree_cons, (IH (b2 :: r2) x). simpl. lia.
      - apply agree_cons, (IH (b1 :: r1) x). simpl. lia. }
    destruct ((240 <=? Byte.to_N b0) && (Byte.to_N b0 <=? 244)).
    { destruct r0 as [|b1 r1]; [apply agree_cut|].
      simpl in Hn. cbn [app]. cbv beta iota zeta.
      destruct (in_range _ _ b1).
      - destruct r1 as [|b2 r2]; [apply agree_cut|].
        simpl in Hn. cbn [app]. cbv beta iota zeta.
        destruct (in_range 128 191 b2).
        + destruct r2 as [|b3 r3]; [apply agree_cut|].
          simpl in Hn. cbn [app]. cbv beta iota zeta.
          destruct (in_range 128 191 b3).
          * apply agree_app, IH. lia.
          * apply agree_cons, (IH (b3 :: r3) x). simpl. lia.
        + apply agree_cons, (IH (b2 :: r2) x). simpl. lia.
      - apply agree_cons, (IH (b1 :: r1) x). simpl. lia. }
    apply agree_cons, IH. lia.
Qed.

Lemma strip_prefix_some (pat s r : jsstring) :
  strip_prefix pat s = Some r -> s = pat ++ r.
Proof.
  revert s; induction pat as [|p pat IH]; intros s H; simpl in H.
  - now injection H as ->.
  - destruct s as [|c s]; [discriminate|].
    destruct (N.eqb_spec p c) as [->|]; [|discriminate].
    simpl. f_equal. now apply IH.
Qed.

Lemma span_digits_spec (s d r : jsstring) :
  span_digits s = (d, r) ->
  s = d ++ r /\ forallb is_digit d = true
  /\ match r with [] => True | c :: _ => is_digit c = false end.
Proof.
  revert d r; induction s as [|c s IH]; intros d r H; cbn [span_digits] in H.
  - injection H as <- <-. now repeat split.
  - destruct (is_digit c) eqn:E.
    + destruct (span_digits s) as [d0 r0]. injection H as <- <-.
      destruct (IH d0 r0 eq_refl) as (-> & Hd & Hr).
      cbn [forallb]. rewrite E, Hd. now repeat split.
    + injection H as <- <-. now repeat split.
Qed.

(** The pattern with the line break matches at the head of a text exactly
    when the text starts with the literal, a run of digits and a line
    break. *)
Lemma content_length_line_at_spec (s d : jsstring) :
  content_length_line_at s = Some d <->
  d <> [] /\ forallb is_digit d = true
  /\ exists rest, s = text CONTENT_LENGTH ++ d ++ text CRLF ++ rest.
Proof.
  split.
  - unfold content_length_line_at, content_length_at.
    destruct (strip_prefix (text CONTENT_LENGTH) s) as [r|] eqn:E1;
      [|discriminate].
    apply strip_prefix_some in E1. subst s.
    destruct (span_digits r) as [d0 r'] eqn:E2.
    apply span_digits_spec in E2 as (-> & Hd & _).
    destruct d0 as [|c d0]; [discriminate|].
    destruct (starts_with (text CRLF) r') eqn:E3; [|discriminate].
    intros H. injection H as <-.
    apply starts_with_split in E3 as [rest ->].
    split; [discriminate|]. split; [assumption|]. now exists rest.
  - intros (Hne & Hd & rest & ->). unfold content_length_line_at.
    rewrite content_length_at_declaration by (assumption || reflexivity).
    now rewrite starts_with_app.
Qed.

Lemma content_length_line_at_extend (u v d : jsstring) :
  content_length_line_at u = Some d ->
  content_length_line_at (u ++ v) = Some d.
Proof.
  intros H. apply content_length_line_at_spec in H as (Hne & Hd & rest & ->).
  apply content_length_line_at_spec. split; [assumption|].
  split; [assumption|]. exists (rest ++ v). now rewrite <- !app_assoc.
Qed.

Lemma content_length_line_at_cut (u d : jsstring) :
  content_length_line_at (u ++ [REPLACEMENT]) = Some d ->
  content_length_line_at u = Some d.
Proof.
  intros H. apply content_length_line_at_spec in H as (Hne & Hd & rest & E).
  apply content_length_line_at_spec. split; [assumption|].
  split; [assumption|].
  destruct (exists_last (l := rest)) as (rest' & c & ->).
  - intros ->. rewrite !app_assoc in E. rewrite app_nil_r in E.
    change (text CRLF) with [13; 10] in E.
    replace ((text CONTENT_LENGTH ++ d) ++ [13; 10])
      with (((text CONTENT_LENGTH ++ d) ++ [13]) ++ [10]) in E
      by now rewrite <- !app_assoc.
    apply app_inj_tail in E as [_ E]. discriminate.
  - exists rest'. rewrite !app_assoc in E.
    apply app_inj_tail in E as [E _]. now rewrite E, <- !app_assoc.
Qed.

Lemma match_content_length_capital (a d : jsstring) :
  match_content_length a = Some d -> existsb is_capital_c a = true.
Proof.
  induction a as [|c a IH]; [discriminate|].
  rewrite match_content_length_eq.
  destruct (content_length_line_at (c :: a)) as [d0|] eqn:E.
  - intros _. apply content_length_line_at_spec in E as (_ & _ & rest & E).
    change (text CONTENT_LENGTH) with (67 :: tl (text CONTENT_LENGTH)) in E.
    injection E as -> _. reflexivity.
  - intros H. cbn [existsb]. rewrite (IH H). apply orb_true_r.
Qed.

Lemma prefix_forallb {A} (f : A -> bool) (u l m : list A) :
  m = u ++ l -> forallb f m = true -> forallb f u = true.
Proof.
  intros -> H. rewrite forallb_app in H. now apply andb_true_iff in H.
Qed.

(** A match that needs bytes still to come leaves no room for a whole match
    behind its first character. *)
Lemma content_length_line_at_needs_more (c : N) (a v d : jsstring) :
  content_length_line_at (c :: a) = None ->
  content_length_line_at ((c :: a) ++ v) = Some d ->
  existsb is_capital_c a = false.
Proof.
  intros Hnone Hsome.
  apply content_length_line_at_spec in Hsome as (Hne & Hd & rest & E).
  rewrite !app_assoc in E.
  apply app_eq_app in E as [l [[E1 E2]|[E1 E2]]].
  - exfalso.
    assert (X : content_length_line_at (c :: a) = Some d).
    { apply content_length_line_at_spec. split; [assumption|].
      split; [assumption|]. exists l. now rewrite E1, <- !app_assoc. }
    congruence.
  - assert (F : forallb (fun x => negb (is_capital_c x))
                  (tl ((text CONTENT_LENGTH ++ d) ++ text CRLF)) = true).
    { change (text CONTENT_LENGTH) with (67 :: tl (text CONTENT_LENGTH)).
      cbn [app tl]. rewrite !forallb_app.
      apply andb_true_iff. split; [apply andb_true_iff; split|];
        try reflexivity.
      clear - Hd. induction d as [|x d IH]; [reflexivity|].
      cbn [forallb] in *. apply andb_true_iff in Hd as [Hx Hd].
      rewrite (IH Hd), andb_true_r. apply is_digit_bound in Hx.
      unfold is_capital_c. apply negb_true_iff, N.eqb_neq. lia. }
    rewrite E1 in F. cbn [app tl] in F.
    apply (prefix_forallb _ a l _ eq_refl) in F.
    clear - F. induction a as [|x a IH]; [reflexivity|].
    cbn [forallb existsb] in *. apply andb_true_iff in F as [Fx Fa].
    rewrite (IH Fa). apply negb_true_iff in Fx. now rewrite Fx.
Qed.

(** The leftmost match of the header pattern stays the leftmost one when the
    text grows. *)
Lemma match_content_length_extend (a v d : jsstring) :
  match_content_length a = Some d -> match_content_length (a ++ v) = Some d.
Proof.
  induction a as [|c a IH]; [discriminate|].
  rewrite (match_content_length_eq (c :: a)).
  rewrite (match_content_length_eq ((c :: a) ++ v)).
  destruct (content_length_line_at (c :: a)) as [d0|] eqn:E.
  - intros H. now rewrite (content_length_line_at_extend _ v _ E).
  - intros H.
    destruct (content_length_line_at ((c :: a) ++ v)) as [d'|] eqn:E'.
    + apply (content_length_line_at_needs_more c a v d' E) in E'.
      apply match_content_length_capital in H. congruence.
    + now apply IH.
Qed.

Lemma match_content_length_cut (s : jsstring) :
  match_content_length (s ++ [REPLACEMENT]) = match_content_length s.
Proof.
  induction s as [|c s IH]; [reflexivity|].
  rewrite (match_content_length_eq (c :: s)).
  rewrite (match_content_length_eq ((c :: s) ++ [REPLACEMENT])).
  destruct (content_length_line_at (c :: s)) as [d|] eqn:E.
  - now rewrite (content_length_line_at_extend _ [REPLACEMENT] _ E).
  - destruct (content_length_line_at ((c :: s) ++ [REPLACEMENT])) as [d'|] eqn:E'.
    + apply content_length_line_at_cut in E'. congruence.
    + exact IH.
Qed.

Lemma starts_with_cut (u : jsstring) :
  starts_with (text CRLFCRLF) (u ++ [REPLACEMENT])
  = starts_with (text CRLFCRLF) u.
Proof.
  change (text CRLFCRLF) with [13; 10; 13; 10].
  destruct u as [|a [|b [|c [|d u]]]]; cbn [app starts_with];
    try change (13 =? REPLACEMENT) with false;
    try change (10 =? REPLACEMENT) with false;
    repeat match goal with
           | |- context [?x =? ?y] => destruct (x =? y); cbn [andb]
           end; reflexivity.
Qed.

Lemma index_of_cut (s : jsstring) :
  index_of (text CRLFCRLF) (s ++ [REPLACEMENT]) = index_of (text CRLFCRLF) s.
Proof.
  induction s as [|c s IH]; [reflexivity|].
  cbn [app]. rewrite !index_of_cons.
  change (c :: s ++ [REPLACEMENT]) with ((c :: s) ++ [REPLACEMENT]).
  now rewrite starts_with_cut, IH.
Qed.

(** What the loop reads off the decoded buffer is read off the decoding of
    any longer buffer as well. *)
Lemma header_read_grows (u v d : jsstring) (h : nat) :
  agree_before_tail u v ->
  match_content_length u = Some d ->
  index_of (text CRLFCRLF) u = Some h ->
  match_content_length v = Some d
  /\ index_of (text CRLFCRLF) v = Some h
  /\ firstn h v = firstn h u.
Proof.
  intros (s & t & t' & -> & -> & Ht) Hm Hi.
  assert (Hs : match_content_length s = Some d
               /\ index_of (text CRLFCRLF) s = Some h).
  { destruct Ht as [->| ->].
    - now rewrite app_nil_r in Hm, Hi.
    - now rewrite match_content_length_cut in Hm; rewrite index_of_cut in Hi. }
  destruct Hs as [Hm' Hi'].
  split; [now apply match_content_length_extend|].
  split; [now apply index_of_extend|].
  apply index_of_bound in Hi'.
  rewrite !firstn_app.
  replace (h - length s)%nat with O by lia. cbn [firstn].
  now rewrite !app_nil_r.
Qed.

End ExtensionFacts.

(** ** The interceptor on streams of frames *)

Section InterceptorTheorems.
Import JsString Utf8 Interceptor Frame.
Local Open Scope nat_scope.

(** A turn of the loop that does not break takes at least the four bytes
    of a blank line off the buffer. *)
Lemma frame_step_consumes (b : Buffer) (pushed : list Buffer) (b' : Buffer) :
  frame_step b = Some (pushed, b') -> length b' + 4 <= length b.
Proof.
  unfold frame_step.
  destruct (match_content_length (utf8_decode b)) as [d|]; [|discriminate].
  destruct (index_of (text CRLFCRLF) (utf8_decode b)) as [h|]; [|discriminate].
  destruct (N.ltb_spec (N.of_nat (length b)) (N.of_nat (h + 4) + parse_int d))
    as [_|Hge]; [discriminate|].
  intros H. injection H as _ <-. rewrite length_skipn. lia.
Qed.

(** The fuel [transform] gives the loop is never used up: the loop stops
    at a [break], with a buffer that holds no complete frame. *)
Lemma drain_settles (fuel : nat) (b : Buffer) :
  length b < fuel -> frame_step (snd (drain fuel b)) = None.
Proof.
  revert b; induction fuel as [|fuel IH]; intros b H; [lia|].
  cbn [drain]. destruct (frame_step b) as [[pushed b']|] eqn:E.
  - apply frame_step_consumes in E.
    specialize (IH b' ltac:(lia)).
    now destruct (drain fuel b').
  - exact E.
Qed.

(** X2.  The [while (true)] loop of [transform] always reaches a [break]:
    whatever the buffer and the chunk, the buffer kept for the next chunk is
    one from which no further frame can be taken. *)
Lemma transform_settles (buffer chunk : Buffer) :
  frame_step (snd (transform buffer chunk)) = None.
Proof. apply drain_settles. lia. Qed.

Lemma intercept_stream (fs : list Frame) (chunks : list Buffer) :
  forallb valid fs = true -> chunking chunks (stream fs) ->
  feed [] chunks = (flat_map emitted fs, []).
Proof.
  intros V C. apply feed_stream; [assumption|reflexivity|exact C].
Qed.

Lemma replace_all_segments (pat rep : jsstring) (segs : list jsstring)
      (last : jsstring) :
  pat <> [] ->
  forallb (fun s => negb (includes pat (s ++ removelast pat))) segs = true ->
  includes pat last = false ->
  replace_all pat rep (concat (map (fun s => s ++ pat) segs) ++ last)
  = concat (map (fun s => s ++ rep) segs) ++ last.
Proof.
  intros Hne Hsegs Hlast. induction segs as [|s segs IH].
  - now apply replace_all_absent.
  - cbn [forallb] in Hsegs. apply andb_true_iff in Hsegs as [Hs Hsegs].
    apply negb_true_iff in Hs.
    cbn [map concat]. rewrite <- !app_assoc.
    rewrite replace_all_segment by assumption.
    now rewrite (IH Hsegs).
Qed.

End InterceptorTheorems.

(** ** Chunk boundaries, for any bytes *)

Section ChunkFacts.
Import JsString Utf8 Interceptor.
Local Open Scope nat_scope.

Lemma slice_app (b x : Buffer) (start stop : nat) :
  stop <= length b -> slice (b ++ x) start stop = slice b start stop.
Proof.
  intros H. unfold slice. rewrite skipn_app, firstn_app, length_skipn.
  replace (stop - start - (length b - start)) with 0 by lia.
  cbn [firstn]. apply app_nil_r.
Qed.

Lemma skipn_app_front (b x : Buffer) (k : nat) :
  k <= length b -> skipn k (b ++ x) = skipn k b ++ x.
Proof.
  intros H. rewrite skipn_app. now replace (k - length b) with 0 by lia.
Qed.

(** A turn of the loop that takes a frame off the buffer takes the same frame
    off any longer buffer, and leaves the added bytes behind it. *)
Lemma frame_step_extend (b x : Buffer) (pushed : list Buffer) (b' : Buffer) :
  frame_step b = Some (pushed, b') ->
  frame_step (b ++ x) = Some (pushed, b' ++ x).
Proof.
  unfold frame_step.
  pose proof (utf8_decode_grows (length b) b x (le_n _)) as G.
  destruct (match_content_length (utf8_decode b)) as [d|] eqn:Em;
    [|discriminate].
  destruct (index_of (text CRLFCRLF) (utf8_decode b)) as [h|] eqn:Ei;
    [|discriminate].
  destruct (header_read_grows _ _ d h G Em Ei) as (Em' & Ei' & Ef).
  rewrite Em', Ei', Ef.
  destruct (N.ltb_spec (N.of_nat (length b))
              (N.of_nat (h + 4) + parse_int d)) as [_|Hge]; [discriminate|].
  destruct (N.ltb_spec (N.of_nat (length (b ++ x)))
              (N.of_nat (h + 4) + parse_int d)) as [Hlt|_].
  { rewrite length_app in Hlt. lia. }
  assert (L : h + 4 + N.to_nat (parse_int d) <= length b) by lia.
  intros H. injection H as <- <-.
  now rewrite !slice_app, skipn_app_front by assumption.
Qed.

Lemma drain_turn (n : nat) (b : Buffer) :
  drain (S n) b
  = match frame_step b with
    | Some (pushed, b') =>
        let (more, rest) := drain n b' in (pushed ++ more, rest)
    | None => ([], b)
    end.
Proof. reflexivity. Qed.

(** Fuel beyond the length of the buffer changes nothing. *)
Lemma drain_fuel (n : nat) :
  forall (m : nat) (b : Buffer),
    length b < n -> length b < m -> drain n b = drain m b.
Proof.
  induction n as [|n IH]; intros m b Hn Hm; [lia|].
  destruct m as [|m]; [lia|].
  cbn [drain]. destruct (frame_step b) as [[pushed b']|] eqn:E; [|reflexivity].
  apply frame_step_consumes in E. now rewrite (IH m b') by lia.
Qed.

(** Running the loop on more bytes at once is running it on the first part
    and then on what it left, followed by the rest. *)
Lemma drain_app (n : nat) :
  forall (y z : Buffer),
    length y < n ->
    drain (S (length (y ++ z))) (y ++ z)
    = (fst (drain n y)
         ++ fst (drain (S (length (snd (drain n y) ++ z)))
                       (snd (drain n y) ++ z)),
       snd (drain (S (length (snd (drain n y) ++ z)))
                  (snd (drain n y) ++ z))).
Proof.
  induction n as [|n IH]; intros y z Hn; [lia|].
  rewrite (drain_turn n y), (drain_turn (length (y ++ z)) (y ++ z)).
  destruct (frame_step y) as [[pushed y']|] eqn:E.
  - rewrite (frame_step_extend y z pushed y' E).
    apply frame_step_consumes in E.
    rewrite (drain_fuel (length (y ++ z)) (S (length (y' ++ z))))
      by (rewrite !length_app; lia).
    rewrite (IH y' z) by lia.
    destruct (drain n y') as [o1 r1]. cbn [fst snd].
    destruct (drain (S (length (r1 ++ z))) (r1 ++ z)) as [o2 r2].
    cbn [fst snd]. now rewrite app_assoc.
  - cbn [fst snd app]. rewrite <- drain_turn.
    now destruct (drain (S (length (y ++ z))) (y ++ z)).
Qed.

Lemma feed_drain (chunks : list Buffer) :
  forall b : Buffer,
    frame_step b = None ->
    feed b chunks
    = drain (S (length (b ++ concat chunks))) (b ++ concat chunks).
Proof.
  induction chunks as [|c chunks IH]; intros b Hb.
  - cbn [feed concat]. rewrite app_nil_r. now rewrite drain_break.
  - cbn [feed concat]. unfold transform.
    rewrite app_assoc.
    rewrite (drain_app (S (length (b ++ c))) (b ++ c) (concat chunks))
      by lia.
    pose proof (drain_settles (S (length (b ++ c))) (b ++ c) ltac:(lia)) as S1.
    destruct (drain (S (length (b ++ c))) (b ++ c)) as [o1 r1].
    cbn [fst snd] in *. rewrite (IH r1 S1).
    now destruct (drain (S (length (r1 ++ concat chunks)))
                        (r1 ++ concat chunks)).
Qed.

(** X1.  Whatever the bytes, frames or not, the interceptor fed a stream in
    chunks pushes the same chunks and keeps the same buffer as when it is fed
    the stream at once. *)
Theorem chunking_irrelevant (chunks : list Buffer) :
  feed [] chunks = feed [] [concat chunks].
Proof.
  rewrite !feed_drain by reflexivity.
  cbn [concat]. now rewrite app_nil_r.
Qed.

End ChunkFacts.

(** ** The frame interceptor: chunking, rewriting, passthrough *)

Section InterceptorClaims.
Import JsString Utf8 Interceptor Frame Examples.
Local Open Scope nat_scope.

(** C1.  For every sequence of valid frames and every way of cutting its
    byte stream into chunks, the interceptor pushes the same chunks as when
    the whole stream arrives at once; they are the chunks expected of the
    frames, in the order of the frames, and nothing stays buffered. *)
Theorem chunk_boundary_invariance (fs : list Frame) (chunks : list Buffer) :
  forallb valid fs = true -> chunking chunks (stream fs) ->
  intercept chunks = intercept [stream fs]
  /\ intercept chunks = flat_map emitted fs
  /\ snd (feed [] chunks) = [].
Proof.
  intros V C.
  pose proof (intercept_stream fs chunks V C) as H.
  assert (C1 : chunking [stream fs] (stream fs)).
  { unfold chunking. simpl. apply app_nil_r. }
  pose proof (intercept_stream fs [stream fs] V C1) as H1.
  unfold intercept. rewrite H, H1. now repeat split.
Qed.

Lemma chunk_boundary_invariance_witness :
  intercept cut = intercept [stream three]
  /\ intercept cut = flat_map emitted three
  /\ snd (feed [] cut) = [].
Proof.
  apply (chunk_boundary_invariance three cut); vm_compute; reflexivity.
Defined.

(** C2, as the code has it.  For every well-declared frame (header lines
    in ASCII, none of which, before the declaration, holds the text
    ['Content-Length: '] followed by a digit) whose body holds the pair
    ["languageId":"plaintext"], the interceptor pushes the header of the
    frame with the byte length of the rewritten body declared in it, then
    the rewritten body; read back by the interceptor's own pattern the
    pushed header declares exactly that length.  The rewrite replaces the
    occurrences met by a left-to-right scan that resumes after each
    replaced occurrence: when the body is cut into segments at occurrences,
    each the first one after the previous, every one of them is replaced
    and the segments are kept. *)
Theorem rewrite_recomputes_length (f : Frame) (rest : Buffer) :
  well_declared f = true -> targeted f = true ->
  let f' := with_body f (rewritten_body f) in
  frame_step (encode f ++ rest) = Some ([header f'; body f'], rest)
  /\ option_map parse_int (match_content_length (utf8_decode (header f')))
     = Some (N.of_nat (length (body f')))
  /\ forall (segs : list jsstring) (last : jsstring),
       forallb (fun s => negb (includes (text LANGUAGE_ID_PLAINTEXT)
                  (s ++ removelast (text LANGUAGE_ID_PLAINTEXT)))) segs = true ->
       includes (text LANGUAGE_ID_PLAINTEXT) last = false ->
       body_text f
       = concat (map (fun s => s ++ text LANGUAGE_ID_PLAINTEXT) segs) ++ last ->
       body f'
       = utf8_encode
           (concat (map (fun s => s ++ text LANGUAGE_ID_GDSCRIPT) segs) ++ last).
Proof.
  intros V T f'. repeat split.
  - rewrite frame_step_frame by assumption.
    unfold emitted. now rewrite T.
  - assert (V' : well_declared f' = true) by exact V.
    rewrite (utf8_decode_text (header f')) by now apply header_ascii.
    rewrite <- (app_nil_r (text (header f'))).
    rewrite header_declared by assumption.
    cbn [option_map]. now rewrite parse_int_to_string.
  - intros segs last Hsegs Hlast E.
    cbn [f' with_body body]. unfold rewritten_body. rewrite E.
    rewrite replace_all_segments; [reflexivity|discriminate|assumption..].
Qed.

Lemma rewrite_recomputes_length_witness :
  frame_step (encode opened ++ encode plain)
  = Some ([header (with_body opened (rewritten_body opened));
           rewritten_body opened], encode plain)
  /\ length (body opened) = 54 /\ length (rewritten_body opened) = 52.
Proof.
  destruct (rewrite_recomputes_length opened (encode plain) eq_refl eq_refl)
    as (H & _ & _).
  split; [exact H|]. split; reflexivity.
Defined.

(** C2, as stated, fails, in three ways.  In the first body two
    occurrences of the pair share a quote; the scan resumes after the first
    and never sees the second, so the rewritten body still holds the pair
    (of three occurrences in a chain, the first and the third are
    rewritten and the second is not).
    The second frame has, before its declaration, a header field in which
    the replacing pattern matches: the new length is written there, and the
    header pushed declares 24 bytes in front of a body of 23.  The third
    frame has a header field with a two-byte character: the index of the
    blank line in the text is one short of its index in the bytes, the body
    is cut one byte early, the pair is not found in it, and the frame
    leaves as it came but for its last byte, which stays behind. *)
Lemma rewrite_falls_short :
  (targeted overlapping = true
   /\ index_of (text LANGUAGE_ID_PLAINTEXT) (tl (body_text overlapping))
      = Some 22
   /\ intercept [encode overlapping]
      = [header (with_body overlapping
                   (LANGUAGE_ID_GDSCRIPT ++ tl LANGUAGE_ID_PLAINTEXT));
         LANGUAGE_ID_GDSCRIPT ++ tl LANGUAGE_ID_PLAINTEXT]
   /\ includes (text LANGUAGE_ID_PLAINTEXT)
               (utf8_decode (LANGUAGE_ID_GDSCRIPT ++ tl LANGUAGE_ID_PLAINTEXT))
      = true
   /\ snd (transform [] (encode chained)) = []
   /\ concat (fst (transform [] (encode chained)))
      = encode (with_body chained
                  (LANGUAGE_ID_GDSCRIPT ++ tl LANGUAGE_ID_PLAINTEXT
                     ++ tl LANGUAGE_ID_GDSCRIPT)))
  /\ (targeted masked = true
      /\ forallb is_header_line (leading masked) = true
      /\ intercept [encode masked]
         = [list_byte_of_string "X-Content-Length: 23abc" ++ CRLF
              ++ CONTENT_LENGTH ++ decimal 24 ++ CRLFCRLF;
            LANGUAGE_ID_GDSCRIPT]
      /\ length LANGUAGE_ID_GDSCRIPT = 23)
  /\ (targeted accented = true
      /\ transform [] (encode accented)
         = ([removelast (encode accented)], [QUOTE])
      /\ includes (text LANGUAGE_ID_GDSCRIPT)
                  (utf8_decode (removelast (encode accented))) = false).
Proof.
  split; [|split].
  - split; [vm_compute; reflexivity|].
    split; [vm_compute; reflexivity|].
    split; [vm_compute; reflexivity|].
    split; [vm_compute; reflexivity|].
    split; vm_compute; reflexivity.
  - split; [vm_compute; reflexivity|].
    split; [vm_compute; reflexivity|].
    split; vm_compute; reflexivity.
  - split; [vm_compute; reflexivity|].
    split; vm_compute; reflexivity.
Qed.

(** C3 fails on the code.  The frame [suffixed] is complete: a header
    field, the declaration of a body of two bytes, the blank line and the
    body [{}], which does not hold the pair.  The pattern that reads the
    length is not tied to the start of a line: it matches inside the field
    before the declaration, whose name ends in [Content-Length], and reads
    5.  The interceptor pushes nothing and keeps the frame as if it were
    incomplete, and so it does with [hollow], which declares an empty
    body.  When the next frame arrives, its first three bytes are pushed
    as the end of this one and the rest of it stays behind.  The frame
    [noted] has a two-byte character in its header: the index of the blank
    line in the text, one short of its index in the bytes, is taken for a
    byte offset, and the frame is pushed without its last byte. *)
Theorem complete_frame_held_back :
  forallb is_header_line (leading suffixed) = true
  /\ targeted suffixed = false
  /\ option_map parse_int
       (match_content_length (utf8_decode (encode suffixed))) = Some 5%N
  /\ transform [] (encode suffixed) = ([], encode suffixed)
  /\ transform [] (encode hollow) = ([], encode hollow)
  /\ feed [] [encode suffixed; encode plain]
     = ([encode suffixed ++ firstn 3 (encode plain)], skipn 3 (encode plain))
  /\ targeted noted = false
  /\ transform [] (encode noted) = ([removelast (encode noted)], [x7d]).
Proof.
  split; [vm_compute; reflexivity|].
  split; [vm_compute; reflexivity|].
  split; [vm_compute; reflexivity|].
  split; [vm_compute; reflexivity|].
  split; [vm_compute; reflexivity|].
  split; [vm_compute; reflexivity|].
  split; vm_compute; reflexivity.
Qed.

(** C10 fails on the code.  The pattern that replaces the length is not the
    one that reads it: it asks for no line break after the digits.  In the
    header of [masked] it matches inside the field before the declaration:
    the digit of that field is replaced and the declaration keeps the old
    length, 24, in front of a body of 23 bytes.  In the header of [latin] a
    byte that is no UTF-8 comes back as the three bytes of the replacement
    character, since the header pushed is the decoded text encoded anew. *)
Theorem rewrite_alters_another_field :
  header masked
  = list_byte_of_string "X-Content-Length: 5abc" ++ CRLF
      ++ CONTENT_LENGTH ++ decimal 24 ++ CRLFCRLF
  /\ frame_step (encode masked)
     = Some ([list_byte_of_string "X-Content-Length: 23abc" ++ CRLF
                ++ CONTENT_LENGTH ++ decimal 24 ++ CRLFCRLF;
              LANGUAGE_ID_GDSCRIPT], [])
  /\ length LANGUAGE_ID_GDSCRIPT = 23
  /\ header latin
     = (X_NAME ++ [xe9]) ++ CRLF ++ CONTENT_LENGTH ++ decimal 24 ++ CRLFCRLF
  /\ frame_step (encode latin)
     = Some ([(X_NAME ++ [xef; xbf; xbd]) ++ CRLF
                ++ CONTENT_LENGTH ++ decimal 23 ++ CRLFCRLF;
              LANGUAGE_ID_GDSCRIPT], []).
Proof.
  split; [vm_compute; reflexivity|].
  split; [vm_compute; reflexivity|].
  split; [vm_compute; reflexivity|].
  split; vm_compute; reflexivity.
Qed.

(** X28.  A well-declared frame whose body does not hold the pair leaves
    the interceptor as one chunk equal to its bytes, header included, and
    what follows it in the buffer is kept; a frame declaring a length of
    zero is such a frame, and is complete as soon as its blank line is
    there. *)
Theorem passthrough_exact (f : Frame) (rest : Buffer) :
  well_declared f = true ->
  (targeted f = false ->
   frame_step (encode f ++ rest) = Some ([encode f], rest)
   /\ transform [] (encode f) = ([encode f], []))
  /\ (body f = [] ->
      targeted f = false
      /\ encode f = header f
      /\ frame_step (header f ++ rest) = Some ([header f], rest)
      /\ transform [] (header f) = ([header f], [])).
Proof.
  intros V.
  assert (P : targeted f = false ->
              frame_step (encode f ++ rest) = Some ([encode f], rest)
              /\ transform [] (encode f) = ([encode f], [])).
  { intros T. split.
    - rewrite frame_step_frame by assumption. unfold emitted. now rewrite T.
    - unfold transform. cbn [app length].
      rewrite <- (app_nil_r (encode f)) at 2.
      rewrite drain_frame by assumption.
      rewrite drain_break by reflexivity.
      unfold emitted. rewrite T. reflexivity. }
  split; [exact P|].
  intros B.
  assert (T : targeted f = false).
  { unfold targeted, body_text. now rewrite B. }
  assert (E : encode f = header f).
  { unfold encode. rewrite B. apply app_nil_r. }
  destruct (P T) as [P1 P2]. rewrite E in P1, P2. now repeat split.
Qed.

Lemma passthrough_exact_witness :
  (frame_step (encode plain ++ encode empty) = Some ([encode plain], encode empty)
   /\ transform [] (encode plain) = ([encode plain], []))
  /\ transform [] (header empty) = ([header empty], []).
Proof.
  split.
  - apply (passthrough_exact plain (encode empty) eq_refl). reflexivity.
  - apply (passthrough_exact empty [] eq_refl). reflexivity.
Defined.

(** X29.  When a well-declared frame is rewritten, the pushed header is the
    received one with the digits of its length declaration replaced: the
    lines before the declaration, the name of the declaration, the lines
    after it and the blank line are pushed as received. *)
Theorem rewrite_preserves_header (f : Frame) (rest : Buffer) :
  well_declared f = true -> targeted f = true ->
  exists newHeader newBody : Buffer,
    frame_step (encode f ++ rest) = Some ([newHeader; newBody], rest)
    /\ header f
       = (lines (leading f) ++ CONTENT_LENGTH) ++ decimal (length (body f))
           ++ (CRLF ++ lines (trailing f) ++ CRLF)
    /\ newHeader
       = (lines (leading f) ++ CONTENT_LENGTH) ++ decimal (length newBody)
           ++ (CRLF ++ lines (trailing f) ++ CRLF).
Proof.
  intros V T.
  exists (header (with_body f (rewritten_body f))), (rewritten_body f).
  repeat split.
  - rewrite frame_step_frame by assumption. unfold emitted. now rewrite T.
  - unfold header. now rewrite <- !app_assoc.
  - unfold header. cbn [with_body leading trailing body].
    now rewrite <- !app_assoc.
Qed.

Lemma rewrite_preserves_header_witness :
  exists newHeader newBody : Buffer,
    frame_step (encode opened ++ []) = Some ([newHeader; newBody], [])
    /\ header opened
       = (lines (leading opened) ++ CONTENT_LENGTH)
           ++ decimal (length (body opened))
           ++ (CRLF ++ lines (trailing opened) ++ CRLF)
    /\ newHeader
       = (lines (leading opened) ++ CONTENT_LENGTH)
           ++ decimal (length newBody)
           ++ (CRLF ++ lines (trailing opened) ++ CRLF).
Proof.
  apply (rewrite_preserves_header opened []); reflexivity.
Defined.

End InterceptorClaims.

(** ** Running the orchestrator *)

Section BridgeFacts.
Import Interceptor Bridge.
Local Open Scope N_scope.

(** With its default timeout a probe always settles. *)
Lemma probe_default (p : N) (h : string) (net : Prober.Network) :
  exists b t, Prober.isPortOpen p h Prober.DEFAULT_TIMEOUT net = Some (b, t).
Proof.
  unfold Prober.isPortOpen, Prober.first_event, Prober.DEFAULT_TIMEOUT.
  destruct net as [t|t|]; cbn [N.eqb orb];
    try destruct (t <? 1000); cbn; eauto.
Qed.

Lemma isPortOpen_run (p : N) (w : World) (st : State) :
  isPortOpen p w st
  = (Ret (answers w (waits st) p),
     record [Probed p (answers w (waits st) p)] st).
Proof.
  unfold isPortOpen, answers.
  destruct (probe_default p (host w) (network w (waits st) p)) as (b & t & ->).
  reflexivity.
Qed.

Lemma record_record (es1 es2 : list Effect) (st : State) :
  record es2 (record es1 st) = record (es1 ++ es2) st.
Proof. unfold record. cbn. now rewrite app_assoc. Qed.

Lemma record_nil (st : State) : record [] st = st.
Proof. destruct st. unfold record. cbn. now rewrite app_nil_r. Qed.

Lemma quiet_not_spawn (es : list Effect) :
  forallb is_quiet es = true ->
  existsb is_spawn es = false /\ existsb is_termination es = false.
Proof.
  induction es as [|e es IH]; intros H; [now split|].
  cbn [forallb] in H. apply andb_true_iff in H as [He Hes].
  destruct (IH Hes) as [I1 I2]. cbn [existsb]. rewrite I1, I2.
  now destruct e.
Qed.

(** *** The polling loop *)

Lemma waitForLsp_turn (n i : nat) :
  waitForLsp (S n) i =
  (sleep POLL_INTERVAL ;;
   p <- get port ;;
   open <- isPortOpen p ;;
   if open then
     log (LspReady p) ;;
     ret true
   else
     (if Nat.eqb (Nat.modulo (i + 1) 10) 0
      then log (StillWaiting (Nat.div (i + 1) 2))
      else ret tt) ;;
     waitForLsp n (S i)).
Proof. reflexivity. Qed.

(** The loop returns whether the port answered within its [n] attempts,
    and only waits, probes and writes diagnostics. *)
Lemma waitForLsp_run (n : nat) :
  forall (i : nat) (w : World) (st : State),
  exists st' es,
    waitForLsp n i w st = (Ret (ready_within w (port st) (waits st) n), st')
    /\ port st' = port st
    /\ spawnedGodotProcess st' = spawnedGodotProcess st
    /\ piped st' = piped st
    /\ buffer st' = buffer st
    /\ effects st' = effects st ++ es
    /\ forallb is_quiet es = true.
Proof.
  induction n as [|n IH]; intros i w st.
  - exists st, []. cbn. rewrite app_nil_r. now repeat split.
  - rewrite waitForLsp_turn.
    cbn -[isPortOpen waitForLsp Nat.modulo Nat.div].
    unfold bind at 1. rewrite isPortOpen_run.
    cbn -[isPortOpen waitForLsp Nat.modulo Nat.div].
    destruct (answers w (S (waits st)) (port st)) eqn:A.
    + cbn. eexists. eexists. split; [reflexivity|]. cbn.
      repeat split. rewrite <- !app_assoc. cbn. reflexivity.
      reflexivity.
    + destruct (Nat.eqb (Nat.modulo (i + 1) 10) 0);
        cbn -[isPortOpen waitForLsp Nat.modulo Nat.div];
        match goal with
        | |- context [waitForLsp n (S i) w ?s] =>
            destruct (IH (S i) w s) as (st' & es & E & Hp & Hs & Hpi & Hb & He & Hq)
        end;
        rewrite E; cbn in Hp, Hs, Hpi, Hb, He |- *;
        eexists; eexists; (split; [reflexivity|]);
        (split; [assumption|]); (split; [assumption|]);
        (split; [assumption|]); (split; [assumption|]);
        (split; [rewrite He, <- !app_assoc; cbn; reflexivity|cbn; exact Hq]).
Qed.

(** When the port first answers at attempt [k], the loop returns [true]
    having done exactly what [expected_poll] lists. *)
Lemma waitForLsp_first_answer (k : nat) :
  forall (n i : nat) (w : World) (st : State),
    (1 <= k <= n)%nat ->
    (forall j, (1 <= j < k)%nat ->
               answers w (waits st + j) (port st) = false) ->
    answers w (waits st + k) (port st) = true ->
    waitForLsp n i w st
    = (Ret true,
       {| port := port st; spawnedGodotProcess := spawnedGodotProcess st;
          waits := waits st + k; piped := piped st; buffer := buffer st;
          effects := effects st ++ expected_poll (port st) k i |}).
Proof.
  induction k as [|k IH]; intros n i w st Hk Hbefore Hat; [lia|].
  destruct n as [|n]; [lia|].
  rewrite waitForLsp_turn.
  cbn -[isPortOpen waitForLsp Nat.modulo Nat.div].
  unfold bind at 1. rewrite isPortOpen_run.
  cbn -[isPortOpen waitForLsp Nat.modulo Nat.div].
  destruct k as [|k].
  - rewrite Nat.add_1_r in Hat. rewrite Hat. cbn.
    rewrite Nat.add_1_r, <- !app_assoc. reflexivity.
  - replace (answers w (S (waits st)) (port st)) with false
      by (symmetry; rewrite <- Nat.add_1_r; apply Hbefore; lia).
    assert (E : forall s,
               port s = port st -> waits s = S (waits st) ->
               waitForLsp n (S i) w s
               = (Ret true,
                  {| port := port s;
                     spawnedGodotProcess := spawnedGodotProcess s;
                     waits := waits s + S k; piped := piped s;
                     buffer := buffer s;
                     effects := effects s ++ expected_poll (port s) (S k) (S i) |})).
    { intros s Hp Hw. apply IH; [lia| |].
      - intros j Hj. rewrite Hp, Hw.
        replace (S (waits st) + j)%nat with (waits st + S j)%nat by lia.
        apply Hbefore. lia.
      - rewrite Hp, Hw.
        replace (S (waits st) + S k)%nat with (waits st + S (S k))%nat by lia.
        exact Hat. }
    change (expected_poll (port st) (S (S k)) i)
      with ([Sleep POLL_INTERVAL; Probed (port st) false]
              ++ (if Nat.eqb (Nat.modulo (i + 1) 10) 0
                  then [Log (StillWaiting (Nat.div (i + 1) 2))] else [])
              ++ expected_poll (port st) (S k) (S i)).
    destruct (Nat.eqb (Nat.modulo (i + 1) 10) 0);
      cbn -[isPortOpen waitForLsp Nat.modulo Nat.div expected_poll];
      rewrite E by reflexivity;
      cbn -[isPortOpen waitForLsp Nat.modulo Nat.div expected_poll];
      rewrite <- !app_assoc;
      cbn -[isPortOpen waitForLsp Nat.modulo Nat.div expected_poll];
      do 2 f_equal; lia.
Qed.

Lemma expected_poll_probes (p : N) (k i : nat) :
  count is_probe (expected_poll p k i) = k
  /\ count is_sleep (expected_poll p k i) = k.
Proof.
  unfold count. revert i; induction k as [|k IH]; intros i; [now split|].
  destruct k as [|k]; [now split|].
  change (expected_poll p (S (S k)) i)
    with ([Sleep POLL_INTERVAL; Probed p false]
            ++ (if Nat.eqb (Nat.modulo (i + 1) 10) 0
                then [Log (StillWaiting (Nat.div (i + 1) 2))] else [])
            ++ expected_poll p (S k) (S i)).
  destruct (IH (S i)) as [I1 I2].
  rewrite !filter_app, !length_app, I1, I2.
  now destruct (Nat.eqb (Nat.modulo (i + 1) 10) 0).
Qed.

Ltac divmod x y :=
  let H1 := fresh in
  let H2 := fresh in
  pose proof (Nat.div_mod_eq x y) as H1;
  pose proof (Nat.mod_upper_bound x y ltac:(lia)) as H2;
  generalize dependent (Nat.div x y);
  generalize dependent (Nat.modulo x y); intros.

(** The progress lines of a poll answered at attempt [k]: one for each
    multiple of ten among the unanswered attempts, telling the seconds
    waited. *)
Lemma expected_poll_progress (p : N) (k : nat) :
  forall i : nat,
    (1 <= k)%nat ->
    filter is_progress (expected_poll p k i)
    = map (fun m => Log (StillWaiting (5 * m)))
          (seq (S (Nat.div i 10))
               (Nat.div (i + k - 1) 10 - Nat.div i 10)).
Proof.
  induction k as [|k IH]; intros i Hk; [lia|].
  destruct k as [|k].
  - cbn [expected_poll filter is_progress].
    replace (i + 1 - 1)%nat with i by lia.
    now rewrite Nat.sub_diag.
  - change (expected_poll p (S (S k)) i)
      with ([Sleep POLL_INTERVAL; Probed p false]
              ++ (if Nat.eqb (Nat.modulo (i + 1) 10) 0
                  then [Log (StillWaiting (Nat.div (i + 1) 2))] else [])
              ++ expected_poll p (S k) (S i)).
    rewrite !filter_app, (IH (S i)) by lia.
    replace (S i + S k - 1)%nat with (i + S (S k) - 1)%nat by lia.
    replace (S i) with (i + 1)%nat by lia.
    destruct (Nat.eqb_spec (Nat.modulo (i + 1) 10) 0) as [E|E].
    + assert (A : Nat.div (i + 1) 2 = (5 * Nat.div (i + 1) 10)%nat
                  /\ S (Nat.div i 10) = Nat.div (i + 1) 10
                  /\ (Nat.div (i + 1) 10 <= Nat.div (i + S (S k) - 1) 10)%nat).
      { divmod (i + S (S k) - 1)%nat 10%nat.
        divmod (i + 1)%nat 10%nat. divmod (i + 1)%nat 2%nat.
        divmod i 10%nat. lia. }
      destruct A as (A1 & A2 & A3).
      cbn [filter is_progress app]. rewrite A1, A2.
      replace (Nat.div (i + S (S k) - 1) 10 - Nat.div i 10)%nat
        with (S (Nat.div (i + S (S k) - 1) 10 - Nat.div (i + 1) 10))
        by lia.
      reflexivity.
    + assert (A : Nat.div (i + 1) 10 = Nat.div i 10).
      { divmod (i + 1)%nat 10%nat. divmod i 10%nat. lia. }
      cbn [filter is_progress app]. now rewrite A.
Qed.

(** *** Launching *)

Lemma bind_assoc_run {A B C} (m : M A) (k1 : A -> M B) (k2 : B -> M C)
      (w : World) (st : State) :
  bind (bind m k1) k2 w st = bind m (fun a => bind (k1 a) k2) w st.
Proof. unfold bind. now destruct (m w st) as [[a| | |] st']. Qed.

Ltac run :=
  repeat first
    [ rewrite bind_assoc_run
    | progress (cbn -[waitForLsp POLL_ATTEMPTS ready_within isPortOpen
                      launchGodotEditor answers cleanup transform]) ].

Lemma launch_succeeds_eq (w : World) (p : N) :
  launch_succeeds w p = launchable w && ready_within w p O POLL_ATTEMPTS.
Proof.
  unfold launch_succeeds, launchable.
  now destruct (findGodot w), (findProjectFile w).
Qed.

(** The launch spawns a process exactly when executable and project are
    found, keeps its reference, and succeeds when the port then answers in
    time; it never attempts a termination. *)
Lemma launchGodotEditor_run (w : World) (st : State) :
  exists st' es,
    launchGodotEditor w st
    = (Ret (launchable w
            && ready_within w (port st) (waits st) POLL_ATTEMPTS), st')
    /\ port st' = port st
    /\ piped st' = piped st
    /\ buffer st' = buffer st
    /\ effects st' = effects st ++ es
    /\ existsb is_termination es = false
    /\ existsb is_spawn es = launchable w
    /\ spawnedGodotProcess st'
       = if launchable w then Some (child_pid w) else spawnedGodotProcess st.
Proof.
  unfold launchGodotEditor, launchable, spawn. run.
  destruct (findGodot w) as [godot|];
    [|eexists; eexists; (split; [reflexivity|]); cbn;
      rewrite <- !app_assoc; now repeat split].
  run.
  destruct (findProjectFile w) as [project|];
    [|eexists; eexists; (split; [reflexivity|]); cbn;
      rewrite <- !app_assoc; now repeat split].
  run.
  destruct (isLinux (platform w) && negb (display w));
    [run; destruct (xvfb_run w)|];
    run; unfold bind at 1;
    match goal with
    | |- context [waitForLsp ?n ?i w ?s] =>
        destruct (waitForLsp_run n i w s)
          as (st2 & es & E & Hp & Hs & Hpi & Hb & He & Hq)
    end;
    cbn [port waits spawnedGodotProcess piped buffer effects]
      in E, Hp, Hs, Hpi, Hb, He;
    rewrite E;
    destruct (quiet_not_spawn es Hq) as [Q1 Q2];
    destruct (ready_within w (port st) (waits st) POLL_ATTEMPTS);
    cbn -[ready_within]; eexists; eexists; (split; [reflexivity|]);
    cbn -[ready_within];
    rewrite ?He, <- ?app_assoc; cbn -[ready_within];
    (split; [assumption|]); (split; [assumption|]); (split; [assumption|]);
    (split; [reflexivity|]);
    rewrite ?existsb_app, ?Q1, ?Q2; cbn -[ready_within];
    rewrite ?existsb_app, ?Q1, ?Q2; cbn -[ready_within];
    repeat split; assumption.
Qed.

(** *** Startup *)

Ltac probe :=
  unfold bind at 1; rewrite isPortOpen_run; run.

Ltac launch w p :=
  unfold bind at 1;
  let st2 := fresh "st" in
  let es := fresh "es" in
  let E := fresh "E" in
  let Hp := fresh "Hp" in
  let Hpi := fresh "Hpi" in
  let Hb := fresh "Hb" in
  let He := fresh "He" in
  let Ht := fresh "Ht" in
  let Hsp := fresh "Hsp" in
  let Hs := fresh "Hs" in
  match goal with
  | |- context [launchGodotEditor w ?s] =>
      destruct (launchGodotEditor_run w s)
        as (st2 & es & E & Hp & Hpi & Hb & He & Ht & Hsp & Hs)
  end;
  cbn [port waits spawnedGodotProcess piped buffer effects initial record]
    in E, Hp, Hpi, Hb, He, Hs;
  rewrite E; rewrite launch_succeeds_eq;
  destruct (launchable w); cbn [andb] in *;
  [destruct (ready_within w p O POLL_ATTEMPTS)|]; run;
  eexists; (split; [reflexivity|]); cbn;
  rewrite ?He, ?existsb_app, ?Ht, ?Hsp; cbn;
  repeat split; assumption.

(** [main] reaches [socket.connect] when a server answers or can be
    launched, and exits with code 1 otherwise.  It spawns a process
    exactly when nothing answers and executable and project are found,
    and never terminates one. *)
Lemma main_run (w : World) (p : N) :
  exists st,
    main w (initial p)
    = ((if already_running w p || launch_succeeds w p
        then Ret tt else Exited 1), st)
    /\ piped st = false
    /\ buffer st = []
    /\ existsb is_termination (effects st) = false
    /\ existsb is_spawn (effects st)
       = negb (already_running w p) && launchable w
    /\ spawnedGodotProcess st
       = if negb (already_running w p) && launchable w
         then Some (child_pid w) else None.
Proof.
  unfold main, already_running, fallback. run. probe.
  destruct (answers w O p) eqn:A; run.
  - eexists. split; [reflexivity|]. now repeat split.
  - destruct (p =? 6005) eqn:E5; run.
    + probe. destruct (answers w O 6008) eqn:A8; run.
      * eexists. split; [reflexivity|]. now repeat split.
      * launch w p.
    + destruct (p =? 6008) eqn:E8; run.
      * probe. destruct (answers w O 6005) eqn:A5; run.
        -- eexists. split; [reflexivity|]. now repeat split.
        -- launch w p.
      * launch w p.
Qed.

(** *** Listeners *)

(** [cleanup] ends the socket, attempts the termination when a process
    reference is held, and exits with code 0 whether or not the attempt
    throws. *)
Lemma cleanup_run (w : World) (st : State) :
  cleanup w st
  = (Exited 0,
     record (expected_cleanup (platform w) (spawnedGodotProcess st)) st).
Proof.
  unfold cleanup, expected_cleanup, termination, record.
  unfold try_ignore, bind, emit, log, get, ask, exit, ret. cbn.
  destruct (spawnedGodotProcess st) as [pid|]; cbn.
  - destruct (isWindows (platform w)); cbn;
      destruct (kill_throws w); cbn;
      rewrite <- !app_assoc; reflexivity.
  - rewrite <- !app_assoc. reflexivity.
Qed.

(** The listeners of the earlier script end the socket and exit; they attempt
    no termination. *)
Lemma legacy_signal_run (w : World) (st : State) :
  Legacy.on_signal w st = (Exited 0, record [SocketEnd; Exit 0] st).
Proof.
  unfold Legacy.on_signal, record. cbn. now rewrite <- app_assoc.
Qed.

Lemma write_all_run (chunks : list Buffer) (w : World) (st : State) :
  write_all chunks w st = (Ret tt, record (map SocketWrite chunks) st).
Proof.
  revert st; induction chunks as [|c chunks IH]; intros st.
  - cbn. now rewrite record_nil.
  - cbn [write_all map]. unfold bind at 1. cbn [emit].
    rewrite IH. unfold record. cbn. now rewrite <- app_assoc.
Qed.

Lemma writes_quiet (chunks : list Buffer) :
  forallb is_quiet (map SocketWrite chunks) = true.
Proof. induction chunks; [reflexivity|exact IHchunks]. Qed.

(** A listener never spawns; it is quiet unless it ends the session; and it
    attempts no termination when no process reference is held. *)
Lemma on_event_run (e : Event) (w : World) (st : State) :
  exists st' es,
    on_event e w st = (ending [e], st')
    /\ spawnedGodotProcess st' = spawnedGodotProcess st
    /\ effects st' = effects st ++ es
    /\ existsb is_spawn es = false
    /\ (first_ending [e] = None -> forallb is_quiet es = true)
    /\ (spawnedGodotProcess st = None -> existsb is_termination es = false).
Proof.
  destruct e as [|bytes| | |chunk|s]; unfold ending.
  - cbn. eexists; eexists. split; [reflexivity|]. cbn.
    rewrite <- !app_assoc. now repeat split.
  - cbn. eexists; eexists. split; [reflexivity|]. now repeat split.
  - cbn. eexists; eexists. split; [reflexivity|]. cbn.
    rewrite <- !app_assoc. repeat split; try reflexivity. discriminate.
  - cbn. eexists; eexists. split; [reflexivity|].
    repeat split; try reflexivity. discriminate.
  - unfold on_event. run. destruct (piped st); run.
    + destruct (transform (buffer st) chunk) as [pushed b'].
      unfold bind at 1. cbn [set_buffer].
      rewrite write_all_run. eexists; eexists.
      split; [reflexivity|]. cbn.
      pose proof (writes_quiet pushed) as Q.
      destruct (quiet_not_spawn _ Q) as [Q1 Q2].
      now repeat split.
    + exists st, []. cbn. rewrite app_nil_r. now repeat split.
  - cbn [on_event first_ending]. rewrite cleanup_run.
    eexists; eexists. split; [reflexivity|]. cbn [record effects
      spawnedGodotProcess]. unfold expected_cleanup, termination.
    repeat split.
    + now destruct (spawnedGodotProcess st), (isWindows (platform w)).
    + discriminate.
    + now intros ->.
Qed.

Lemma first_ending_cons (e : Event) (events : list Event) :
  first_ending (e :: events)
  = match first_ending [e] with
    | Some c => Some c
    | None => first_ending events
    end.
Proof. now destruct e. Qed.

Lemma react_run (events : list Event) :
  forall (w : World) (st : State),
  exists st' es,
    react events w st = (ending events, st')
    /\ spawnedGodotProcess st' = spawnedGodotProcess st
    /\ effects st' = effects st ++ es
    /\ existsb is_spawn es = false
    /\ (first_ending events = None -> forallb is_quiet es = true)
    /\ (spawnedGodotProcess st = None -> existsb is_termination es = false).
Proof.
  induction events as [|e events IH]; intros w st.
  - exists st, []. cbn. rewrite app_nil_r. now repeat split.
  - cbn [react]. unfold bind at 1.
    destruct (on_event_run e w st) as (st1 & es1 & E1 & S1 & F1 & P1 & Q1 & T1).
    rewrite E1. unfold ending in *. rewrite (first_ending_cons e events).
    destruct (first_ending [e]) as [c|].
    + exists st1, es1.
      split; [reflexivity|]. split; [assumption|]. split; [assumption|].
      split; [assumption|]. split; [discriminate|assumption].
    + destruct (IH w st1) as (st2 & es2 & E2 & S2 & F2 & P2 & Q2 & T2).
      rewrite E2. exists st2, (es1 ++ es2).
      split; [reflexivity|].
      split; [congruence|].
      split; [now rewrite F2, F1, app_assoc|].
      split; [now rewrite existsb_app, P1, P2|].
      split.
      * intros N. rewrite forallb_app, (Q1 eq_refl), (Q2 N). reflexivity.
      * intros N. rewrite existsb_app, (T1 N), T2; [reflexivity|congruence].
Qed.

Lemma react_app (a b : list Event) (w : World) (st : State) :
  react (a ++ b) w st
  = match react a w st with
    | (Ret _, st') => react b w st'
    | r => r
    end.
Proof.
  revert st; induction a as [|e a IH]; intros st; [reflexivity|].
  cbn [app react]. unfold bind.
  destruct (on_event e w st) as [[[]| | |] st1]; try reflexivity.
  apply IH.
Qed.

(** *** Sessions *)

Lemma session_unfold (w : World) (p : N) (events : list Event) :
  session w p events
  = match main w (initial p) with
    | (Ret _, st) => react events w st
    | (Throw, st) => (Exited 1, record [Log FatalError; Exit 1] st)
    | r => r
    end.
Proof.
  unfold session, catch_fatal. unfold bind at 1.
  destruct (main w (initial p)) as [[[]| | |] st]; try reflexivity.
  cbn. unfold record. cbn. now rewrite <- app_assoc.
Qed.

Lemma session_app (w : World) (p : N) (a b : list Event) :
  session w p (a ++ b)
  = match session w p a with
    | (Ret _, st) => react b w st
    | r => r
    end.
Proof.
  rewrite !session_unfold.
  destruct (main w (initial p)) as [[[]| | |] st]; try reflexivity.
  apply react_app.
Qed.

(** *** The earlier script *)

Lemma legacy_react_app (a b : list Event) (w : World) (st : State) :
  Legacy.react (a ++ b) w st
  = match Legacy.react a w st with
    | (Ret _, st') => Legacy.react b w st'
    | r => r
    end.
Proof.
  revert st; induction a as [|e a IH]; intros st; [reflexivity|].
  cbn [app Legacy.react]. unfold bind.
  destruct (Legacy.on_event e w st) as [[[]| | |] st1]; try reflexivity.
  apply IH.
Qed.

Lemma legacy_session_app (w : World) (p : N) (a b : list Event) :
  Legacy.session w p (a ++ b)
  = match Legacy.session w p a with
    | (Ret _, st) => Legacy.react b w st
    | r => r
    end.
Proof.
  unfold Legacy.session, bind.
  destruct (catch_fatal Legacy.main w (initial p)) as [[[]| | |] st];
    try reflexivity.
  apply legacy_react_app.
Qed.

End BridgeFacts.

(** ** The interceptor inside the session; prober, poller, orchestrator *)

Section BridgeClaims.
Import JsString Utf8 Interceptor Frame Examples Bridge.
Local Open Scope N_scope.

Lemma logged_after_termination_app (l m : list Effect) :
  existsb is_termination l = false ->
  logged_after_termination (l ++ m) = logged_after_termination m.
Proof.
  induction l as [|e l IH]; intros H; [reflexivity|].
  cbn [existsb] in H. apply orb_false_iff in H as [He Hl].
  cbn [app logged_after_termination]. rewrite He. now apply IH.
Qed.

Lemma cleanup_not_logged (os : Platform) (spawned : option N) :
  logged_after_termination (expected_cleanup os spawned) = false.
Proof.
  unfold expected_cleanup, termination.
  now destruct spawned, (isWindows os).
Qed.

Lemma quiet_no_termination (es : list Effect) :
  forallb is_quiet es = true -> existsb is_termination es = false.
Proof. intros H. now apply quiet_not_spawn. Qed.

Lemma ending_running (events : list Event) :
  ending events = Ret tt -> first_ending events = None.
Proof. unfold ending. now destruct (first_ending events). Qed.

(** A session that is still running has returned from [main] and served
    only quiet events; it holds a process reference exactly when it
    spawned one. *)
Lemma running_session (w : World) (p : N) (events : list Event) :
  fst (session w p events) = Ret tt ->
  first_ending events = None
  /\ existsb is_termination (effects (snd (session w p events))) = false
  /\ existsb is_spawn (effects (snd (session w p events)))
     = negb (already_running w p) && launchable w
  /\ spawnedGodotProcess (snd (session w p events))
     = if negb (already_running w p) && launchable w
       then Some (child_pid w) else None.
Proof.
  rewrite session_unfold.
  destruct (main_run w p) as (st0 & E & _ & _ & T0 & S0 & P0).
  rewrite E.
  destruct (already_running w p || launch_succeeds w p); [|discriminate].
  destruct (react_run events w st0) as (st & es & E1 & S1 & F1 & P1 & Q1 & _).
  rewrite E1. cbn [fst snd]. intros R.
  apply ending_running in R. split; [exact R|].
  destruct (quiet_not_spawn es (Q1 R)) as [_ Q2].
  rewrite F1, !existsb_app, T0, S0, P1, Q2, S1, P0.
  rewrite ?orb_false_r. repeat split; reflexivity.
Qed.

(** C4, as the code has it.  In the later script, once [main] has
    registered [cleanup] as the listener of both signals, a termination
    signal reaching the running session makes [cleanup] end the socket,
    attempt to terminate the spawned process when the session spawned one
    ([taskkill] on Windows, [kill] elsewhere), attempt nothing when it
    spawned none, and exit with code 0.  What it does is the same whether
    or not the attempt throws: the exception is swallowed, and nothing is
    written to the diagnostics after the attempt.  In the earlier script
    the listeners of the signals end the socket and exit with code 0, and
    attempt no termination. *)
Theorem signal_terminates_spawned (w : World) (p : N)
        (before after : list Event) (s : Signal) :
  (fst (session w p before) = Ret tt ->
   let st := snd (session w p before) in
   let r := session w p (before ++ Signalled s :: after) in
   fst r = Exited 0
   /\ trace r
      = effects st ++ expected_cleanup (platform w) (spawnedGodotProcess st)
   /\ (existsb is_spawn (effects st) = true ->
       spawnedGodotProcess st = Some (child_pid w)
       /\ In (termination (platform w) (child_pid w)) (trace r))
   /\ (existsb is_spawn (effects st) = false ->
       spawnedGodotProcess st = None
       /\ existsb is_termination (trace r) = false)
   /\ logged_after_termination (trace r) = false)
  /\ (fst (Legacy.session w p before) = Ret tt ->
      let r := Legacy.session w p (before ++ Signalled s :: after) in
      fst r = Exited 0
      /\ trace r = trace (Legacy.session w p before) ++ [SocketEnd; Exit 0]).
Proof.
  split.
  - intros R st r.
    destruct (running_session w p before R) as (N & T & S & P).
    fold st in T, S, P.
    assert (E : r = (Exited 0,
                     record (expected_cleanup (platform w)
                                              (spawnedGodotProcess st)) st)).
    { unfold r. rewrite session_app.
      destruct (session w p before) as [o st'] eqn:Es.
      cbn [fst snd] in R, st. subst o st.
      cbn [react]. unfold bind. cbn [on_event]. now rewrite cleanup_run. }
    assert (Tr : trace r
                 = effects st
                   ++ expected_cleanup (platform w) (spawnedGodotProcess st)).
    { now rewrite E. }
    split; [now rewrite E|]. split; [exact Tr|].
    rewrite Tr. split; [|split].
    + intros Sp. rewrite S in Sp. rewrite Sp in P. split; [exact P|].
      rewrite P. apply in_or_app. right.
      unfold expected_cleanup. cbn. auto.
    + intros Sp. rewrite S in Sp. rewrite Sp in P. split; [exact P|].
      rewrite P, existsb_app, T. reflexivity.
    + rewrite logged_after_termination_app by assumption.
      apply cleanup_not_logged.
  - intros R r. unfold r. rewrite legacy_session_app.
    destruct (Legacy.session w p before) as [o st]. cbn [fst] in R. subst o.
    cbn [Legacy.react]. unfold bind. cbn [Legacy.on_event].
    rewrite legacy_signal_run. split; reflexivity.
Qed.

Lemma signal_terminates_spawned_witness :
  (fst (session stubborn 6005 [SocketConnected; Signalled SIGINT; SocketClosed])
   = Exited 0
   /\ In (TaskKill 4242)
         (trace (session stubborn 6005
                         [SocketConnected; Signalled SIGINT; SocketClosed])))
  /\ fst (Legacy.session stubborn 6005
                         [SocketConnected; Signalled SIGINT; SocketClosed])
     = Exited 0.
Proof.
  destruct (signal_terminates_spawned stubborn 6005 [SocketConnected]
                                      [SocketClosed] SIGINT)
    as [H L].
  destruct (H eq_refl) as (H1 & _ & H2 & _).
  destruct (L eq_refl) as (L1 & _).
  split; [split; [exact H1|]|exact L1]. apply H2. reflexivity.
Defined.

(** C4, as stated, fails, in three ways.  On this machine [taskkill]
    throws: the session attempts the termination, writes nothing about its
    failure, and its diagnostics are those of a session in which the kill
    succeeds.  A signal that arrives during the first polling wait, effect
    number 10 of the session, finds no listener: the process it has spawned
    is not terminated.  And a session of the earlier script that has
    spawned a process exits at the signal without attempting to terminate
    it. *)
Lemma termination_unlogged_or_unattempted :
  (let events := [SocketConnected; Signalled SIGTERM] in
   kill_throws stubborn = true
   /\ existsb is_termination (trace (session stubborn 6005 events)) = true
   /\ logged_after_termination (trace (session stubborn 6005 events)) = false
   /\ filter is_log (trace (session stubborn 6005 events))
      = filter is_log
          (trace (session (with_kill_throws false stubborn) 6005 events)))
  /\ (nth_error (trace (session stubborn 6005 [])) 10 = Some (Sleep 500)
      /\ option_map (existsb is_spawn) (interrupted stubborn 6005 10)
         = Some true
      /\ option_map (existsb is_termination) (interrupted stubborn 6005 10)
         = Some false)
  /\ (let r := Legacy.session stubborn 6005
                              [SocketConnected; Signalled SIGTERM] in
      fst r = Exited 0
      /\ existsb is_spawn (trace r) = true
      /\ existsb is_termination (trace r) = false).
Proof.
  cbv zeta. split; [|split].
  - split; [reflexivity|].
    split; [vm_compute; reflexivity|].
    split; vm_compute; reflexivity.
  - split; [vm_compute; reflexivity|].
    split; vm_compute; reflexivity.
  - split; [vm_compute; reflexivity|].
    split; vm_compute; reflexivity.
Qed.

(** C5.  When the configured endpoint, or its fallback, answers at startup,
    the session spawns no process, holds no process reference, and its
    cleanup attempts no termination, whatever events it then serves. *)
Theorem reachable_endpoint_never_launches (w : World) (p : N)
        (events : list Event) :
  already_running w p = true ->
  existsb is_spawn (trace (session w p events)) = false
  /\ existsb is_termination (trace (session w p events)) = false
  /\ spawnedGodotProcess (snd (session w p events)) = None.
Proof.
  intros A. unfold trace. rewrite session_unfold.
  destruct (main_run w p) as (st0 & E & _ & _ & T0 & S0 & P0).
  rewrite E, A in *. cbn [orb negb andb] in *.
  destruct (react_run events w st0) as (st & es & E1 & S1 & F1 & P1 & _ & T1).
  rewrite E1. cbn [snd].
  rewrite F1, !existsb_app, T0, S0, P1, S1, P0, (T1 P0).
  now repeat split.
Qed.

Lemma reachable_endpoint_never_launches_witness :
  existsb is_spawn
    (trace (session attached 6005 [SocketConnected; Signalled SIGTERM])) = false
  /\ existsb is_termination
       (trace (session attached 6005 [SocketConnected; Signalled SIGTERM])) = false
  /\ spawnedGodotProcess
       (snd (session attached 6005 [SocketConnected; Signalled SIGTERM])) = None.
Proof.
  apply (reachable_endpoint_never_launches attached 6005); reflexivity.
Defined.




(** C7.  When the buffered bytes hold no length declaration, or no blank
    line, the transform pushes nothing and keeps every byte, old and new,
    in its buffer; in the session that chunk of standard input causes no
    write, no exit and no other effect. *)
Theorem incomplete_header_waits (held chunk : Buffer) :
  match_content_length (utf8_decode (held ++ chunk)) = None
  \/ index_of (text CRLFCRLF) (utf8_decode (held ++ chunk)) = None ->
  transform held chunk = ([], held ++ chunk)
  /\ forall (w : World) (st : State),
       piped st = true -> buffer st = held ->
       fst (on_event (StdinData chunk) w st) = Ret tt
       /\ effects (snd (on_event (StdinData chunk) w st)) = effects st
       /\ buffer (snd (on_event (StdinData chunk) w st)) = held ++ chunk.
Proof.
  intros H.
  assert (B : frame_step (held ++ chunk) = None).
  { unfold frame_step. destruct H as [H|H]; rewrite H; [reflexivity|].
    now destruct (match_content_length (utf8_decode (held ++ chunk))). }
  assert (T : transform held chunk = ([], held ++ chunk)).
  { unfold transform. now apply drain_break. }
  split; [exact T|].
  intros w st Hp Hb. unfold on_event, bind, get.
  rewrite Hp, Hb, T. cbn. now repeat split.
Qed.

Lemma incomplete_header_waits_witness :
  transform (firstn 10 (encode plain)) (firstn 5 (skipn 10 (encode plain)))
  = ([], firstn 10 (encode plain) ++ firstn 5 (skipn 10 (encode plain))).
Proof.
  apply (incomplete_header_waits (firstn 10 (encode plain))
                                 (firstn 5 (skipn 10 (encode plain)))).
  left. reflexivity.
Defined.

Lemma listeners_close_socket (es : list Prober.ProbeEvent) :
  Prober.closed_when_resolved true (flat_map Prober.listener es) = true.
Proof. induction es as [|e es IH]; [reflexivity|]. now destruct e. Qed.

(** The executor of a probe of a port that [connect] takes leaves a socket
    with its timer armed and its connection under way, and the promise
    unsettled. *)
Lemma executor_started (p : N) (h : string) (timeout : N) :
  p <= Prober.MAX_PORT ->
  Prober.executor p h timeout
  = {| Prober.socket :=
         Some {| Prober.timer := if timeout =? 0 then None else Some timeout;
                 Prober.peer := Some (p, h);
                 Prober.destroyed := false |};
       Prober.promise := Prober.Unsettled |}.
Proof.
  intros Hp. unfold Prober.executor, Prober.start.
  cbn [Prober.run Prober.perform Prober.unstarted Prober.socket
       Prober.promise Prober.timer Prober.peer Prober.destroyed].
  replace (p <=? Prober.MAX_PORT) with true
    by (symmetry; now apply N.leb_le).
  reflexivity.
Qed.

(** C8, as the code has it.  For every endpoint whose port [connect] takes
    (0 to 65535) and every timeout above 0, awaiting the probe gives a
    boolean and no exception: [true] when the connection completes before
    the timeout, [false] when it fails or the timeout comes first, never
    later than the timeout, so a closed port gives [false] in time.
    Whichever event comes first, its listener destroys the socket before
    it resolves the promise, the promise keeps the value of that first
    event, and the destroyed socket emits nothing more.  This is the value
    the orchestrator's probe takes. *)
Theorem prober_resolves (p : N) (h : string) (timeout : N)
        (net : Prober.Network) :
  p <= 65535 -> 0 < timeout ->
  Prober.await p h timeout net
  = match net with
    | Prober.Accepts t => Prober.Value (t <? timeout) (N.min t timeout)
    | Prober.Refuses t => Prober.Value false (N.min t timeout)
    | Prober.Silent => Prober.Value false timeout
    end
  /\ (forall open elapsed,
        Prober.await p h timeout net = Prober.Value open elapsed ->
        elapsed <= timeout)
  /\ (forall (e : Prober.ProbeEvent) (es : list Prober.ProbeEvent),
        Prober.settled (Prober.actions p h timeout (e :: es))
        = Some (match e with Prober.OnConnect => true | _ => false end)
        /\ Prober.closed_when_resolved false
             (Prober.actions p h timeout (e :: es)) = true)
  /\ (forall e : Prober.ProbeEvent,
        Prober.handle e (Prober.executor p h timeout)
        = {| Prober.socket :=
               Some {| Prober.timer := None; Prober.peer := None;
                       Prober.destroyed := true |};
             Prober.promise :=
               Prober.Resolved
                 (match e with Prober.OnConnect => true | _ => false end) |})
  /\ (forall (s : Prober.Socket) (net' : Prober.Network),
        Prober.destroyed s = true -> Prober.next_event s net' = None)
  /\ Prober.isPortOpen p h timeout net
     = match Prober.await p h timeout net with
       | Prober.Value open elapsed => Some (open, elapsed)
       | _ => None
       end.
Proof.
  intros Hp Hpos.
  assert (Z : (timeout =? 0) = false) by (apply N.eqb_neq; lia).
  pose proof (executor_started p h timeout Hp) as X. rewrite Z in X.
  assert (E : Prober.await p h timeout net
              = match net with
                | Prober.Accepts t =>
                    Prober.Value (t <? timeout) (N.min t timeout)
                | Prober.Refuses t => Prober.Value false (N.min t timeout)
                | Prober.Silent => Prober.Value false timeout
                end).
  { unfold Prober.await. rewrite X.
    cbn [Prober.promise Prober.socket Prober.next_event Prober.destroyed
         Prober.peer Prober.timer].
    destruct net as [t|t|]; [| |reflexivity];
      destruct (N.ltb_spec t timeout) as [L|L];
      (rewrite N.min_l by lia) || (rewrite N.min_r by lia); reflexivity. }
  split; [exact E|]. split; [|split; [|split; [|split]]].
  - intros open elapsed H. rewrite E in H.
    destruct net as [t|t|]; injection H as _ <-; lia.
  - intros e es. unfold Prober.actions. split.
    + now destruct e.
    + destruct e; cbn; apply listeners_close_socket.
  - intros e. rewrite X. now destruct e.
  - intros s net' D. unfold Prober.next_event. now rewrite D.
  - rewrite E. unfold Prober.isPortOpen, Prober.first_event. rewrite Z.
    destruct net as [t|t|]; cbn [orb]; [| |reflexivity];
      destruct (N.ltb_spec t timeout) as [L|L]; cbn;
      (rewrite N.min_l by lia) || (rewrite N.min_r by lia); reflexivity.
Qed.

Lemma prober_resolves_witness :
  Prober.await 6005 "127.0.0.1" 1000 (Prober.Refuses 1) = Prober.Value false 1
  /\ Prober.await 6005 "127.0.0.1" 1000 Prober.Silent = Prober.Value false 1000
  /\ Prober.await 6005 "127.0.0.1" 1000 (Prober.Accepts 3) = Prober.Value true 3.
Proof.
  split; [|split].
  - apply (prober_resolves 6005 "127.0.0.1" 1000 (Prober.Refuses 1)); lia.
  - apply (prober_resolves 6005 "127.0.0.1" 1000 Prober.Silent); lia.
  - apply (prober_resolves 6005 "127.0.0.1" 1000 (Prober.Accepts 3)); lia.
Defined.

(** C8, as stated, fails.  Given the port 70000 [connect] throws inside the
    executor, and the promise is rejected: the probe throws.  With the
    timeout 0 [setTimeout] arms no timer: where nothing comes back the
    promise is never settled, and where the connection is refused after 5
    the probe resolves then, later than its timeout. *)
Lemma prober_rejects_or_hangs :
  Prober.await 70000 "127.0.0.1" 1000 (Prober.Accepts 1) = Prober.Exception
  /\ Prober.await 6005 "127.0.0.1" 0 Prober.Silent = Prober.Never
  /\ Prober.await 6005 "127.0.0.1" 0 (Prober.Refuses 5) = Prober.Value false 5.
Proof. repeat split. Qed.

Lemma expected_poll_sleeps (p : N) (k i : nat) :
  filter is_sleep (expected_poll p k i) = repeat (Sleep POLL_INTERVAL) k.
Proof.
  revert i; induction k as [|k IH]; intros i; [reflexivity|].
  destruct k as [|k]; [reflexivity|].
  change (expected_poll p (S (S k)) i)
    with ([Sleep POLL_INTERVAL; Probed p false]
            ++ (if Nat.eqb (Nat.modulo (i + 1) 10) 0
                then [Log (StillWaiting (Nat.div (i + 1) 2))] else [])
            ++ expected_poll p (S k) (S i)).
  rewrite !filter_app, IH.
  now destruct (Nat.eqb (Nat.modulo (i + 1) 10) 0).
Qed.

(** C9.  The polling loop waits one interval of 500 before every probe and
    makes at most [bound] attempts, 60 by default, that is 30 seconds of
    waiting (40 and 20 seconds in the earlier script).  If the port first
    answers at attempt [k], within the bound, the loop returns success
    after exactly [k] probes and [k] waits, having written one progress
    line after each tenth unanswered attempt. *)
Theorem readiness_after_k_attempts (w : World) (st : State) (bound k : nat) :
  (1 <= k <= bound)%nat ->
  (forall j, (1 <= j < k)%nat -> answers w (waits st + j) (port st) = false) ->
  answers w (waits st + k) (port st) = true ->
  let r := waitForLsp bound 0 w st in
  let done := expected_poll (port st) k 0 in
  fst r = Ret true
  /\ effects (snd r) = effects st ++ done
  /\ count is_probe done = k
  /\ filter is_sleep done = repeat (Sleep 500) k
  /\ filter is_progress done
     = map (fun m => Log (StillWaiting (5 * m)))
           (seq 1 (Nat.div (k - 1) 10))
  /\ N.of_nat POLL_ATTEMPTS * POLL_INTERVAL = 30000
  /\ N.of_nat Legacy.POLL_ATTEMPTS * POLL_INTERVAL = 20000.
Proof.
  intros Hk Hbefore Hat r done.
  unfold r. rewrite (waitForLsp_first_answer k bound 0 w st Hk Hbefore Hat).
  cbn [fst snd effects].
  split; [reflexivity|]. split; [reflexivity|].
  split; [apply expected_poll_probes|].
  split; [apply expected_poll_sleeps|].
  split; [|split; reflexivity].
  unfold done. rewrite expected_poll_progress by lia.
  cbn [Nat.div Nat.add]. rewrite Nat.sub_0_r.
  replace (0 + k - 1)%nat with (k - 1)%nat by lia.
  reflexivity.
Qed.

Lemma readiness_after_k_attempts_witness :
  fst (waitForLsp 60 0 stubborn (initial 6005)) = Ret true
  /\ count is_probe (effects (snd (waitForLsp 60 0 stubborn (initial 6005)))) = 2%nat.
Proof.
  destruct (readiness_after_k_attempts stubborn (initial 6005) 60 2)
    as (H1 & H2 & H3 & _).
  - lia.
  - intros j Hj. assert (j = 1%nat) by lia. subst j. reflexivity.
  - reflexivity.
  - split; [exact H1|]. rewrite H2. exact H3.
Defined.

End BridgeClaims.

(** ** The trace of a session *)

Section SessionFacts.
Import JsString Utf8 Interceptor Frame Examples Bridge.
Local Open Scope N_scope.

Ltac steps :=
  repeat first
    [ rewrite bind_assoc_run
    | progress (cbn -[waitForLsp POLL_ATTEMPTS ready_within isPortOpen
                      launchGodotEditor answers cleanup transform
                      poll_trace poll_waits launch_trace startup_trace
                      Nat.modulo Nat.div]) ].

(** The polling loop does what [poll_trace] lists. *)
Lemma waitForLsp_trace (n : nat) :
  forall (i : nat) (w : World) (st : State),
    waitForLsp n i w st
    = (Ret (ready_within w (port st) (waits st) n),
       {| port := port st; spawnedGodotProcess := spawnedGodotProcess st;
          waits := waits st + poll_waits w (port st) (waits st) n;
          piped := piped st; buffer := buffer st;
          effects := effects st ++ poll_trace w (port st) (waits st) n i |}).
Proof.
  induction n as [|n IH]; intros i w st.
  - cbn. rewrite Nat.add_0_r, app_nil_r. now destruct st.
  - rewrite waitForLsp_turn. steps.
    unfold bind at 1. rewrite isPortOpen_run. steps.
    cbn [ready_within poll_trace poll_waits].
    destruct (answers w (S (waits st)) (port st)) eqn:A.
    + cbn. rewrite <- !app_assoc, Nat.add_1_r. reflexivity.
    + destruct (Nat.eqb (Nat.modulo (i + 1) 10) 0); steps;
        rewrite IH; steps; rewrite <- !app_assoc, (Nat.add_succ_r (waits st));
        reflexivity.
Qed.

(** A launch from a state in which no wait has been made yet. *)
Lemma launchGodotEditor_trace (w : World) (st : State) :
  waits st = O ->
  launchGodotEditor w st
  = (Ret (launchable w && ready_within w (port st) O POLL_ATTEMPTS),
     {| port := port st;
        spawnedGodotProcess :=
          if launchable w then Some (child_pid w) else spawnedGodotProcess st;
        waits := if launchable w then poll_waits w (port st) O POLL_ATTEMPTS
                 else O;
        piped := piped st; buffer := buffer st;
        effects := effects st ++ launch_trace w (port st) |}).
Proof.
  intros Hw.
  unfold launchGodotEditor, launchable, launch_trace, expected_spawn, spawn.
  steps.
  destruct (findGodot w) as [godot|];
    [|steps; rewrite <- !app_assoc, Hw; reflexivity].
  steps.
  destruct (findProjectFile w) as [project|];
    [|steps; rewrite <- !app_assoc, Hw; reflexivity].
  steps.
  destruct (isLinux (platform w) && negb (display w));
    [steps; destruct (xvfb_run w)|];
    steps; unfold bind at 1; rewrite waitForLsp_trace;
    cbn [port waits spawnedGodotProcess piped buffer effects];
    rewrite Hw;
    destruct (ready_within w (port st) O POLL_ATTEMPTS);
    steps; rewrite <- !app_assoc, ?app_nil_r; reflexivity.
Qed.

Ltac launching w p :=
  unfold bind at 1; rewrite launchGodotEditor_trace by reflexivity;
  rewrite launch_succeeds_eq;
  cbn [port waits spawnedGodotProcess piped buffer effects initial record];
  destruct (launchable w); cbn [andb negb];
  [destruct (ready_within w p O POLL_ATTEMPTS)|];
  steps; rewrite <- ?app_assoc; reflexivity.

(** [main] does what [startup_trace] lists and leaves [started] behind. *)
Lemma main_trace (w : World) (p : N) :
  main w (initial p)
  = ((if already_running w p || launch_succeeds w p
      then Ret tt else Exited 1), started w p).
Proof.
  unfold main, started, startup_trace, endpoint, already_running, fallback.
  steps. unfold bind at 1; rewrite isPortOpen_run; steps.
  destruct (answers w O p) eqn:A; steps; [reflexivity|].
  destruct (p =? 6005) eqn:E5; steps.
  - unfold bind at 1; rewrite isPortOpen_run; steps.
    destruct (answers w O 6008) eqn:A8; steps; [reflexivity|].
    launching w p.
  - destruct (p =? 6008) eqn:E8; steps.
    + unfold bind at 1; rewrite isPortOpen_run; steps.
      destruct (answers w O 6005) eqn:A5; steps; [reflexivity|].
      launching w p.
    + launching w p.
Qed.

Lemma session_trace (w : World) (p : N) (events : list Event) :
  session w p events
  = if already_running w p || launch_succeeds w p
    then react events w (started w p)
    else (Exited 1, started w p).
Proof.
  rewrite session_unfold, main_trace.
  now destruct (already_running w p || launch_succeeds w p).
Qed.

(** *** What the traces hold *)

Lemma filter_excluded {A} (f g : A -> bool) (l : list A) :
  (forall a, g a = true -> f a = false) ->
  forallb g l = true -> filter f l = [].
Proof.
  intros H. induction l as [|a l IH]; intros F; [reflexivity|].
  cbn [forallb] in F. apply andb_true_iff in F as [Fa Fl].
  cbn [filter]. now rewrite (H a Fa), IH.
Qed.

Lemma count_excluded (f g : Effect -> bool) (l : list Effect) :
  (forall a, g a = true -> f a = false) ->
  forallb g l = true -> count f l = O.
Proof. intros H F. unfold count. now rewrite (filter_excluded f g). Qed.

Lemma count_app (f : Effect -> bool) (l m : list Effect) :
  count f (l ++ m) = (count f l + count f m)%nat.
Proof. unfold count. now rewrite filter_app, length_app. Qed.

(** Every effect of the polling loop is a wait, a probe or a diagnostic; a
    launch adds the spawn and its [unref]; startup adds the connection and
    the exit. *)
Lemma poll_trace_all (g : Effect -> bool) (w : World) (p : N) (n : nat) :
  (forall m, g (Log m) = true) ->
  (forall q b, g (Probed q b) = true) ->
  (forall ms, g (Sleep ms) = true) ->
  forall from i, forallb g (poll_trace w p from n i) = true.
Proof.
  intros Hl Hp Hs.
  induction n as [|n IH]; intros from i; [reflexivity|].
  cbn [poll_trace forallb]. rewrite Hs, Hp. cbn [andb].
  destruct (answers w (S from) p); [cbn; now rewrite Hl|].
  rewrite forallb_app, IH.
  destruct (Nat.eqb (Nat.modulo (i + 1) 10) 0); cbn; now rewrite ?Hl.
Qed.

Lemma launch_trace_all (g : Effect -> bool) (w : World) (p : N) :
  (forall m, g (Log m) = true) ->
  (forall q b, g (Probed q b) = true) ->
  (forall ms, g (Sleep ms) = true) ->
  (forall c a, g (Spawn c a) = true) ->
  g Unref = true ->
  forallb g (launch_trace w p) = true.
Proof.
  intros Hl Hp Hs Hc Hu. unfold launch_trace, expected_spawn.
  destruct (findGodot w); [|cbn; now rewrite !Hl].
  destruct (findProjectFile w); [|cbn; now rewrite !Hl].
  rewrite !forallb_app, (poll_trace_all g w p _ Hl Hp Hs).
  destruct (isLinux (platform w) && negb (display w)), (xvfb_run w),
    (ready_within w p O POLL_ATTEMPTS); cbn; now rewrite ?Hl, ?Hc, ?Hu.
Qed.

Lemma startup_trace_all (g : Effect -> bool) (w : World) (p : N) :
  (forall m, g (Log m) = true) ->
  (forall q b, g (Probed q b) = true) ->
  (forall ms, g (Sleep ms) = true) ->
  (forall c a, g (Spawn c a) = true) ->
  g Unref = true ->
  (forall q h, g (SocketConnect q h) = true) ->
  (forall c, g (Exit c) = true) ->
  forallb g (startup_trace w p) = true.
Proof.
  intros Hl Hp Hs Hc Hu Hn He. unfold startup_trace.
  cbn [forallb]. rewrite Hp, !forallb_app. cbn [andb].
  assert (L : forallb g
                (if already_running w p then [] else launch_trace w p) = true).
  { destruct (already_running w p); [reflexivity|].
    now apply launch_trace_all. }
  rewrite L.
  destruct (answers w O p), (fallback p),
    (already_running w p || launch_succeeds w p); cbn;
    now rewrite ?Hl, ?Hp, ?Hn, ?He.
Qed.

(** The loop waits once before each probe, never more often than it has
    turns. *)
Lemma poll_trace_counts (w : World) (p : N) (n : nat) :
  forall from i,
    count is_sleep (poll_trace w p from n i) = poll_waits w p from n
    /\ count is_probe (poll_trace w p from n i) = poll_waits w p from n
    /\ (poll_waits w p from n <= n)%nat.
Proof.
  induction n as [|n IH]; intros from i; [now repeat split|].
  cbn [poll_trace poll_waits].
  destruct (answers w (S from) p).
  - repeat split. lia.
  - destruct (IH (S from) (S i)) as (I1 & I2 & I3).
    change (Sleep POLL_INTERVAL :: Probed p false :: ?l)
      with ([Sleep POLL_INTERVAL; Probed p false] ++ l).
    rewrite !count_app, I1, I2.
    destruct (Nat.eqb (Nat.modulo (i + 1) 10) 0); cbn; repeat split; lia.
Qed.

Ltac quotients x y :=
  let H1 := fresh in
  let H2 := fresh in
  pose proof (Nat.div_mod_eq x y) as H1;
  pose proof (Nat.mod_upper_bound x y ltac:(lia)) as H2;
  generalize dependent (Nat.div x y);
  generalize dependent (Nat.modulo x y); intros.

(** A loop that is never answered uses all its turns and reports after
    every tenth one. *)
Lemma poll_trace_unanswered (w : World) (p : N) (n : nat) :
  forall from i,
    ready_within w p from n = false ->
    poll_waits w p from n = n
    /\ filter is_progress (poll_trace w p from n i)
       = map (fun m => Log (StillWaiting (5 * m)))
             (seq (S (Nat.div i 10))
                  (Nat.div (i + n) 10 - Nat.div i 10)).
Proof.
  induction n as [|n IH]; intros from i R.
  - rewrite Nat.add_0_r, Nat.sub_diag. now split.
  - cbn [ready_within] in R. apply orb_false_iff in R as [A R].
    cbn [poll_trace poll_waits]. rewrite A.
    destruct (IH (S from) (S i) R) as [I1 I2]. rewrite I1.
    split; [reflexivity|].
    cbn [filter is_progress]. rewrite filter_app, I2.
    replace (S i + n)%nat with (i + S n)%nat by lia.
    replace (S i) with (i + 1)%nat by lia.
    destruct (Nat.eqb_spec (Nat.modulo (i + 1) 10) 0) as [E|E].
    + assert (Q : Nat.div (i + 1) 2 = (5 * Nat.div (i + 1) 10)%nat
                  /\ S (Nat.div i 10) = Nat.div (i + 1) 10
                  /\ (Nat.div (i + 1) 10 <= Nat.div (i + S n) 10)%nat).
      { quotients (i + S n)%nat 10%nat.
        quotients (i + 1)%nat 10%nat. quotients (i + 1)%nat 2%nat.
        quotients i 10%nat. lia. }
      destruct Q as (Q1 & Q2 & Q3).
      cbn [filter is_progress app]. rewrite Q1, Q2.
      replace (Nat.div (i + S n) 10 - Nat.div i 10)%nat
        with (S (Nat.div (i + S n) 10 - Nat.div (i + 1) 10)) by lia.
      reflexivity.
    + assert (Q : Nat.div (i + 1) 10 = Nat.div i 10).
      { quotients (i + 1)%nat 10%nat. quotients i 10%nat. lia. }
      cbn [filter is_progress app]. now rewrite Q.
Qed.

(** *** Listeners *)

Lemma on_event_served (e : Event) (w : World) (st : State) :
  exists es,
    effects (snd (on_event e w st)) = effects st ++ es
    /\ forallb is_served es = true.
Proof.
  destruct e as [|bytes| | |chunk|s].
  - cbn. eexists. rewrite <- !app_assoc. now split.
  - cbn. eexists. now split.
  - cbn. eexists. rewrite <- !app_assoc. now split.
  - cbn. eexists. now split.
  - unfold on_event. steps. destruct (piped st); steps.
    + destruct (transform (buffer st) chunk) as [pushed b'].
      unfold bind at 1. cbn [set_buffer]. rewrite write_all_run.
      eexists. split; [reflexivity|].
      clear. induction pushed; [reflexivity|assumption].
    + exists []. now rewrite app_nil_r.
  - cbn [on_event]. rewrite cleanup_run. eexists. split; [reflexivity|].
    unfold expected_cleanup, termination.
    now destruct (spawnedGodotProcess st), (isWindows (platform w)).
Qed.

Lemma react_served (events : list Event) :
  forall (w : World) (st : State),
  exists es,
    effects (snd (react events w st)) = effects st ++ es
    /\ forallb is_served es = true.
Proof.
  induction events as [|e events IH]; intros w st.
  - exists []. cbn. now rewrite app_nil_r.
  - cbn [react]. unfold bind at 1.
    destruct (on_event_served e w st) as (es1 & F1 & Q1).
    destruct (on_event e w st) as [[[]| | |] st1]; cbn [snd] in F1 |- *;
      try (exists es1; now split).
    destruct (IH w st1) as (es2 & F2 & Q2).
    exists (es1 ++ es2). rewrite F2, F1, app_assoc, forallb_app, Q1, Q2.
    now split.
Qed.

(** The trace of a session is the trace of startup followed by what the
    listeners did. *)
Lemma session_served (w : World) (p : N) (events : list Event) :
  exists es,
    trace (session w p events) = startup_trace w p ++ es
    /\ forallb is_served es = true.
Proof.
  rewrite session_trace. unfold trace.
  destruct (already_running w p || launch_succeeds w p).
  - apply (react_served events w (started w p)).
  - exists []. cbn. now rewrite app_nil_r.
Qed.

End SessionFacts.

(** ** Sessions: what is spawned, where the bridge connects, what flows *)

Section SessionTheorems.
Import JsString Utf8 Interceptor Frame Examples Bridge.
Local Open Scope N_scope.

Ltac steps :=
  repeat first
    [ rewrite bind_assoc_run
    | progress (cbn -[waitForLsp POLL_ATTEMPTS ready_within isPortOpen
                      launchGodotEditor answers cleanup transform feed
                      startup_trace started]) ].

Lemma launch_trace_count (f : Effect -> bool) (w : World) (p : N) :
  (forall m, f (Log m) = false) ->
  (forall c a, f (Spawn c a) = false) ->
  f Unref = false ->
  count f (launch_trace w p)
  = if launchable w then count f (poll_trace w p O POLL_ATTEMPTS 0) else O.
Proof.
  intros Hl Hc Hu. unfold launch_trace, launchable, expected_spawn.
  destruct (findGodot w); [|unfold count; cbn; now rewrite !Hl].
  destruct (findProjectFile w); [|unfold count; cbn; now rewrite !Hl].
  rewrite !count_app.
  assert (Z : forall l, forallb (fun e => negb (f e)) l = true ->
                        count f l = O).
  { intros l. apply count_excluded. intros a. now destruct (f a). }
  rewrite (Z [_; _; _; _; _]) by (cbn; now rewrite !Hl).
  rewrite (Z (if isLinux (platform w) && negb (display w) then _ else _))
    by (destruct (isLinux (platform w) && negb (display w)); cbn;
        now rewrite ?Hl).
  rewrite (Z [_; Unref; _])
    by (destruct (isLinux (platform w) && negb (display w) && xvfb_run w);
        cbn; now rewrite Hl, Hc, Hu).
  rewrite (Z (if ready_within w p O POLL_ATTEMPTS then _ else _))
    by (destruct (ready_within w p O POLL_ATTEMPTS); cbn; now rewrite ?Hl).
  lia.
Qed.

Lemma startup_trace_count (f : Effect -> bool) (w : World) (p : N) :
  (forall m, f (Log m) = false) ->
  (forall c a, f (Spawn c a) = false) ->
  f Unref = false ->
  (forall q h, f (SocketConnect q h) = false) ->
  (forall c, f (Exit c) = false) ->
  count f (startup_trace w p)
  = (count f (Probed p (answers w O p)
                :: (if answers w O p then []
                    else match fallback p with
                         | Some q => [Probed q (answers w O q)]
                         | None => []
                         end))
     + if negb (already_running w p) && launchable w
       then count f (poll_trace w p O POLL_ATTEMPTS 0) else O)%nat.
Proof.
  intros Hl Hc Hu Hn He. unfold startup_trace.
  change (?a :: ?l ++ ?m) with ((a :: l) ++ m).
  rewrite !count_app.
  replace (count f (if already_running w p || launch_succeeds w p
                    then _ else _)) with O
    by (destruct (already_running w p || launch_succeeds w p);
        unfold count; cbn; now rewrite ?Hl, ?Hn, ?He).
  destruct (already_running w p); cbn [negb andb];
    [reflexivity|].
  rewrite launch_trace_count by assumption. lia.
Qed.

Lemma startup_trace_spawns (w : World) (p : N) :
  filter is_spawn (startup_trace w p)
  = if already_running w p then []
    else match findGodot w, findProjectFile w with
         | Some godot, Some project => [expected_spawn w godot project p]
         | _, _ => []
         end.
Proof.
  assert (Z : forall l, forallb (fun e => negb (is_spawn e)) l = true ->
                        filter is_spawn l = []).
  { intros l. apply filter_excluded. intros a. now destruct (is_spawn a). }
  unfold startup_trace.
  change (?a :: ?l ++ ?m) with ((a :: l) ++ m).
  rewrite !filter_app.
  rewrite (Z (_ :: _))
    by now destruct (answers w O p), (fallback p).
  rewrite (Z (if already_running w p || launch_succeeds w p then _ else _))
    by now destruct (already_running w p || launch_succeeds w p).
  rewrite app_nil_r. cbn [app].
  destruct (already_running w p); [reflexivity|].
  unfold launch_trace.
  destruct (findGodot w) as [godot|]; [|reflexivity].
  destruct (findProjectFile w) as [project|]; [|reflexivity].
  rewrite !filter_app.
  rewrite (Z [_; _; _; _; _]) by reflexivity.
  rewrite (Z (if isLinux (platform w) && negb (display w) then _ else _))
    by now destruct (isLinux (platform w) && negb (display w)).
  rewrite (Z (poll_trace _ _ _ _ _)) by now apply poll_trace_all.
  rewrite (Z (if ready_within w p O POLL_ATTEMPTS then _ else _))
    by now destruct (ready_within w p O POLL_ATTEMPTS).
  unfold expected_spawn.
  now destruct (isLinux (platform w) && negb (display w) && xvfb_run w).
Qed.

Lemma served_not_spawn (es : list Effect) :
  forallb is_served es = true -> filter is_spawn es = [].
Proof. apply filter_excluded. now intros []. Qed.


(** X3.  A session calls [spawn] at most once, whatever comes after
    startup.  Take a port that [connect] takes (0 to 65535), and a startup
    at which no server answers and [findGodot] and [findProjectFile] each
    return a path that is not empty: then it calls [spawn] exactly once,
    for the editor with [--lsp-port] set to the configured port and
    [--path] to the project, run under [xvfb-run -a] on Linux without a
    display when [xvfb-run] is there, and directly otherwise. *)
Theorem spawns_once_for_configured_port
        (w : World) (p : N) (events : list Event) :
  (count is_spawn (trace (session w p events)) <= 1)%nat
  /\ forall godot project : string,
       p <= 65535 ->
       already_running w p = false ->
       findGodot w = Some godot -> godot <> EmptyString ->
       findProjectFile w = Some project -> project <> EmptyString ->
       filter is_spawn (trace (session w p events))
       = [expected_spawn w godot project p].
Proof.
  destruct (session_served w p events) as (es & T & Q).
  assert (E : filter is_spawn (trace (session w p events))
              = filter is_spawn (startup_trace w p)).
  { now rewrite T, filter_app, (served_not_spawn es Q), app_nil_r. }
  split.
  - unfold count. rewrite E, startup_trace_spawns.
    destruct (already_running w p); [cbn; lia|].
    destruct (findGodot w), (findProjectFile w); cbn; lia.
  - intros godot project _ R G _ P _.
    now rewrite E, startup_trace_spawns, R, G, P.
Qed.

Lemma spawns_once_for_configured_port_witness :
  filter is_spawn
         (trace (session stubborn 6005
                         [SocketConnected; Signalled SIGTERM]))
  = [Spawn "C:/Godot/godot.exe" (godotArgs 6005 "C:/game")].
Proof.
  apply (spawns_once_for_configured_port
           stubborn 6005 [SocketConnected; Signalled SIGTERM]);
    first [reflexivity | discriminate | lia].
Defined.


Lemma poll_trace_sleeps (w : World) (p : N) (n : nat) :
  forall from i,
    ready_within w p from n = false ->
    filter is_sleep (poll_trace w p from n i) = repeat (Sleep 500) n.
Proof.
  induction n as [|n IH]; intros from i R; [reflexivity|].
  cbn [ready_within] in R. apply orb_false_iff in R as [A R].
  cbn [poll_trace]. rewrite A. cbn [filter is_sleep repeat].
  change (Sleep 500) with (Sleep POLL_INTERVAL). f_equal.
  rewrite filter_app, (IH _ _ R).
  now destruct (Nat.eqb (Nat.modulo (i + 1) 10) 0).
Qed.

Lemma poll_trace_probes (w : World) (p : N) (n : nat) :
  forall from i,
    ready_within w p from n = false ->
    filter is_probe (poll_trace w p from n i) = repeat (Probed p false) n.
Proof.
  induction n as [|n IH]; intros from i R; [reflexivity|].
  cbn [ready_within] in R. apply orb_false_iff in R as [A R].
  cbn [poll_trace]. rewrite A. cbn [filter is_sleep is_probe repeat].
  f_equal. rewrite filter_app, (IH _ _ R).
  now destruct (Nat.eqb (Nat.modulo (i + 1) 10) 0).
Qed.

(** X5.  The polling loop gives up only at its bound.  Whenever the loop
    returns [false], the port has been answered at none of its [bound]
    attempts, and the loop has made exactly [bound] waits of 500 and
    [bound] probes, each of the configured port, and has written one
    progress line after every tenth attempt, for 5, 10, ... seconds; it has
    attempted no termination and left the process reference as it was.
    The bound is 60 in the later script (30 seconds, six lines) and 40 in
    the earlier one (20 seconds, four lines). *)
Theorem polling_gives_up_only_at_bound
        (w : World) (st : State) (bound : nat) :
  fst (waitForLsp bound 0 w st) = Ret false ->
  let r := waitForLsp bound 0 w st in
  let done := poll_trace w (port st) (waits st) bound 0 in
  ready_within w (port st) (waits st) bound = false
  /\ effects (snd r) = effects st ++ done
  /\ filter is_sleep done = repeat (Sleep 500) bound
  /\ filter is_probe done = repeat (Probed (port st) false) bound
  /\ filter is_progress done
     = map (fun m => Log (StillWaiting (5 * m))) (seq 1 (Nat.div bound 10))
  /\ existsb is_termination done = false
  /\ spawnedGodotProcess (snd r) = spawnedGodotProcess st
  /\ Nat.div POLL_ATTEMPTS 10 = 6%nat
  /\ Nat.div Legacy.POLL_ATTEMPTS 10 = 4%nat.
Proof.
  intros F r done. unfold r in *. rewrite waitForLsp_trace in *.
  cbn [fst snd effects spawnedGodotProcess] in *.
  assert (R : ready_within w (port st) (waits st) bound = false)
    by congruence.
  destruct (poll_trace_unanswered w (port st) bound (waits st) O R) as [_ Pr].
  fold done in Pr.
  split; [exact R|]. split; [reflexivity|].
  split; [now apply poll_trace_sleeps|].
  split; [now apply poll_trace_probes|].
  split.
  { rewrite Pr. cbn [Nat.div Nat.add]. now rewrite Nat.sub_0_r. }
  split.
  { assert (Q : forallb (fun e => negb (is_termination e)) done = true).
    { now apply poll_trace_all. }
    clear - Q. induction done as [|e l IH]; [reflexivity|].
    cbn [forallb existsb] in *. apply andb_true_iff in Q as [Qe Ql].
    rewrite (IH Ql). now destruct (is_termination e). }
  repeat split.
Qed.

Lemma polling_gives_up_only_at_bound_witness :
  filter is_sleep
         (effects (snd (waitForLsp 60 0 unresponsive (initial 6010))))
  = repeat (Sleep 500) 60
  /\ ready_within unresponsive 6010 0 40 = false.
Proof.
  destruct (polling_gives_up_only_at_bound unresponsive (initial 6010) 60)
    as (_ & H2 & H3 & _); [reflexivity|].
  destruct (polling_gives_up_only_at_bound unresponsive (initial 6010) 40)
    as (K1 & _); [reflexivity|].
  split; [|exact K1]. rewrite H2. exact H3.
Defined.

(** A session in which nothing answers, executable and project are found
    and the port stays unanswered. *)
Lemma readiness_timeout_run
        (w : World) (p : N) (events : list Event) :
  already_running w p = false ->
  launchable w = true ->
  ready_within w p O POLL_ATTEMPTS = false ->
  let r := session w p events in
  exit_code r = Some 1
  /\ count is_spawn (trace r) = 1%nat
  /\ count is_termination (trace r) = O
  /\ count is_sleep (trace r) = 60%nat
  /\ filter is_progress (trace r)
     = map (fun m => Log (StillWaiting (5 * m))) (seq 1 6)
  /\ spawnedGodotProcess (snd r) = Some (child_pid w).
Proof.
  intros R L T r. unfold r. rewrite session_trace, launch_succeeds_eq.
  rewrite R, L, T. cbn [orb andb exit_code fst snd trace started effects
                        spawnedGodotProcess].
  rewrite R, L. cbn [negb andb].
  destruct (poll_trace_unanswered w p POLL_ATTEMPTS O O T) as [W Pr].
  destruct (poll_trace_counts w p POLL_ATTEMPTS O O) as (Cs & _ & _).
  split; [reflexivity|].
  split.
  { unfold count. rewrite startup_trace_spawns, R.
    unfold launchable in L.
    now destruct (findGodot w), (findProjectFile w). }
  split.
  { apply (count_excluded _ (fun e => negb (is_termination e)));
      [intros a; now destruct (is_termination a)|].
    now apply startup_trace_all. }
  split.
  { rewrite startup_trace_count by reflexivity.
    rewrite R, L, Cs, W. cbn [negb andb].
    now destruct (answers w O p), (fallback p). }
  split; [|reflexivity].
  unfold startup_trace. rewrite R.
  cbn [orb]. rewrite launch_succeeds_eq, L, T. cbn [andb].
  change (?a :: ?l ++ ?m) with ((a :: l) ++ m).
  assert (Z : forall l, forallb (fun e => negb (is_progress e)) l = true ->
                        filter is_progress l = []).
  { intros l. apply filter_excluded. intros a. now destruct (is_progress a). }
  rewrite !filter_app.
  rewrite (Z (_ :: _)) by now destruct (answers w O p), (fallback p).
  rewrite (Z [_; _; _]) by reflexivity.
  unfold launch_trace, launchable in *.
  destruct (findGodot w); [|discriminate].
  destruct (findProjectFile w); [|discriminate].
  rewrite T, !filter_app, Pr.
  rewrite (Z [_; _; _; _; _]) by reflexivity.
  rewrite (Z (if isLinux (platform w) && negb (display w) then _ else _))
    by now destruct (isLinux (platform w) && negb (display w)), (xvfb_run w).
  rewrite (Z [_; Unref; _])
    by (unfold expected_spawn;
        now destruct (isLinux (platform w) && negb (display w) && xvfb_run w)).
  rewrite (Z [_; _]) by reflexivity.
  now rewrite app_nil_r.
Qed.


Lemma not_timeout_log (l : list Effect) :
  forallb (fun e => negb (is_timeout_log e)) l = true ->
  existsb is_timeout_log l = false.
Proof.
  induction l as [|e l IH]; intros H; [reflexivity|].
  cbn [forallb existsb] in *. apply andb_true_iff in H as [He Hl].
  rewrite (IH Hl). now destruct (is_timeout_log e).
Qed.

Lemma served_not_timeout (es : list Effect) :
  forallb is_served es = true -> existsb is_timeout_log es = false.
Proof.
  intros H. apply not_timeout_log.
  rewrite forallb_forall in *. intros e He. specialize (H e He).
  destruct e as [m| | | | | | | | | | | |]; try reflexivity.
  now destruct m.
Qed.

Lemma poll_trace_not_timeout (w : World) (p : N) (n : nat) :
  forall from i, existsb is_timeout_log (poll_trace w p from n i) = false.
Proof.
  induction n as [|n IH]; intros from i; [reflexivity|].
  cbn [poll_trace existsb is_timeout_log orb].
  destruct (answers w (S from) p); [reflexivity|].
  rewrite existsb_app, IH.
  now destruct (Nat.eqb (Nat.modulo (i + 1) 10) 0).
Qed.

(** The line is written exactly when a launch was made and its polling ran
    out. *)
Lemma startup_trace_timeout (w : World) (p : N) :
  existsb is_timeout_log (startup_trace w p)
  = negb (already_running w p) && launchable w
    && negb (ready_within w p O POLL_ATTEMPTS).
Proof.
  unfold startup_trace.
  change (?a :: ?l ++ ?m) with ((a :: l) ++ m).
  rewrite !existsb_app.
  rewrite (not_timeout_log (_ :: _))
    by now destruct (answers w O p), (fallback p).
  rewrite (not_timeout_log (if already_running w p || launch_succeeds w p
                            then _ else _))
    by now destruct (already_running w p || launch_succeeds w p).
  rewrite orb_false_r. cbn [orb].
  destruct (already_running w p); [reflexivity|]. cbn [negb andb].
  unfold launch_trace, launchable.
  destruct (findGodot w) as [godot|]; [|reflexivity].
  destruct (findProjectFile w) as [project|]; [|reflexivity].
  rewrite !existsb_app.
  rewrite (not_timeout_log [_; _; _; _; _]) by reflexivity.
  rewrite (not_timeout_log
             (if isLinux (platform w) && negb (display w) then _ else _))
    by now destruct (isLinux (platform w) && negb (display w)), (xvfb_run w).
  rewrite (not_timeout_log [_; Unref; _])
    by (unfold expected_spawn;
        now destruct (isLinux (platform w) && negb (display w) && xvfb_run w)).
  rewrite poll_trace_not_timeout.
  now destruct (ready_within w p O POLL_ATTEMPTS).
Qed.

(** X30.  A session that writes the line of the readiness timeout has found
    no server at startup, has spawned exactly one process and has waited
    sixty times, writing the six progress lines for 5 to 30 seconds; it
    exits with code 1, and it attempts no termination on the way: the
    process it spawned is left to itself, its reference still held. *)
Theorem launch_timeout_abandons_process
        (w : World) (p : N) (events : list Event) :
  existsb is_timeout_log (trace (session w p events)) = true ->
  let r := session w p events in
  already_running w p = false
  /\ exit_code r = Some 1
  /\ count is_spawn (trace r) = 1%nat
  /\ count is_termination (trace r) = O
  /\ count is_sleep (trace r) = 60%nat
  /\ filter is_progress (trace r)
     = map (fun m => Log (StillWaiting (5 * m))) (seq 1 6)
  /\ spawnedGodotProcess (snd r) = Some (child_pid w).
Proof.
  intros H r.
  destruct (session_served w p events) as (es & T & Q).
  rewrite T, existsb_app, (served_not_timeout es Q), orb_false_r in H.
  rewrite startup_trace_timeout in H.
  apply andb_true_iff in H as [H Hr]. apply andb_true_iff in H as [Ha Hl].
  apply negb_true_iff in Ha, Hr.
  split; [exact Ha|].
  exact (readiness_timeout_run w p events Ha Hl Hr).
Qed.

Lemma launch_timeout_abandons_process_witness :
  exit_code (session unresponsive 6010 [SocketConnected]) = Some 1
  /\ count is_termination
           (trace (session unresponsive 6010 [SocketConnected])) = O
  /\ count is_sleep (trace (session unresponsive 6010 [SocketConnected]))
     = 60%nat.
Proof.
  destruct (launch_timeout_abandons_process
              unresponsive 6010 [SocketConnected])
    as (_ & H1 & _ & H3 & H4 & _); [vm_compute; reflexivity|].
  repeat split; assumption.
Defined.

(** X6.  Startup always comes to an end: [main] either reaches
    [socket.connect] or exits with code 1, and never stays pending on a
    probe; on the way it probes at most 62 times and waits at most 60
    times. *)
Theorem startup_is_bounded (w : World) (p : N) :
  let r := session w p [] in
  (fst r = Ret tt \/ fst r = Exited 1)
  /\ (count is_probe (trace r) <= 62)%nat
  /\ (count is_sleep (trace r) <= 60)%nat.
Proof.
  intros r. unfold r. rewrite session_trace.
  destruct (poll_trace_counts w p POLL_ATTEMPTS O O) as (Cs & Cp & B).
  assert (E : trace (if already_running w p || launch_succeeds w p
                     then react [] w (started w p)
                     else (Exited 1, started w p)) = startup_trace w p).
  { now destruct (already_running w p || launch_succeeds w p). }
  rewrite E. split.
  { destruct (already_running w p || launch_succeeds w p); auto. }
  rewrite !startup_trace_count by reflexivity. rewrite Cs, Cp.
  remember (poll_waits w p O POLL_ATTEMPTS) as k eqn:K. clear K Cs Cp.
  unfold POLL_ATTEMPTS in B. unfold count.
  destruct (negb (already_running w p) && launchable w),
    (answers w O p), (fallback p); cbn; lia.
Qed.

(** *** Both directions *)

Lemma to_socket_writes (chunks : list Buffer) :
  to_socket (map SocketWrite chunks) = chunks
  /\ to_stdout (map SocketWrite chunks) = [].
Proof.
  induction chunks as [|c chunks [I1 I2]]; [now split|].
  cbn. unfold to_socket in I1. unfold to_stdout in I2. now rewrite I1, I2.
Qed.

Lemma startup_writes_nothing (w : World) (p : N) :
  to_socket (startup_trace w p) = [] /\ to_stdout (startup_trace w p) = [].
Proof.
  pose proof (startup_trace_all
                (fun e => match e with
                          | SocketWrite _ | StdoutWrite _ => false
                          | _ => true
                          end) w p) as H.
  specialize (H ltac:(reflexivity) ltac:(reflexivity) ltac:(reflexivity)
                ltac:(reflexivity) ltac:(reflexivity) ltac:(reflexivity)
                ltac:(reflexivity)).
  induction (startup_trace w p) as [|e l IH]; [now split|].
  cbn [forallb] in H. apply andb_true_iff in H as [He Hl].
  destruct (IH Hl) as [I1 I2]. unfold to_socket, to_stdout in *.
  cbn [flat_map]. rewrite I1, I2. now destruct e.
Qed.

(** Once standard input is piped, data events leave the session running:
    what standard input delivers goes through the interceptor, what the
    socket delivers goes to standard output. *)
Lemma react_data (events : list Event) :
  forall (w : World) (st : State),
    piped st = true ->
    forallb is_data events = true ->
    exists es,
      react events w st
      = (Ret tt,
         {| port := port st; spawnedGodotProcess := spawnedGodotProcess st;
            waits := waits st; piped := true;
            buffer := snd (feed (buffer st) (stdin_chunks events));
            effects := effects st ++ es |})
      /\ to_socket es = fst (feed (buffer st) (stdin_chunks events))
      /\ to_stdout es = socket_chunks events.
Proof.
  induction events as [|e events IH]; intros w st Hp Hd.
  - exists []. cbn. rewrite app_nil_r. destruct st. cbn in Hp. subst.
    now repeat split.
  - cbn [forallb] in Hd. apply andb_true_iff in Hd as [He Hd].
    destruct e as [|bytes| | |chunk|s]; try discriminate.
    + cbn [react on_event]. unfold bind at 1. cbn [emit].
      match goal with
      | |- context [react events w ?s] =>
          destruct (IH w s Hp Hd) as (es & E & S1 & S2)
      end.
      cbn [port waits spawnedGodotProcess piped buffer effects] in E.
      rewrite E. exists (StdoutWrite bytes :: es).
      cbn [stdin_chunks socket_chunks flat_map app] in *.
      rewrite <- app_assoc. cbn [app].
      split; [reflexivity|]. split; [exact S1|].
      unfold to_stdout in *. cbn [flat_map app]. now rewrite S2.
    + cbn [react]. unfold on_event. steps. rewrite Hp. steps.
      cbn [stdin_chunks socket_chunks flat_map app feed] in *.
      destruct (transform (buffer st) chunk) as [pushed b'].
      rewrite bind_assoc_run. unfold bind at 1. cbn [set_buffer].
      unfold bind at 1. rewrite write_all_run.
      match goal with
      | |- context [react events w ?s] =>
          destruct (IH w s Hp Hd) as (es & E & S1 & S2)
      end.
      cbn [port waits spawnedGodotProcess piped buffer effects record]
        in E, S1.
      rewrite E. exists (map SocketWrite pushed ++ es).
      fold (stdin_chunks events) in *.
      destruct (feed b' (stdin_chunks events)) as [more rest].
      cbn [fst snd] in *. rewrite <- app_assoc.
      split; [reflexivity|].
      destruct (to_socket_writes pushed) as [W1 W2].
      unfold to_socket, to_stdout in *.
      rewrite !flat_map_app, W1, W2, S1. now split.
Qed.

(** X7.  In a session that got past startup, once the socket is connected the
    two directions do not disturb each other, however their data events
    interleave: the chunks written to the socket are the interceptor's
    output on the chunks read from standard input, in order, with one
    buffer kept across them; the chunks written to standard output are the
    chunks the socket delivered, unchanged and in order. *)
Theorem duplex_forwarding (w : World) (p : N) (events : list Event) :
  already_running w p || launch_succeeds w p = true ->
  forallb is_data events = true ->
  let r := session w p (SocketConnected :: events) in
  fst r = Ret tt
  /\ to_socket (trace r) = intercept (stdin_chunks events)
  /\ to_stdout (trace r) = socket_chunks events
  /\ buffer (snd r) = snd (feed [] (stdin_chunks events)).
Proof.
  intros Ok Hd r. unfold r. rewrite session_trace, Ok.
  cbn [react]. unfold bind at 1. unfold on_event. steps.
  match goal with
  | |- context [react events w ?s] =>
      destruct (react_data events w s eq_refl Hd) as (es & E & S1 & S2)
  end.
  rewrite E. cbn [fst snd trace effects buffer started] in S1 |- *.
  destruct (startup_writes_nothing w p) as [N1 N2].
  unfold to_socket, to_stdout, intercept in *.
  rewrite !flat_map_app, N1, N2, S1, S2. now repeat split.
Qed.

Lemma duplex_forwarding_witness :
  to_socket (trace (session attached 6005 (SocketConnected :: traffic)))
  = flat_map emitted three
  /\ to_stdout (trace (session attached 6005 (SocketConnected :: traffic)))
     = [[x7b; x7d]; [x5b; x5d]].
Proof.
  destruct (duplex_forwarding attached 6005 traffic eq_refl eq_refl)
    as (_ & H1 & H2 & _).
  split; [|exact H2].
  rewrite H1. vm_compute. reflexivity.
Defined.

End SessionTheorems.

(** ** Finding the project and the executable *)

Section DiscoveryTheorems.
Import JsString Examples Discovery.
Local Open Scope N_scope.

Lemma same_spec (a b : jsstring) : same a b = true <-> a = b.
Proof.
  revert b; induction a as [|x a IH]; intros [|y b]; cbn [same];
    try (split; [discriminate|discriminate]); [now split|].
  rewrite andb_true_iff, N.eqb_eq, IH. split.
  - now intros [-> ->].
  - intros H. injection H as -> ->. now split.
Qed.

Lemma same_false (a b : jsstring) : same a b = false <-> a <> b.
Proof.
  rewrite <- same_spec. now destruct (same a b).
Qed.

Lemma ancestor_step (h : Host) (k : nat) (dir : jsstring) :
  ancestor h k (dirname h dir) = ancestor h (S k) dir.
Proof. unfold ancestor. now rewrite Nat.iter_succ_r. Qed.

(** The loop returns the nearest directory with a project file among those
    it visits. *)
Lemma climb_spec (h : Host) (n : nat) :
  forall (dir d : jsstring),
    climb h n dir = Some d <->
    exists k,
      (k < n)%nat
      /\ d = ancestor h k dir
      /\ has_project h d = true
      /\ forall j, (j < k)%nat ->
                   has_project h (ancestor h j dir) = false
                   /\ ancestor h (S j) dir <> ancestor h j dir.
Proof.
  induction n as [|n IH]; intros dir d.
  - cbn [climb]. split; [discriminate|]. intros (k & Hk & _). lia.
  - cbn [climb]. fold (has_project h dir).
    destruct (has_project h dir) eqn:P.
    + split.
      * intros H. injection H as <-. exists O.
        repeat split; try assumption; try lia.
      * intros (k & Hk & -> & Pk & Hj).
        destruct k as [|k]; [reflexivity|].
        destruct (Hj O ltac:(lia)) as [F _]. cbn in F. congruence.
    + destruct (same (dirname h dir) dir) eqn:Sm.
      * split; [discriminate|].
        intros (k & Hk & -> & Pk & Hj).
        destruct k as [|k]; [cbn in Pk; congruence|].
        destruct (Hj O ltac:(lia)) as [_ F].
        apply same_spec in Sm. now cbn in F.
      * rewrite IH. split.
        -- intros (k & Hk & -> & Pk & Hj). exists (S k).
           rewrite <- ancestor_step.
           split; [lia|]. split; [reflexivity|]. split; [assumption|].
           intros [|j] Hlt.
           ++ split; [exact P|]. cbn. now apply same_false.
           ++ rewrite <- (ancestor_step h (S j)), <- (ancestor_step h j).
              apply Hj. lia.
        -- intros (k & Hk & -> & Pk & Hj).
           destruct k as [|k]; [cbn in Pk; congruence|].
           exists k. rewrite ancestor_step.
           split; [lia|]. split; [reflexivity|]. split; [assumption|].
           intros j Hlt. rewrite !ancestor_step. apply Hj. lia.
Qed.

(** X8.  [findProjectFile] returns a directory exactly when that directory is
    the start or one of its first nine ancestors, holds [project.godot],
    is the nearest such directory, and no directory below it is its own
    parent (the root stops the search). *)
Theorem findProjectFile_nearest (h : Host) (dir d : jsstring) :
  findProjectFile h dir = Some d <->
  exists k,
    (k < 10)%nat
    /\ d = ancestor h k dir
    /\ has_project h d = true
    /\ forall j, (j < k)%nat ->
                 has_project h (ancestor h j dir) = false
                 /\ ancestor h (S j) dir <> ancestor h j dir.
Proof. apply climb_spec. Qed.

(** X9.  The search visits ten directories, the start included: when none of
    the start and its first nine ancestors holds [project.godot], the
    result is [null], also when a directory ten levels up holds one. *)
Theorem findProjectFile_gives_up (h : Host) (dir : jsstring) :
  (forall j, (j < 10)%nat -> has_project h (ancestor h j dir) = false) ->
  findProjectFile h dir = None.
Proof.
  intros H. destruct (findProjectFile h dir) as [d|] eqn:E; [|reflexivity].
  apply climb_spec in E as (k & Hk & -> & Pk & _).
  rewrite (H k Hk) in Pk. discriminate.
Qed.

Lemma findProjectFile_gives_up_witness :
  has_project workstation (ancestor workstation 10 deep) = true
  /\ findProjectFile workstation deep = None.
Proof.
  split; [vm_compute; reflexivity|].
  apply findProjectFile_gives_up.
  intros j Hj.
  do 10 (destruct j as [|j]; [vm_compute; reflexivity|]). lia.
Defined.

(** *** Trimming and the first line *)

Lemma trim_start_spec (s : jsstring) :
  exists pre,
    s = pre ++ trim_start s
    /\ forallb is_white_space pre = true
    /\ match trim_start s with
       | [] => True
       | c :: _ => is_white_space c = false
       end.
Proof.
  induction s as [|c s (pre & E & W & H)].
  - exists []. now repeat split.
  - cbn [trim_start]. destruct (is_white_space c) eqn:C.
    + exists (c :: pre). cbn [app forallb]. rewrite C, W, <- E.
      now repeat split.
    + exists []. now repeat split.
Qed.

Lemma trim_start_fixed (c : N) (s : jsstring) :
  is_white_space c = false -> trim_start (c :: s) = c :: s.
Proof. intros H. cbn [trim_start]. now rewrite H. Qed.

Lemma trim_start_blank (s : jsstring) :
  trim_start s = [] <-> forallb is_white_space s = true.
Proof.
  induction s as [|c s IH]; [now split|].
  cbn [trim_start forallb]. destruct (is_white_space c); [exact IH|].
  now split.
Qed.

Lemma forallb_rev {A} (f : A -> bool) (l : list A) :
  forallb f (rev l) = forallb f l.
Proof.
  induction l as [|a l IH]; [reflexivity|].
  cbn [rev forallb]. rewrite forallb_app, IH. cbn. rewrite andb_true_r.
  apply andb_comm.
Qed.

Lemma trim_end_spec (s : jsstring) :
  exists post,
    s = trim_end s ++ post
    /\ forallb is_white_space post = true
    /\ (trim_end s = [] \/ is_white_space (last (trim_end s) 0) = false).
Proof.
  unfold trim_end.
  destruct (trim_start_spec (rev s)) as (pre & E & W & H).
  exists (rev pre). split.
  - rewrite <- rev_app_distr, <- E. now rewrite rev_involutive.
  - split; [now rewrite forallb_rev|].
    destruct (trim_start (rev s)) as [|c t]; [now left|].
    right. cbn [rev]. now rewrite last_last.
Qed.

Lemma trim_end_keeps (s : jsstring) :
  forallb is_white_space s = false ->
  exists c t, trim_end s = c :: t /\ hd 0 s = c.
Proof.
  intros N. destruct (trim_end_spec s) as (post & E & W & _).
  destruct (trim_end s) as [|c t].
  - cbn in E. subst post. congruence.
  - exists c, t. split; [reflexivity|]. now rewrite E.
Qed.

Lemma first_line_spec (s : jsstring) :
  exists rest,
    s = first_line s ++ rest
    /\ forallb (fun c => negb (c =? 10)) (first_line s) = true.
Proof.
  induction s as [|c s (rest & E & H)].
  - exists []. now split.
  - cbn [first_line]. destruct (c =? 10) eqn:C.
    + exists (c :: s). now split.
    + exists rest. cbn [app forallb]. rewrite C, H, <- E. now split.
Qed.

Lemma white_space_line_feed (c : N) :
  is_white_space c = false -> (c =? 10) = false.
Proof.
  intros H. destruct (N.eqb_spec c 10) as [->|]; [discriminate|reflexivity].
Qed.

(** The text the lookup keeps of an output that is not blank. *)
Lemma kept_spec (out : jsstring) :
  forallb is_white_space out = false ->
  exists c line rest,
    first_line (trim out) = c :: line
    /\ is_white_space c = false
    /\ exists before after,
         out = before ++ trim (c :: line) ++ after
         /\ trim (c :: line) = c :: rest
         /\ is_white_space (last (c :: rest) 0) = false
         /\ forallb (fun c => negb (c =? 10)) (c :: rest) = true.
Proof.
  intros N. unfold trim at 1 2.
  destruct (trim_start_spec out) as (pre & E & W & H).
  destruct (trim_start out) as [|c ts] eqn:T.
  { apply trim_start_blank in T. congruence. }
  assert (Nts : forallb is_white_space (c :: ts) = false)
    by (cbn [forallb]; now rewrite H).
  destruct (trim_end_keeps _ Nts) as (c' & t & Et & Hc).
  cbn [hd] in Hc. subst c'.
  destruct (trim_end_spec (c :: ts)) as (post & E2 & _ & _).
  rewrite Et in E2 |- *. cbn [first_line].
  rewrite (white_space_line_feed c H).
  exists c, (first_line t).
  destruct (first_line_spec t) as (rest1 & E3 & L).
  unfold trim. rewrite (trim_start_fixed c _ H).
  assert (Nl : forallb is_white_space (c :: first_line t) = false)
    by (cbn [forallb]; now rewrite H).
  destruct (trim_end_keeps _ Nl) as (c' & r & Er & Hc).
  cbn [hd] in Hc. subst c'.
  destruct (trim_end_spec (c :: first_line t)) as (post2 & E4 & _ & [F|F]);
    [congruence|].
  rewrite Er in E4, F |- *.
  exists r. split; [reflexivity|]. split; [exact H|].
  exists pre, (post2 ++ rest1 ++ post).
  split.
  { rewrite E, E2. f_equal. injection E4 as E4.
    change ((c :: r) ++ post2 ++ rest1 ++ post)
      with (c :: r ++ post2 ++ rest1 ++ post).
    change ((c :: t) ++ post) with (c :: t ++ post).
    f_equal. rewrite E3 at 1. rewrite E4 at 1.
    now rewrite <- !app_assoc. }
  split; [reflexivity|]. split; [exact F|].
  assert (L2 : forallb (fun c => negb (c =? 10)) (c :: first_line t) = true)
    by (cbn [forallb]; now rewrite (white_space_line_feed c H), L).
  rewrite E4, forallb_app in L2. now apply andb_true_iff in L2 as [L2 _].
Qed.

Lemma lookup_blank (h : Host) :
  lookup h = None <->
  match execSync h (if isWindows h then WHERE_GODOT else WHICH_GODOT) with
  | Some out => forallb is_white_space out = true
  | None => True
  end.
Proof.
  unfold lookup.
  destruct (execSync h (if isWindows h then WHERE_GODOT else WHICH_GODOT))
    as [out|]; [|now split].
  destruct (forallb is_white_space out) eqn:B.
  - split; [reflexivity|]. intros _.
    apply trim_start_blank in B. unfold trim. now rewrite B.
  - destruct (kept_spec out B) as (c & line & rest & E & _). rewrite E.
    split; discriminate.
Qed.

(** X10.  When none of the listed paths exists and the lookup command
    ([where godot] on Windows, [which godot] elsewhere) prints something
    that is not blank, [findGodot] returns a piece of that output: its
    first non-blank line, without the blanks around it (a trailing
    carriage return among them).  The result is not empty, holds no line
    feed, and neither starts nor ends with white space. *)
Theorem path_lookup_is_clean (h : Host) (godotPath out : jsstring) :
  find (existsSync h) (godotPaths godotPath) = None ->
  execSync h (if isWindows h then WHERE_GODOT else WHICH_GODOT) = Some out ->
  forallb is_white_space out = false ->
  exists c rest before after,
    findGodot h godotPath = Some (c :: rest)
    /\ out = before ++ (c :: rest) ++ after
    /\ is_white_space c = false
    /\ is_white_space (last (c :: rest) 0) = false
    /\ forallb (fun c => negb (c =? 10)) (c :: rest) = true.
Proof.
  intros F E N. unfold findGodot, lookup. rewrite F, E.
  destruct (kept_spec out N)
    as (c & line & rest & El & Hc & before & after & Eo & Et & Hl & Hn).
  rewrite El, Et. exists c, rest, before, after.
  rewrite Et in Eo. now repeat split.
Qed.

Lemma path_lookup_is_clean_witness :
  exists c rest before after,
    findGodot desktop Cli.GODOT = Some (c :: rest)
    /\ text (list_byte_of_string "C:/Tools/godot.exe"
             ++ [x0d; x0a] ++ list_byte_of_string "D:/Old/godot.exe"
             ++ [x0d; x0a])
       = before ++ (c :: rest) ++ after
    /\ is_white_space c = false
    /\ is_white_space (last (c :: rest) 0) = false
    /\ forallb (fun c => negb (c =? 10)) (c :: rest) = true.
Proof.
  exact (path_lookup_is_clean
           desktop Cli.GODOT
           (text (list_byte_of_string "C:/Tools/godot.exe"
                  ++ [x0d; x0a] ++ list_byte_of_string "D:/Old/godot.exe"
                  ++ [x0d; x0a]))
           eq_refl eq_refl eq_refl).
Defined.

(** X11.  [findGodot] returns [null] exactly when none of the four listed
    paths exists, the lookup command fails or prints only blanks, and, off
    Windows, [which godot4] and [which godot-editor] both fail. *)
Theorem findGodot_null_iff (h : Host) (godotPath : jsstring) :
  findGodot h godotPath = None <->
  existsb (existsSync h) (godotPaths godotPath) = false
  /\ match execSync h (if isWindows h then WHERE_GODOT else WHICH_GODOT) with
     | Some out => forallb is_white_space out = true
     | None => True
     end
  /\ (isWindows h = true
      \/ (execSync h (WHICH ++ GODOT4) = None
          /\ execSync h (WHICH ++ GODOT_EDITOR) = None)).
Proof.
  unfold findGodot. rewrite <- lookup_blank.
  assert (F : find (existsSync h) (godotPaths godotPath) = None
              <-> existsb (existsSync h) (godotPaths godotPath) = false).
  { unfold godotPaths. cbn [find existsb].
    destruct (existsSync h godotPath), (existsSync h WINGET_LINK),
      (existsSync h PROGRAM_FILES), (existsSync h PROGRAM_FILES_X86);
      cbn; split; congruence. }
  rewrite <- F.
  destruct (find (existsSync h) (godotPaths godotPath)) as [p|].
  { split; [discriminate|]. intros (H & _). discriminate. }
  destruct (lookup h) as [p|].
  { split; [discriminate|]. intros (_ & H & _). discriminate. }
  destruct (isWindows h).
  { split; auto. }
  cbn [variations].
  destruct (execSync h (WHICH ++ GODOT4)).
  { split; [discriminate|]. intros (_ & _ & [H|[H _]]); discriminate. }
  destruct (execSync h (WHICH ++ GODOT_EDITOR)).
  { split; [discriminate|]. intros (_ & _ & [H|[_ H]]); discriminate. }
  split; auto.
Qed.

(** X27.  Off Windows, when no listed path exists and the lookup finds
    nothing, the first fallback name [which] knows decides, whatever it
    prints: if [which godot4] succeeds with blank output, [findGodot]
    returns the empty string, which the launch takes for "not found", and
    [which godot-editor] is never asked. *)
Theorem blank_variation_hides_the_next
        (h : Host) (godotPath out : jsstring) :
  isWindows h = false ->
  existsb (existsSync h) (godotPaths godotPath) = false ->
  lookup h = None ->
  execSync h (WHICH ++ GODOT4) = Some out ->
  forallb is_white_space out = true ->
  findGodot h godotPath = Some [] /\ found (findGodot h godotPath) = false.
Proof.
  intros W F L E B. unfold findGodot.
  assert (Fn : find (existsSync h) (godotPaths godotPath) = None).
  { unfold godotPaths in *. cbn [find existsb] in *.
    destruct (existsSync h godotPath), (existsSync h WINGET_LINK),
      (existsSync h PROGRAM_FILES), (existsSync h PROGRAM_FILES_X86);
      try discriminate; reflexivity. }
  rewrite Fn, L, W. cbn [variations]. rewrite E.
  apply trim_start_blank in B. unfold trim. rewrite B. now split.
Qed.

Lemma blank_variation_hides_the_next_witness :
  execSync shadowed (WHICH ++ GODOT_EDITOR)
  = Some (USR_BIN_GODOT_EDITOR ++ [10])
  /\ findGodot shadowed Cli.GODOT = Some []
  /\ found (findGodot shadowed Cli.GODOT) = false.
Proof.
  split; [reflexivity|].
  exact (blank_variation_hides_the_next shadowed Cli.GODOT [10]
           eq_refl eq_refl eq_refl eq_refl eq_refl).
Defined.

End DiscoveryTheorems.

(** ** The command line *)

Section CliTheorems.
Import JsString Cli.
Local Open Scope N_scope.

Lemma not_flag (a : jsstring) :
  is_flag a = false ->
  same a PORT_FLAG = false /\ same a HOST_FLAG = false
  /\ same a GODOT_FLAG = false /\ same a PROJECT_FLAG = false.
Proof.
  unfold is_flag. intros H.
  apply orb_false_iff in H as [H H4]. apply orb_false_iff in H as [H H3].
  apply orb_false_iff in H as [H1 H2]. now repeat split.
Qed.

Lemma parseArgs_cons (c : Config) (a : jsstring) (rest : list jsstring) :
  parseArgs c (a :: rest)
  = match rest with
    | (_ :: _) as v :: rest' =>
        if same a PORT_FLAG then
          parseArgs {| port := parseInt v; host := host c;
                       godotPath := godotPath c;
                       projectPath := projectPath c |} rest'
        else if same a HOST_FLAG then
          parseArgs {| port := port c; host := v;
                       godotPath := godotPath c;
                       projectPath := projectPath c |} rest'
        else if same a GODOT_FLAG then
          parseArgs {| port := port c; host := host c;
                       godotPath := v;
                       projectPath := projectPath c |} rest'
        else if same a PROJECT_FLAG then
          parseArgs {| port := port c; host := host c;
                       godotPath := godotPath c;
                       projectPath := v |} rest'
        else parseArgs c rest
    | _ => parseArgs c rest
    end.
Proof. reflexivity. Qed.

Lemma dangling_cons (a : jsstring) (rest : list jsstring) :
  dangling (a :: rest)
  = match rest with
    | [] => is_flag a
    | (_ :: _) as v :: rest' =>
        if is_flag a then dangling rest' else dangling rest
    | [] :: _ => dangling rest
    end.
Proof. reflexivity. Qed.

(** The scan of a command line that does not end on a waiting option is
    not changed by what follows it. *)
Lemma parseArgs_scan (n : nat) :
  forall (a1 a2 : list jsstring) (c : Config),
    (length a1 <= n)%nat ->
    dangling a1 = false ->
    parseArgs c (a1 ++ a2) = parseArgs (parseArgs c a1) a2.
Proof.
  induction n as [|n IH]; intros a1 a2 c Hn D.
  - destruct a1; [reflexivity|cbn in Hn; lia].
  - destruct a1 as [|a [|v rest]]; [reflexivity| |].
    + rewrite dangling_cons in D.
      destruct (not_flag a D) as (F1 & F2 & F3 & F4).
      cbn [app]. rewrite !(parseArgs_cons c a).
      destruct a2 as [|[|x v] rest]; try reflexivity.
      now rewrite F1, F2, F3, F4.
    + cbn [length] in Hn. rewrite dangling_cons in D.
      cbn [app]. rewrite !(parseArgs_cons c a).
      destruct v as [|x v].
      * change ([] :: rest ++ a2) with (([] :: rest) ++ a2).
        apply IH; [cbn [length]; lia|exact D].
      * destruct (is_flag a) eqn:F.
        -- unfold is_flag in F.
           destruct (same a PORT_FLAG); [apply IH; [lia|exact D]|].
           destruct (same a HOST_FLAG); [apply IH; [lia|exact D]|].
           destruct (same a GODOT_FLAG); [apply IH; [lia|exact D]|].
           destruct (same a PROJECT_FLAG); [apply IH; [lia|exact D]|].
           discriminate.
        -- destruct (not_flag a F) as (F1 & F2 & F3 & F4).
           rewrite F1, F2, F3, F4.
           change ((x :: v) :: rest ++ a2) with (((x :: v) :: rest) ++ a2).
           apply IH; [cbn [length]; lia|exact D].
Qed.

Lemma digit_plain (c : N) :
  is_digit c = true ->
  is_white_space c = false /\ (c =? 45) = false /\ (c =? 43) = false.
Proof.
  unfold is_digit, is_white_space. intros H.
  apply andb_true_iff in H as [H1 H2].
  apply N.leb_le in H1, H2.
  repeat match goal with
         | |- context [?a =? ?b] =>
             destruct (N.eqb_spec a b); [lia|]
         | |- context [?a <=? ?b] =>
             destruct (N.leb_spec a b)
         end; cbn; repeat split; lia.
Qed.

(** Reading back the decimal digits of a number gives the number. *)
Lemma parseInt_to_string (n : N) : parseInt (to_string n) = Num false n.
Proof.
  unfold parseInt.
  pose proof (to_string_digits n) as D.
  pose proof (parse_int_to_string n) as V.
  pose proof (span_digits_run (to_string n) [] D I) as R.
  rewrite app_nil_r in R.
  destruct (to_string n) as [|d ds] eqn:E.
  { now apply to_string_nonempty in E. }
  cbn [forallb] in D. apply andb_true_iff in D as [Dd _].
  destruct (digit_plain d Dd) as (W & M & P).
  cbn [trim_start]. rewrite W, M, P. cbn [fst snd]. rewrite R.
  cbn [fst]. now rewrite V.
Qed.

(** X12.  Options are read left to right and compose: when the scan of a
    first list of words does not end on an option that still waits for its
    value, scanning the list followed by further words is scanning the
    further words from the configuration the first list left.  A later
    option so overrides an earlier one. *)
Theorem options_compose (c : Config) (first further : list jsstring) :
  dangling first = false ->
  parseArgs c (first ++ further) = parseArgs (parseArgs c first) further.
Proof.
  intros D. now apply (parseArgs_scan (length first)).
Qed.

Lemma options_compose_witness :
  parseArgs (defaults (mkEnv None None None [47]))
            ([PORT_FLAG; to_string 7000; HOST_FLAG; HOST_FLAG]
               ++ [PORT_FLAG; to_string 6008])
  = parseArgs (parseArgs (defaults (mkEnv None None None [47]))
                         [PORT_FLAG; to_string 7000; HOST_FLAG; HOST_FLAG])
              [PORT_FLAG; to_string 6008].
Proof.
  exact (options_compose (defaults (mkEnv None None None [47]))
                         [PORT_FLAG; to_string 7000; HOST_FLAG; HOST_FLAG]
                         [PORT_FLAG; to_string 6008] eq_refl).
Defined.

(** X13.  The port is the number spelled after the last [--port]: when the
    words before do not end on a waiting option, appending [--port] and the
    decimal digits of [n] (below 2^53, where a JS number is the integer
    itself) sets the port to exactly [n] and leaves host, executable path
    and project path as the words before set them. *)
Theorem last_port_option_wins (c : Config) (args : list jsstring) (n : N) :
  dangling args = false ->
  n < 2 ^ 53 ->
  let c' := parseArgs c (args ++ [PORT_FLAG; to_string n]) in
  port c' = Num false n
  /\ host c' = host (parseArgs c args)
  /\ godotPath c' = godotPath (parseArgs c args)
  /\ projectPath c' = projectPath (parseArgs c args).
Proof.
  intros D _ c'. unfold c'.
  rewrite (parseArgs_scan (length args)) by (auto; lia).
  rewrite parseArgs_cons.
  pose proof (parseInt_to_string n) as P.
  destruct (to_string n) as [|d ds] eqn:E.
  { now apply to_string_nonempty in E. }
  change (same PORT_FLAG PORT_FLAG) with true. cbv iota.
  cbn [parseArgs port host godotPath projectPath]. now rewrite P.
Qed.

Lemma last_port_option_wins_witness :
  port (parseArgs (defaults (mkEnv None None None [47]))
                  ([PORT_FLAG; to_string 7000; HOST_FLAG; HOST_FLAG]
                     ++ [PORT_FLAG; to_string 6008]))
  = Num false 6008.
Proof.
  exact (proj1 (last_port_option_wins
                  (defaults (mkEnv None None None [47]))
                  [PORT_FLAG; to_string 7000; HOST_FLAG; HOST_FLAG]
                  6008 eq_refl eq_refl)).
Defined.

(** X14.  An option never reads the word after it as an option: [--port]
    directly followed by one of the four option words takes that word as
    its value, which is no number, so the port becomes [NaN]; the word is
    skipped and the scan goes on behind it. *)
Theorem port_swallows_option
        (c : Config) (flag : jsstring) (rest : list jsstring) :
  is_flag flag = true ->
  parseArgs c (PORT_FLAG :: flag :: rest)
  = parseArgs {| port := NaN; host := host c; godotPath := godotPath c;
                 projectPath := projectPath c |} rest.
Proof.
  unfold is_flag. intros F.
  destruct (same flag PORT_FLAG) eqn:F1;
    [apply same_spec in F1; subst; reflexivity|].
  destruct (same flag HOST_FLAG) eqn:F2;
    [apply same_spec in F2; subst; reflexivity|].
  destruct (same flag GODOT_FLAG) eqn:F3;
    [apply same_spec in F3; subst; reflexivity|].
  destruct (same flag PROJECT_FLAG) eqn:F4;
    [apply same_spec in F4; subst; reflexivity|].
  discriminate.
Qed.

Lemma port_swallows_option_witness :
  port (parseArgs (defaults (mkEnv None None None [47]))
                  [PORT_FLAG; HOST_FLAG; PORT_FLAG]) = NaN
  /\ host (parseArgs (defaults (mkEnv None None None [47]))
                     [PORT_FLAG; HOST_FLAG; PORT_FLAG]) = DEFAULT_HOST.
Proof.
  rewrite (port_swallows_option (defaults (mkEnv None None None [47]))
                                HOST_FLAG [PORT_FLAG] eq_refl).
  split; reflexivity.
Defined.

Ltac untouched IH :=
  let n := fresh "n" in
  let args := fresh "args" in
  let c := fresh "c" in
  let Hn := fresh "Hn" in
  let H := fresh "H" in
  let a := fresh "a" in
  let v := fresh "v" in
  let x := fresh "x" in
  let rest := fresh "rest" in
  let Ha := fresh "Ha" in
  let Hv := fresh "Hv" in
  intros n; induction n as [|n IH]; intros args c Hn H;
  [destruct args; [reflexivity|cbn in Hn; lia]|];
  destruct args as [|a [|v rest]]; [reflexivity|reflexivity|];
  cbn [length] in Hn; rewrite parseArgs_cons;
  cbn [forallb] in H; apply andb_true_iff in H as [Ha H];
  apply negb_true_iff in Ha;
  destruct v as [|x v];
  [apply IH; [cbn [length]; lia|exact H]|];
  pose proof H as Hv; cbn [forallb] in Hv;
  apply andb_true_iff in Hv as [_ Hv];
  rewrite ?Ha;
  repeat match goal with
         | |- context [if same a ?f then _ else _] =>
             destruct (same a f);
             [rewrite IH by (try lia; exact Hv); reflexivity|]
         end;
  apply IH; [cbn [length]; lia|exact H].

Lemma port_untouched :
  forall (n : nat) (args : list jsstring) (c : Config),
    (length args <= n)%nat ->
    forallb (fun a => negb (same a PORT_FLAG)) args = true ->
    port (parseArgs c args) = port c.
Proof. untouched IH. Qed.

Lemma host_untouched :
  forall (n : nat) (args : list jsstring) (c : Config),
    (length args <= n)%nat ->
    forallb (fun a => negb (same a HOST_FLAG)) args = true ->
    host (parseArgs c args) = host c.
Proof. untouched IH. Qed.

Lemma godotPath_untouched :
  forall (n : nat) (args : list jsstring) (c : Config),
    (length args <= n)%nat ->
    forallb (fun a => negb (same a GODOT_FLAG)) args = true ->
    godotPath (parseArgs c args) = godotPath c.
Proof. untouched IH. Qed.

Lemma projectPath_untouched :
  forall (n : nat) (args : list jsstring) (c : Config),
    (length args <= n)%nat ->
    forallb (fun a => negb (same a PROJECT_FLAG)) args = true ->
    projectPath (parseArgs c args) = projectPath c.
Proof. untouched IH. Qed.

(** X19.  A setting changes only through its own option: when [--port] is
    not among the words the port keeps its initial value, and likewise the
    host without [--host], the executable path without [--godot] (so the
    value of [GODOT_PATH], or [godot]) and the project path without
    [--project]. *)
Theorem settings_change_only_by_their_option
        (c : Config) (args : list jsstring) :
  (forallb (fun a => negb (same a PORT_FLAG)) args = true ->
   port (parseArgs c args) = port c)
  /\ (forallb (fun a => negb (same a HOST_FLAG)) args = true ->
      host (parseArgs c args) = host c)
  /\ (forallb (fun a => negb (same a GODOT_FLAG)) args = true ->
      godotPath (parseArgs c args) = godotPath c)
  /\ (forallb (fun a => negb (same a PROJECT_FLAG)) args = true ->
      projectPath (parseArgs c args) = projectPath c).
Proof.
  repeat split; intros H.
  - now apply (port_untouched (length args)).
  - now apply (host_untouched (length args)).
  - now apply (godotPath_untouched (length args)).
  - now apply (projectPath_untouched (length args)).
Qed.

Lemma parseInt_leading_digits (n : N) (tail : jsstring) :
  match tail with [] => True | x :: _ => is_digit x = false end ->
  parseInt (to_string n ++ tail) = Num false n.
Proof.
  intros T. unfold parseInt.
  pose proof (to_string_digits n) as D.
  pose proof (parse_int_to_string n) as V.
  pose proof (span_digits_run (to_string n) tail D T) as R.
  destruct (to_string n) as [|d ds] eqn:E.
  { now apply to_string_nonempty in E. }
  cbn [forallb] in D. apply andb_true_iff in D as [Dd _].
  destruct (digit_plain d Dd) as (W & M & P).
  cbn [app trim_start] in R |- *. rewrite W, M, P. cbn [fst snd]. rewrite R.
  cbn [fst]. now rewrite V.
Qed.

(** X26.  The value of [--port] is not validated: [parseInt] reads the
    digits the word starts with and ignores what follows them, so
    [--port] followed by the decimal digits of [n] (below 2^53) and any
    text that does not start with a digit sets the port to [n]. *)
Theorem port_reads_leading_digits
        (c : Config) (rest : list jsstring) (n : N) (tail : jsstring) :
  n < 2 ^ 53 ->
  match tail with [] => True | x :: _ => is_digit x = false end ->
  parseArgs c (PORT_FLAG :: (to_string n ++ tail) :: rest)
  = parseArgs {| port := Num false n; host := host c;
                 godotPath := godotPath c;
                 projectPath := projectPath c |} rest.
Proof.
  intros _ T. rewrite parseArgs_cons.
  pose proof (parseInt_leading_digits n tail T) as P.
  destruct (to_string n) as [|d ds] eqn:E.
  { now apply to_string_nonempty in E. }
  cbn [app] in P |- *. change (same PORT_FLAG PORT_FLAG) with true.
  cbv iota. now rewrite P.
Qed.

Lemma port_reads_leading_digits_witness :
  port (parseArgs (defaults (mkEnv None None None [47]))
                  [PORT_FLAG; to_string 6005 ++ [120; 121]])
  = Num false 6005.
Proof.
  exact (f_equal port
           (port_reads_leading_digits
              (defaults (mkEnv None None None [47])) [] 6005 [120; 121]
              eq_refl eq_refl)).
Defined.

End CliTheorems.

(** ** The interceptor on arbitrary bytes *)

Section PassThroughTheorems.
Import JsString Utf8 Interceptor Frame Examples.
Local Open Scope N_scope.

Ltac bounds :=
  repeat match goal with
         | H : (_ && _) = true |- _ => apply andb_true_iff in H as [? ?]
         | H : in_range _ _ _ = true |- _ =>
             unfold in_range in H
         | H : (_ <=? _) = true |- _ => apply N.leb_le in H
         | H : (_ <? _) = false |- _ => apply N.ltb_ge in H
         | H : (_ <? _) = true |- _ => apply N.ltb_lt in H
         | H : (_ =? _) = true |- _ => apply N.eqb_eq in H
         | H : (_ =? _) = false |- _ => apply N.eqb_neq in H
         end.

(** A byte that is not ASCII starts a piece of the decoding that holds no
    ASCII character, after which decoding resumes somewhere in the rest. *)
Lemma utf8_decode_high (b0 : byte) (r0 : list byte) :
  (Byte.to_N b0 <? 128) = false ->
  exists u us mid r',
    r0 = mid ++ r'
    /\ utf8_decode (b0 :: r0) = (u :: us) ++ utf8_decode r'
    /\ forallb (fun u => 128 <=? u) (u :: us) = true.
Proof.
  intros H. cbn [utf8_decode]. cbv beta iota zeta. rewrite H.
  assert (Hr : forall r, exists u us mid r',
               r = mid ++ r'
               /\ REPLACEMENT :: utf8_decode r = (u :: us) ++ utf8_decode r'
               /\ forallb (fun u => 128 <=? u) (u :: us) = true).
  { intros r. exists REPLACEMENT, [], [], r. now repeat split. }
  assert (He : forall m, exists u us mid r',
               m = mid ++ r'
               /\ [REPLACEMENT] = (u :: us) ++ utf8_decode r'
               /\ forallb (fun u => 128 <=? u) (u :: us) = true).
  { intros m. exists REPLACEMENT, [], m, []. rewrite app_nil_r.
    now repeat split. }
  destruct ((194 <=? Byte.to_N b0) && (Byte.to_N b0 <=? 223)) eqn:E2.
  { destruct r0 as [|b1 r1]; [apply He|].
    destruct (in_range 128 191 b1) eqn:R1; [|apply Hr].
    eexists _, [], [b1], r1. split; [reflexivity|]. split; [reflexivity|].
    cbn [forallb]. rewrite andb_true_r. apply N.leb_le. bounds. lia. }
  destruct ((224 <=? Byte.to_N b0) && (Byte.to_N b0 <=? 239)) eqn:E3.
  { destruct r0 as [|b1 r1]; [apply He|].
    destruct (in_range _ _ b1) eqn:R1; [|apply Hr].
    destruct r1 as [|b2 r2]; [apply He|].
    destruct (in_range 128 191 b2) eqn:R2.
    - eexists _, [], [b1; b2], r2. split; [reflexivity|].
      split; [reflexivity|].
      cbn [forallb]. rewrite andb_true_r. apply N.leb_le.
      destruct (Byte.to_N b0 =? 224) eqn:E0; bounds; lia.
    - exists REPLACEMENT, [], [b1], (b2 :: r2). now repeat split. }
  destruct ((240 <=? Byte.to_N b0) && (Byte.to_N b0 <=? 244)) eqn:E4;
    [|apply Hr].
  destruct r0 as [|b1 r1]; [apply He|].
  destruct (in_range _ _ b1) eqn:R1; [|apply Hr].
  destruct r1 as [|b2 r2]; [apply He|].
  destruct (in_range 128 191 b2) eqn:R2.
  - destruct r2 as [|b3 r3]; [apply He|].
    destruct (in_range 128 191 b3) eqn:R3.
    + unfold code_units.
      match goal with
      | |- context [if ?c <? 65536 then _ else _] =>
          destruct (c <? 65536) eqn:Ec
      end.
      * eexists _, [], [b1; b2; b3], r3. split; [reflexivity|].
        split; [reflexivity|].
        cbn [forallb]. rewrite andb_true_r. apply N.leb_le.
        destruct (Byte.to_N b0 =? 240) eqn:E0; bounds; lia.
      * eexists _, [_], [b1; b2; b3], r3. split; [reflexivity|].
        split; [reflexivity|].
        cbn [forallb]. rewrite andb_true_r.
        apply andb_true_iff. split; apply N.leb_le.
        -- apply (N.le_trans _ 55296); [lia|apply N.le_add_r].
        -- apply (N.le_trans _ 56320); [lia|apply N.le_add_r].
    + exists REPLACEMENT, [], [b1; b2], (b3 :: r3). now repeat split.
  - exists REPLACEMENT, [], [b1], (b2 :: r2). now repeat split.
Qed.

Lemma includes_suffix (pat l s : jsstring) :
  includes pat s = true -> includes pat (l ++ s) = true.
Proof.
  rewrite !includes_spec. intros (a & b & ->).
  exists (l ++ a), b. now rewrite <- app_assoc.
Qed.

Lemma includes_prefix (pat s r : jsstring) :
  includes pat s = true -> includes pat (s ++ r) = true.
Proof.
  rewrite !includes_spec. intros (a & b & ->).
  exists a, (b ++ r). now rewrite <- !app_assoc.
Qed.

Lemma includes_step (pat : jsstring) (c : N) (s : jsstring) :
  includes pat (c :: s) = starts_with pat (c :: s) || includes pat s.
Proof.
  unfold includes. rewrite index_of_cons.
  destruct (starts_with pat (c :: s)); [reflexivity|].
  now destruct (index_of pat s).
Qed.

(** An ASCII text is not found across characters that are not ASCII. *)
Lemma includes_high (p : byte) (pat : list byte) (us s : jsstring) :
  (Byte.to_N p <? 128) = true ->
  forallb (fun u => 128 <=? u) us = true ->
  includes (text (p :: pat)) (us ++ s) = includes (text (p :: pat)) s.
Proof.
  intros Hp. induction us as [|u us IH]; intros H; [reflexivity|].
  cbn [forallb] in H. apply andb_true_iff in H as [Hu Hus].
  cbn [app]. rewrite includes_step, (IH Hus).
  cbn [text map starts_with].
  destruct (N.eqb_spec (Byte.to_N p) u) as [E|E]; [|reflexivity].
  bounds. lia.
Qed.

(** An ASCII text at the head of the decoding is at the head of the
    bytes. *)
Lemma starts_with_decode (pat : list byte) :
  is_ascii pat = true ->
  forall bs : list byte,
    starts_with (text pat) (utf8_decode bs) = true ->
    starts_with (text pat) (text bs) = true.
Proof.
  induction pat as [|p pat IH]; intros A bs H; [reflexivity|].
  cbn [is_ascii forallb] in A. apply andb_true_iff in A as [Ap Apat].
  destruct bs as [|b0 r0]; [discriminate|].
  destruct (Byte.to_N b0 <? 128) eqn:B.
  - cbn [utf8_decode] in H. cbv beta iota zeta in H. rewrite B in H.
    cbn [text map starts_with] in H |- *.
    apply andb_true_iff in H as [H1 H2]. rewrite H1.
    now apply IH.
  - destruct (utf8_decode_high b0 r0 B) as (u & us & mid & r' & _ & E & U).
    rewrite E in H.
    cbn [forallb] in U. apply andb_true_iff in U as [Hu _].
    cbn [app text map starts_with] in H.
    apply andb_true_iff in H as [H1 _]. bounds. lia.
Qed.

(** An ASCII text found in the decoding of some bytes is found in the
    bytes. *)
Lemma includes_decode (p : byte) (pat : list byte) (n : nat) :
  is_ascii (p :: pat) = true ->
  forall bs : list byte,
    (length bs <= n)%nat ->
    includes (text (p :: pat)) (utf8_decode bs) = true ->
    includes (text (p :: pat)) (text bs) = true.
Proof.
  intros A. induction n as [|n IH]; intros bs Hn H.
  - destruct bs; [discriminate|cbn in Hn; lia].
  - destruct bs as [|b0 r0]; [discriminate|]. cbn [length] in Hn.
    assert (Ap : (Byte.to_N p <? 128) = true).
    { cbn [is_ascii forallb] in A. now apply andb_true_iff in A as [Ap _]. }
    destruct (Byte.to_N b0 <? 128) eqn:B.
    + assert (E : utf8_decode (b0 :: r0) = Byte.to_N b0 :: utf8_decode r0).
      { cbn [utf8_decode]. cbv beta iota zeta. now rewrite B. }
      rewrite E, includes_step in H.
      change (text (b0 :: r0)) with (Byte.to_N b0 :: text r0).
      rewrite includes_step. apply orb_true_iff.
      apply orb_true_iff in H as [H|H].
      * left. rewrite <- E in H.
        now apply (starts_with_decode (p :: pat) A (b0 :: r0)).
      * right. apply IH; [lia|exact H].
    + destruct (utf8_decode_high b0 r0 B)
        as (u & us & mid & r' & Er & E & U).
      rewrite E, (includes_high p pat (u :: us) _ Ap U) in H.
      apply IH in H; [|subst r0; rewrite length_app in Hn; lia].
      subst r0. change (b0 :: mid ++ r') with ((b0 :: mid) ++ r').
      rewrite text_app. now apply includes_suffix.
Qed.

Lemma pair_ascii : is_ascii LANGUAGE_ID_PLAINTEXT = true.
Proof. reflexivity. Qed.

Lemma slice_within (b : Buffer) (start stop : nat) :
  exists l r, b = l ++ slice b start stop ++ r.
Proof.
  exists (firstn start b), (skipn (stop - start) (skipn start b)).
  unfold slice. now rewrite firstn_skipn, firstn_skipn.
Qed.

(** A turn of the loop on a buffer in which the bytes of the pair do not
    occur takes a prefix of the buffer and pushes it as it is. *)
Lemma frame_step_conserves (b : Buffer) (pushed : list Buffer) (b' : Buffer) :
  includes (text LANGUAGE_ID_PLAINTEXT) (text b) = false ->
  frame_step b = Some (pushed, b') ->
  concat pushed ++ b' = b.
Proof.
  intros N. unfold frame_step.
  destruct (match_content_length (utf8_decode b)) as [d|]; [|discriminate].
  destruct (index_of (text CRLFCRLF) (utf8_decode b)) as [h|]; [|discriminate].
  destruct (N.of_nat (length b) <? N.of_nat (h + 4) + parse_int d);
    [discriminate|].
  destruct (includes (text LANGUAGE_ID_PLAINTEXT)
              (utf8_decode (slice b (h + 4) (h + 4 + N.to_nat (parse_int d)))))
    eqn:T.
  - exfalso.
    apply (includes_decode _ _ _ pair_ascii _ (le_n _)) in T.
    destruct (slice_within b (h + 4) (h + 4 + N.to_nat (parse_int d)))
      as (l & r & E).
    rewrite E, !text_app in N.
    now rewrite (includes_suffix _ _ _ (includes_prefix _ _ _ T)) in N.
  - intros H. injection H as <- <-. cbn [concat]. rewrite app_nil_r.
    unfold slice. rewrite Nat.sub_0_r. cbn [skipn]. apply firstn_skipn.
Qed.

Lemma drain_conserves (fuel : nat) :
  forall b : Buffer,
    includes (text LANGUAGE_ID_PLAINTEXT) (text b) = false ->
    concat (fst (drain fuel b)) ++ snd (drain fuel b) = b.
Proof.
  induction fuel as [|fuel IH]; intros b N; [reflexivity|].
  cbn [drain]. destruct (frame_step b) as [[pushed b']|] eqn:E;
    [|reflexivity].
  pose proof (frame_step_conserves b pushed b' N E) as C.
  assert (N' : includes (text LANGUAGE_ID_PLAINTEXT) (text b') = false).
  { destruct (includes (text LANGUAGE_ID_PLAINTEXT) (text b')) eqn:I;
      [|reflexivity].
    rewrite <- C, text_app in N.
    now rewrite (includes_suffix _ _ _ I) in N. }
  specialize (IH b' N').
  destruct (drain fuel b') as [more rest]. cbn [fst snd] in *.
  now rewrite concat_app, <- app_assoc, IH.
Qed.

(** X15.  The interceptor never alters traffic that does not hold the pair:
    for any bytes at all (well-formed frames or not, valid UTF-8 or not)
    and any way of cutting them into chunks, if the bytes of
    ["languageId":"plaintext"] occur nowhere in the stream, then what the
    interceptor has pushed, followed by what it still holds, is the
    stream, byte for byte. *)
Theorem untargeted_bytes_conserved (chunks : list Buffer) :
  includes (text LANGUAGE_ID_PLAINTEXT) (text (concat chunks)) = false ->
  concat (fst (feed [] chunks)) ++ snd (feed [] chunks) = concat chunks.
Proof.
  intros N. rewrite feed_drain by reflexivity. cbn [app].
  now apply drain_conserves.
Qed.

Lemma untargeted_bytes_conserved_witness :
  concat (fst (feed [] [[xff; x0d; x0a]; encode plain ++ [xc3]]))
    ++ snd (feed [] [[xff; x0d; x0a]; encode plain ++ [xc3]])
  = [xff; x0d; x0a] ++ encode plain ++ [xc3].
Proof.
  rewrite (untargeted_bytes_conserved
             [[xff; x0d; x0a]; encode plain ++ [xc3]] eq_refl).
  vm_compute. reflexivity.
Defined.

(** X16.  Frames leave as soon as they are complete, and only then: after any
    part of a stream of valid frames has arrived, in any chunks, the
    interceptor has pushed exactly the chunks of the frames that arrived
    whole, in order, and holds exactly the bytes received of the next
    frame, which are fewer than that frame has. *)
Theorem frames_leave_when_complete
        (fs : list Frame) (chunks : list Buffer) (tail : Buffer) :
  forallb valid fs = true ->
  concat chunks ++ tail = stream fs ->
  exists fs1 fs2 p,
    fs = fs1 ++ fs2
    /\ concat chunks = stream fs1 ++ p
    /\ feed [] chunks = (flat_map emitted fs1, p)
    /\ match fs2 with
       | [] => p = []
       | f :: _ => (length p < length (encode f))%nat
       end.
Proof.
  intros V E. rewrite feed_drain by reflexivity. cbn [app].
  destruct (drain_stream fs V (concat chunks) tail
              (S (length (concat chunks))) E ltac:(lia))
    as (fs1 & fs2 & p & Ef & Ex & Hp & Ey & D).
  exists fs1, fs2, p. repeat split; try assumption.
  destruct fs2 as [|f fs2].
  - now apply app_eq_nil in Ey as [-> _].
  - destruct (Nat.lt_ge_cases (length p) (length (encode f))) as [L|L];
      [exact L|exfalso].
    unfold stream in Ey. cbn [map concat] in Ey.
    assert (Vf : valid f = true).
    { subst fs. rewrite forallb_app in V.
      apply andb_true_iff in V as [_ V]. cbn [forallb] in V.
      now apply andb_true_iff in V as [V _]. }
    assert (P : p = encode f ++ skipn (length (encode f)) p).
    { rewrite <- (firstn_skipn (length (encode f)) p) at 1. f_equal.
      apply (f_equal (firstn (length (encode f)))) in Ey.
      rewrite !firstn_app, !firstn_all in Ey.
      replace (length (encode f) - length p)%nat with O in Ey by lia.
      rewrite Nat.sub_diag in Ey. cbn [firstn] in Ey.
      now rewrite !app_nil_r in Ey. }
    rewrite P, (frame_step_frame f _ (valid_well_declared f Vf)) in Hp.
    discriminate.
Qed.

Lemma frames_leave_when_complete_witness :
  exists fs1 fs2 p,
    three = fs1 ++ fs2
    /\ concat [firstn 30 (stream three); firstn 70 (skipn 30 (stream three))]
       = stream fs1 ++ p
    /\ feed [] [firstn 30 (stream three); firstn 70 (skipn 30 (stream three))]
       = (flat_map emitted fs1, p)
    /\ match fs2 with
       | [] => p = []
       | f :: _ => (length p < length (encode f))%nat
       end.
Proof.
  apply (frames_leave_when_complete
           three
           [firstn 30 (stream three); firstn 70 (skipn 30 (stream three))]
           (skipn 100 (stream three)));
    vm_compute; reflexivity.
Defined.

Lemma frame_step_tail (b : Buffer) (pushed : list Buffer) (b' : Buffer) :
  frame_step b = Some (pushed, b') -> exists k, b' = skipn k b.
Proof.
  unfold frame_step.
  destruct (match_content_length (utf8_decode b)) as [d|]; [|discriminate].
  destruct (index_of (text CRLFCRLF) (utf8_decode b)) as [h|]; [|discriminate].
  destruct (N.of_nat (length b) <? N.of_nat (h + 4) + parse_int d);
    [discriminate|].
  intros H. injection H as _ <-. eauto.
Qed.

Lemma drain_tail (fuel : nat) :
  forall b : Buffer, exists k, snd (drain fuel b) = skipn k b.
Proof.
  induction fuel as [|fuel IH]; intros b; [now exists O|].
  cbn [drain]. destruct (frame_step b) as [[pushed b']|] eqn:E;
    [|now exists O].
  destruct (frame_step_tail _ _ _ E) as (j & ->).
  destruct (IH (skipn j b)) as (k & Hk).
  destruct (drain fuel (skipn j b)) as [more rest]. cbn [snd] in *.
  exists (k + j)%nat. now rewrite Hk, skipn_skipn.
Qed.

(** X24.  What the interceptor holds back is always the end of what it
    received: for any bytes in any chunks, the retained buffer is the
    stream without some number of its first bytes, untouched and in
    order. *)
Theorem buffer_is_unread_tail (chunks : list Buffer) :
  exists k, snd (feed [] chunks) = skipn k (concat chunks).
Proof.
  rewrite feed_drain by reflexivity. cbn [app]. apply drain_tail.
Qed.

Lemma emitted_rewritten (f : Frame) :
  concat (emitted f) = encode (rewritten f) /\ valid (rewritten f) = valid f.
Proof.
  unfold emitted, rewritten. destruct (targeted f); [|cbn [concat]].
  - split; [|reflexivity]. cbn [concat]. rewrite app_nil_r. reflexivity.
  - now rewrite app_nil_r.
Qed.

(** X25.  What leaves the interceptor is again a stream of valid frames:
    for a stream of valid frames in any chunks, the bytes pushed, taken
    together, are the frames of the input in order, each either as it came
    or with its body rewritten and its declared length set to the new
    body's, with nothing between them. *)
Theorem output_is_a_stream_of_frames
        (fs : list Frame) (chunks : list Buffer) :
  forallb valid fs = true ->
  chunking chunks (stream fs) ->
  concat (intercept chunks) = stream (map rewritten fs)
  /\ forallb valid (map rewritten fs) = true.
Proof.
  intros V C. unfold intercept. rewrite (intercept_stream fs chunks V C).
  cbn [fst]. clear C chunks.
  induction fs as [|f fs IH]; [now split|].
  cbn [forallb] in V. apply andb_true_iff in V as [Vf V].
  destruct (IH V) as [I1 I2]. destruct (emitted_rewritten f) as [E1 E2].
  cbn [flat_map map forallb]. unfold stream in *. cbn [map concat].
  rewrite concat_app, E1, I1, E2, Vf, I2. now split.
Qed.

Lemma output_is_a_stream_of_frames_witness :
  concat (intercept cut) = stream (map rewritten three)
  /\ forallb valid (map rewritten three) = true.
Proof.
  apply (output_is_a_stream_of_frames three cut);
    vm_compute; reflexivity.
Defined.

End PassThroughTheorems.

(** ** The earlier script *)

Section EmitsOnly.
Import Interceptor Bridge Invariant.
Local Open Scope N_scope.

Variable g : Effect -> bool.

Lemma emits_ret {A} (a : A) : emits_only g (ret a).
Proof. intros w st. exists []. cbn. now rewrite app_nil_r. Qed.

Lemma emits_bind {A B} (m : M A) (k : A -> M B) :
  emits_only g m -> (forall a, emits_only g (k a)) ->
  emits_only g (bind m k).
Proof.
  intros Hm Hk w st. unfold bind.
  destruct (Hm w st) as (es1 & E1 & G1).
  destruct (m w st) as [[a| | |] st1]; cbn [snd] in *;
    try (exists es1; now split).
  destruct (Hk a w st1) as (es2 & E2 & G2).
  exists (es1 ++ es2). now rewrite E2, E1, app_assoc, forallb_app, G1, G2.
Qed.

Lemma emits_emit (e : Effect) : g e = true -> emits_only g (emit e).
Proof. intros H w st. exists [e]. cbn. now rewrite H. Qed.

Lemma emits_ask {A} (f : World -> A) : emits_only g (ask f).
Proof. intros w st. exists []. cbn. now rewrite app_nil_r. Qed.

Lemma emits_get {A} (f : State -> A) : emits_only g (get f).
Proof. intros w st. exists []. cbn. now rewrite app_nil_r. Qed.

Lemma emits_set_port (p : N) : emits_only g (set_port p).
Proof. intros w st. exists []. cbn. now rewrite app_nil_r. Qed.

Lemma emits_set_piped : emits_only g set_piped.
Proof. intros w st. exists []. cbn. now rewrite app_nil_r. Qed.

Lemma emits_exit {A} (c : N) : g (Exit c) = true -> emits_only g (@exit A c).
Proof. intros H w st. exists [Exit c]. cbn. now rewrite H. Qed.

Lemma emits_sleep (ms : N) : g (Sleep ms) = true -> emits_only g (sleep ms).
Proof. intros H w st. exists [Sleep ms]. cbn. now rewrite H. Qed.

Lemma emits_isPortOpen (p : N) :
  (forall q b, g (Probed q b) = true) -> emits_only g (isPortOpen p).
Proof.
  intros H w st. rewrite isPortOpen_run. eexists. split; [reflexivity|].
  cbn. now rewrite H.
Qed.

Lemma emits_catch_fatal (m : M unit) :
  g (Log FatalError) = true -> g (Exit 1) = true ->
  emits_only g m -> emits_only g (catch_fatal m).
Proof.
  intros Hl He Hm w st. unfold catch_fatal.
  destruct (Hm w st) as (es & E & G).
  destruct (m w st) as [[a| | |] st1]; cbn [snd] in *;
    try (exists es; now split).
  exists (es ++ [Log FatalError; Exit 1]). cbn.
  rewrite E, <- !app_assoc, forallb_app, G. cbn. now rewrite Hl, He.
Qed.

Hypothesis g_log : forall m, g (Log m) = true.
Hypothesis g_probed : forall q b, g (Probed q b) = true.
Hypothesis g_sleep : forall ms, g (Sleep ms) = true.

Lemma emits_waitForLsp (n : nat) :
  forall i, emits_only g (waitForLsp n i).
Proof.
  induction n as [|n IH]; intros i; [apply emits_ret|].
  rewrite waitForLsp_turn.
  apply emits_bind; [now apply emits_sleep|intros _].
  apply emits_bind; [apply emits_get|intros p].
  apply emits_bind; [now apply emits_isPortOpen|intros [|]].
  - apply emits_bind; [now apply emits_emit|intros _]. apply emits_ret.
  - apply emits_bind; [|intros _; apply IH].
    destruct (Nat.eqb (Nat.modulo (i + 1) 10) 0);
      [now apply emits_emit|apply emits_ret].
Qed.

Hypothesis g_spawn : forall c a, g (Spawn c a) = true.
Hypothesis g_unref : g Unref = true.
Hypothesis g_connect : forall q h, g (SocketConnect q h) = true.
Hypothesis g_exit : forall c, g (Exit c) = true.

Ltac emits :=
  repeat first
    [ apply emits_ret
    | apply emits_ask
    | apply emits_get
    | apply emits_set_port
    | apply emits_waitForLsp
    | apply emits_isPortOpen; exact g_probed
    | apply emits_exit; apply g_exit
    | apply emits_emit; first [ apply g_log | apply g_spawn | exact g_unref
                              | apply g_connect ]
    | apply emits_bind; [|intros ?]
    | match goal with
      | |- emits_only _ (if ?b then _ else _) => destruct b
      | |- emits_only _ (match ?x with Some _ => _ | None => _ end) =>
          destruct x
      end ].

(** Startup of the earlier script emits only diagnostics, probes, waits,
    the spawn and its [unref], the connection and the exit. *)
Lemma legacy_launch_emits : emits_only g Legacy.launchGodotEditor.
Proof. unfold Legacy.launchGodotEditor, Legacy.spawn, log. emits. Qed.

Lemma legacy_main_emits : emits_only g Legacy.main.
Proof.
  unfold Legacy.main, log.
  emits; try apply legacy_launch_emits; emits.
Qed.

End EmitsOnly.

Section LegacyTheorems.
Import Interceptor Examples Bridge Invariant.
Local Open Scope N_scope.

Ltac emits :=
  repeat first
    [ apply emits_ret
    | apply emits_ask
    | apply emits_get
    | apply emits_set_port
    | apply emits_set_piped
    | apply emits_exit; reflexivity
    | apply emits_emit; reflexivity
    | apply emits_bind; [|intros ?]
    | match goal with
      | |- emits_only _ (if ?b then _ else _) => destruct b
      end ].

Lemma legacy_react_emits (events : list Event) :
  emits_only (fun e => negb (is_termination e)) (Legacy.react events).
Proof.
  induction events as [|e events IH]; [apply emits_ret|].
  cbn [Legacy.react]. apply emits_bind; [|intros _; exact IH].
  destruct e; unfold Legacy.on_event, Legacy.on_signal, log; emits.
Qed.

(** No session of the earlier script attempts a termination. *)
Lemma legacy_session_quiet (w : World) (p : N) (events : list Event) :
  existsb is_termination (trace (Legacy.session w p events)) = false.
Proof.
  assert (E : emits_only (fun e => negb (is_termination e))
                (catch_fatal Legacy.main ;; Legacy.react events)).
  { apply emits_bind; [|intros _; apply legacy_react_emits].
    apply emits_catch_fatal; try reflexivity.
    now apply legacy_main_emits. }
  destruct (E w (initial p)) as (es & T & Q).
  unfold trace, Legacy.session. rewrite T. cbn [initial effects app].
  clear - Q. induction es as [|e es IH]; [reflexivity|].
  cbn [forallb existsb] in *. apply andb_true_iff in Q as [Qe Qes].
  rewrite (IH Qes). now destruct (is_termination e).
Qed.

(** X17.  The earlier script never terminates the editor it spawned: a
    termination signal reaching a running session only ends the socket and
    exits with code 0, and no session of that script, whatever its events,
    attempts a [kill] or a [taskkill]. *)
Theorem legacy_signal_leaves_editor
        (w : World) (p : N) (before after : list Event) (s : Signal) :
  fst (Legacy.session w p before) = Ret tt ->
  let r := Legacy.session w p (before ++ Signalled s :: after) in
  fst r = Exited 0
  /\ trace r = trace (Legacy.session w p before) ++ [SocketEnd; Exit 0]
  /\ existsb is_termination (trace r) = false.
Proof.
  intros R r.
  pose proof (legacy_session_quiet w p (before ++ Signalled s :: after)) as Q.
  fold r in Q. split; [|split; [|exact Q]]; unfold r;
    rewrite legacy_session_app;
    destruct (Legacy.session w p before) as [o st]; cbn [fst] in R; subst o;
    cbn [Legacy.react]; unfold bind; cbn [Legacy.on_event];
    rewrite legacy_signal_run; reflexivity.
Qed.

Lemma legacy_signal_leaves_editor_witness :
  fst (Legacy.session stubborn 6005 [SocketConnected; Signalled SIGTERM])
  = Exited 0
  /\ existsb is_spawn
             (trace (Legacy.session stubborn 6005
                                    [SocketConnected; Signalled SIGTERM]))
     = true
  /\ existsb is_termination
             (trace (Legacy.session stubborn 6005
                                    [SocketConnected; Signalled SIGTERM]))
     = false.
Proof.
  destruct (legacy_signal_leaves_editor stubborn 6005 [SocketConnected] []
                                        SIGTERM eq_refl) as (H1 & _ & H3).
  split; [exact H1|]. split; [vm_compute; reflexivity|exact H3].
Defined.

(** Once standard input is piped, the earlier script writes each chunk to
    the socket as it came. *)
Lemma legacy_react_data (events : list Event) :
  forall (w : World) (st : State),
    piped st = true ->
    forallb is_data events = true ->
    exists st',
      Legacy.react events w st = (Ret tt, st')
      /\ to_socket (effects st')
         = to_socket (effects st) ++ stdin_chunks events
      /\ to_stdout (effects st')
         = to_stdout (effects st) ++ socket_chunks events.
Proof.
  induction events as [|e events IH]; intros w st Hp Hd.
  - exists st. cbn. now rewrite !app_nil_r.
  - cbn [forallb] in Hd. apply andb_true_iff in Hd as [He Hd].
    destruct e as [|bytes| | |chunk|s]; try discriminate;
      cbn [Legacy.react Legacy.on_event]; unfold bind at 1.
    + cbn [emit].
      match goal with
      | |- context [Legacy.react events w ?s] =>
          destruct (IH w s Hp Hd) as (st' & E & S1 & S2)
      end.
      exists st'. split; [exact E|].
      cbn [effects] in S1, S2. unfold to_socket, to_stdout in *.
      rewrite flat_map_app in S1, S2. cbn [flat_map app] in S1, S2.
      rewrite S1, S2. cbn [stdin_chunks socket_chunks flat_map app].
      rewrite !app_nil_r, <- !app_assoc. now split.
    + unfold bind at 1. cbn [get]. rewrite Hp. cbn [emit].
      match goal with
      | |- context [Legacy.react events w ?s] =>
          destruct (IH w s Hp Hd) as (st' & E & S1 & S2)
      end.
      exists st'. split; [exact E|].
      cbn [effects] in S1, S2. unfold to_socket, to_stdout in *.
      rewrite flat_map_app in S1, S2. cbn [flat_map app] in S1, S2.
      rewrite S1, S2. cbn [stdin_chunks socket_chunks flat_map app].
      rewrite !app_nil_r, <- !app_assoc. now split.
Qed.

(** X18.  The earlier script has no interceptor: in a session that got past
    startup, once the socket is connected, the chunks written to the
    socket are the chunks read from standard input, unchanged and in
    order, and the chunks written to standard output are the chunks the
    socket delivered. *)
Theorem legacy_forwards_unchanged (w : World) (p : N) (events : list Event) :
  fst (Legacy.session w p []) = Ret tt ->
  forallb is_data events = true ->
  let r := Legacy.session w p (SocketConnected :: events) in
  fst r = Ret tt
  /\ to_socket (trace r) = stdin_chunks events
  /\ to_stdout (trace r) = socket_chunks events.
Proof.
  intros R Hd r. unfold r.
  change (SocketConnected :: events) with ([] ++ SocketConnected :: events).
  rewrite legacy_session_app.
  assert (W : emits_only (fun e => match e with
                                   | SocketWrite _ | StdoutWrite _ => false
                                   | _ => true
                                   end)
                (catch_fatal Legacy.main ;; Legacy.react [])).
  { apply emits_bind; [|intros _; apply emits_ret].
    apply emits_catch_fatal; try reflexivity.
    now apply legacy_main_emits. }
  destruct (W w (initial p)) as (es & T & Q).
  fold (Legacy.session w p []) in T. cbn [initial effects app] in T.
  destruct (Legacy.session w p []) as [o st]. cbn [fst snd] in R, T.
  subst o. cbn [Legacy.react]. unfold bind at 1.
  cbn -[Legacy.react to_socket to_stdout stdin_chunks socket_chunks].
  match goal with
  | |- context [Legacy.react events w ?s] =>
      destruct (legacy_react_data events w s eq_refl Hd) as (st' & E & S1 & S2)
  end.
  rewrite E. unfold trace. cbn [fst snd effects] in S1, S2 |- *.
  rewrite S1, S2.
  assert (Z : to_socket es = [] /\ to_stdout es = []).
  { clear - Q. induction es as [|e es IH]; [now split|].
    cbn [forallb] in Q. apply andb_true_iff in Q as [Qe Qes].
    destruct (IH Qes) as [I1 I2]. unfold to_socket, to_stdout in *.
    cbn [flat_map]. rewrite I1, I2. now destruct e. }
  destruct Z as [Z1 Z2]. unfold to_socket, to_stdout in *.
  rewrite T, !flat_map_app, Z1, Z2. now repeat split.
Qed.

Lemma legacy_forwards_unchanged_witness :
  to_socket (trace (Legacy.session attached 6005 (SocketConnected :: traffic)))
  = stdin_chunks traffic.
Proof.
  exact (proj1 (proj2 (legacy_forwards_unchanged
                         attached 6005 traffic eq_refl eq_refl))).
Defined.

End LegacyTheorems.

(** ** From the command line to the executable *)

Section ConfigurationTheorems.
Import JsString Cli Discovery Examples.
Local Open Scope N_scope.

(** X20.  The path given with the last [--godot] is the first candidate of
    the search: when the words before do not end on a waiting option and
    the path given exists, [findGodot] returns it, whatever else exists
    and whatever the lookup commands would print. *)
Theorem godot_option_takes_priority
        (h : Host) (c : Config) (args : list jsstring) (x : N) (v : jsstring) :
  dangling args = false ->
  existsSync h (x :: v) = true ->
  findGodot h (godotPath (parseArgs c (args ++ [GODOT_FLAG; x :: v])))
  = Some (x :: v).
Proof.
  intros D E.
  rewrite (parseArgs_scan (length args)) by (auto; lia).
  rewrite parseArgs_cons.
  change (same GODOT_FLAG PORT_FLAG) with false.
  change (same GODOT_FLAG HOST_FLAG) with false.
  change (same GODOT_FLAG GODOT_FLAG) with true.
  cbv iota. cbn [parseArgs godotPath].
  unfold findGodot, godotPaths. cbn [find]. now rewrite E.
Qed.

Lemma godot_option_takes_priority_witness :
  findGodot kiosk
            (godotPath (parseArgs (defaults (mkEnv None None None [47]))
                                  ([PORT_FLAG; to_string 6008]
                                     ++ [GODOT_FLAG; OPT_GODOT])))
  = Some OPT_GODOT.
Proof.
  exact (godot_option_takes_priority
           kiosk (defaults (mkEnv None None None [47]))
           [PORT_FLAG; to_string 6008] 47
           (tl OPT_GODOT) eq_refl eq_refl).
Defined.

End ConfigurationTheorems.

(** ** What the rewrite does to the bytes of a body *)

Section RewriteTheorems.
Import JsString Utf8 Interceptor Frame Examples.
Local Open Scope N_scope.

Ltac euclid := zify; Z.to_euclidean_division_equations; lia.

Ltac limits :=
  repeat match goal with
         | H : (_ && _) = true |- _ => apply andb_true_iff in H as [? ?]
         | H : in_range _ _ _ = true |- _ => unfold in_range in H
         | H : (_ <=? _) = true |- _ => apply N.leb_le in H
         | H : (_ <? _) = false |- _ => apply N.ltb_ge in H
         | H : (_ <? _) = true |- _ => apply N.ltb_lt in H
         | H : (_ =? _) = true |- _ => apply N.eqb_eq in H
         | H : (_ =? _) = false |- _ => apply N.eqb_neq in H
         end.

Lemma pack2 (a b : N) :
  b < 64 -> (a * 64 + b) / 64 = a /\ (a * 64 + b) mod 64 = b.
Proof. intros. euclid. Qed.

Lemma pack3 (a b c : N) :
  b < 64 -> c < 64 ->
  (a * 4096 + b * 64 + c) / 4096 = a
  /\ ((a * 4096 + b * 64 + c) / 64) mod 64 = b
  /\ (a * 4096 + b * 64 + c) mod 64 = c.
Proof. intros Hb Hc. repeat split; euclid. Qed.

Lemma pack4 (a b c d : N) :
  b < 64 -> c < 64 -> d < 64 ->
  (a * 262144 + b * 4096 + c * 64 + d) / 262144 = a
  /\ ((a * 262144 + b * 4096 + c * 64 + d) / 4096) mod 64 = b
  /\ ((a * 262144 + b * 4096 + c * 64 + d) / 64) mod 64 = c
  /\ (a * 262144 + b * 4096 + c * 64 + d) mod 64 = d.
Proof. intros Hb Hc Hd. repeat split; euclid. Qed.

Lemma surrogate_pair (cp : N) :
  65536 <= cp <= 1114111 ->
  65536 + (55296 + (cp - 65536) / 1024 - 55296) * 1024
    + (56320 + (cp - 65536) mod 1024 - 56320) = cp
  /\ 55296 <= 55296 + (cp - 65536) / 1024 <= 56319
  /\ 56320 <= 56320 + (cp - 65536) mod 1024 <= 57343.
Proof. intros H. repeat split; euclid. Qed.

(** Encoding the character a two-byte sequence decodes to gives the
    sequence back. *)
Lemma encode_two (b0 b1 : byte) (x : jsstring) :
  (194 <=? Byte.to_N b0) && (Byte.to_N b0 <=? 223) = true ->
  in_range 128 191 b1 = true ->
  utf8_encode (((Byte.to_N b0 - 192) * 64 + (Byte.to_N b1 - 128)) :: x)
  = b0 :: b1 :: utf8_encode x.
Proof.
  intros H0 H1. limits.
  destruct (pack2 (Byte.to_N b0 - 192) (Byte.to_N b1 - 128) ltac:(lia))
    as [Q R].
  cbn [utf8_encode].
  replace (_ <? 128) with false by (symmetry; apply N.ltb_ge; lia).
  replace (_ <? 2048) with true by (symmetry; apply N.ltb_lt; lia).
  rewrite Q, R.
  replace (192 + (Byte.to_N b0 - 192)) with (Byte.to_N b0) by lia.
  replace (128 + (Byte.to_N b1 - 128)) with (Byte.to_N b1) by lia.
  now rewrite !byte_of_N_to_N.
Qed.

Lemma encode_three (b0 b1 b2 : byte) (x : jsstring) :
  (224 <=? Byte.to_N b0) && (Byte.to_N b0 <=? 239) = true ->
  in_range (if Byte.to_N b0 =? 224 then 160 else 128)
           (if Byte.to_N b0 =? 237 then 159 else 191) b1 = true ->
  in_range 128 191 b2 = true ->
  utf8_encode (((Byte.to_N b0 - 224) * 4096 + (Byte.to_N b1 - 128) * 64
                + (Byte.to_N b2 - 128)) :: x)
  = b0 :: b1 :: b2 :: utf8_encode x.
Proof.
  intros H0.
  destruct (Byte.to_N b0 =? 224) eqn:E0; destruct (Byte.to_N b0 =? 237) eqn:E1;
    intros H1 H2; limits;
    destruct (pack3 (Byte.to_N b0 - 224) (Byte.to_N b1 - 128)
                    (Byte.to_N b2 - 128) ltac:(lia) ltac:(lia))
      as (Q & R & S);
    cbn [utf8_encode]; unfold is_high_surrogate, is_low_surrogate;
    (replace (_ <? 128) with false by (symmetry; apply N.ltb_ge; lia));
    (replace (_ <? 2048) with false by (symmetry; apply N.ltb_ge; lia));
    rewrite Q, R, S;
    replace (224 + (Byte.to_N b0 - 224)) with (Byte.to_N b0) by lia;
    replace (128 + (Byte.to_N b1 - 128)) with (Byte.to_N b1) by lia;
    replace (128 + (Byte.to_N b2 - 128)) with (Byte.to_N b2) by lia;
    rewrite !byte_of_N_to_N;
    repeat match goal with
           | |- context [?a <=? ?b] => destruct (N.leb_spec a b)
           end; cbn [andb]; try reflexivity; lia.
Qed.

Lemma encode_four (b0 b1 b2 b3 : byte) (x : jsstring) :
  (240 <=? Byte.to_N b0) && (Byte.to_N b0 <=? 244) = true ->
  in_range (if Byte.to_N b0 =? 240 then 144 else 128)
           (if Byte.to_N b0 =? 244 then 143 else 191) b1 = true ->
  in_range 128 191 b2 = true ->
  in_range 128 191 b3 = true ->
  utf8_encode (code_units ((Byte.to_N b0 - 240) * 262144
                           + (Byte.to_N b1 - 128) * 4096
                           + (Byte.to_N b2 - 128) * 64
                           + (Byte.to_N b3 - 128)) ++ x)
  = b0 :: b1 :: b2 :: b3 :: utf8_encode x.
Proof.
  intros H0.
  assert (B : forall cp,
             cp = (Byte.to_N b0 - 240) * 262144 + (Byte.to_N b1 - 128) * 4096
                  + (Byte.to_N b2 - 128) * 64 + (Byte.to_N b3 - 128) ->
             240 <= Byte.to_N b0 ->
             Byte.to_N b1 - 128 < 64 -> 128 <= Byte.to_N b1 ->
             Byte.to_N b2 - 128 < 64 -> 128 <= Byte.to_N b2 ->
             Byte.to_N b3 - 128 < 64 -> 128 <= Byte.to_N b3 ->
             65536 <= cp <= 1114111 ->
             utf8_encode (code_units cp ++ x)
             = b0 :: b1 :: b2 :: b3 :: utf8_encode x).
  { intros cp E G0 L1 G1 L2 G2 L3 G3 Hcp.
    destruct (surrogate_pair cp Hcp) as (P & Hhi & Hlo).
    destruct (pack4 (Byte.to_N b0 - 240) (Byte.to_N b1 - 128)
                    (Byte.to_N b2 - 128) (Byte.to_N b3 - 128) L1 L2 L3)
      as (Q0 & Q1 & Q2 & Q3).
    rewrite <- E in Q0, Q1, Q2, Q3.
    unfold code_units.
    replace (cp <? 65536) with false by (symmetry; apply N.ltb_ge; lia).
    cbn [app utf8_encode]. unfold is_high_surrogate, is_low_surrogate.
    replace (_ <? 128) with false by (symmetry; apply N.ltb_ge; lia).
    replace (_ <? 2048) with false by (symmetry; apply N.ltb_ge; lia).
    replace (55296 <=? 55296 + (cp - 65536) / 1024) with true
      by (symmetry; apply N.leb_le; lia).
    replace (55296 + (cp - 65536) / 1024 <=? 56319) with true
      by (symmetry; apply N.leb_le; lia).
    replace (56320 <=? 56320 + (cp - 65536) mod 1024) with true
      by (symmetry; apply N.leb_le; lia).
    replace (56320 + (cp - 65536) mod 1024 <=? 57343) with true
      by (symmetry; apply N.leb_le; lia).
    cbn [andb]. cbv zeta. rewrite P, Q0, Q1, Q2, Q3.
    replace (240 + (Byte.to_N b0 - 240)) with (Byte.to_N b0) by lia.
    replace (128 + (Byte.to_N b1 - 128)) with (Byte.to_N b1) by lia.
    replace (128 + (Byte.to_N b2 - 128)) with (Byte.to_N b2) by lia.
    replace (128 + (Byte.to_N b3 - 128)) with (Byte.to_N b3) by lia.
    now rewrite !byte_of_N_to_N. }
  destruct (Byte.to_N b0 =? 240) eqn:E0; destruct (Byte.to_N b0 =? 244) eqn:E1;
    intros H1 H2 H3; limits; apply (B _ eq_refl); lia.
Qed.

Ltac all_high :=
  cbn [text map forallb]; limits;
  repeat (apply andb_true_iff; split); try reflexivity;
  apply N.leb_le; lia.

(** A byte that is not ASCII and starts well-formed text starts a sequence
    that decodes to a character which is not ASCII and encodes back to the
    sequence. *)
Lemma sequence_round_trip (b0 : byte) (r0 : list byte) :
  (Byte.to_N b0 <? 128) = false ->
  well_formed (b0 :: r0) = true ->
  exists seq units r',
    b0 :: r0 = seq ++ r'
    /\ (length r' < length (b0 :: r0))%nat
    /\ utf8_decode (b0 :: r0) = units ++ utf8_decode r'
    /\ well_formed r' = true
    /\ forallb (fun u => 128 <=? u) units = true
    /\ forallb (fun u => 128 <=? u) (text seq) = true
    /\ forall x, utf8_encode (units ++ x) = seq ++ utf8_encode x.
Proof.
  intros H. cbn [well_formed utf8_decode]. cbv beta iota zeta. rewrite H.
  destruct ((194 <=? Byte.to_N b0) && (Byte.to_N b0 <=? 223)) eqn:E2.
  { destruct r0 as [|b1 r1]; [discriminate|].
    destruct (in_range 128 191 b1) eqn:R1; [|discriminate].
    cbn [andb]. intros W.
    pose proof (fun x => encode_two b0 b1 x E2 R1) as Enc.
    eexists [b0; b1], [_], r1.
    split; [reflexivity|]. split; [cbn [length]; lia|].
    split; [reflexivity|]. split; [exact W|].
    split; [|split; [|exact Enc]]; all_high. }
  destruct ((224 <=? Byte.to_N b0) && (Byte.to_N b0 <=? 239)) eqn:E3.
  { destruct r0 as [|b1 [|b2 r2]]; try discriminate.
    cbv beta iota zeta.
    destruct (in_range _ _ b1) eqn:R1; [|discriminate].
    destruct (in_range 128 191 b2) eqn:R2; [|discriminate].
    cbn [andb]. intros W.
    pose proof (fun x => encode_three b0 b1 b2 x E3 R1 R2) as Enc.
    eexists [b0; b1; b2], [_], r2.
    split; [reflexivity|]. split; [cbn [length]; lia|].
    split; [reflexivity|]. split; [exact W|].
    split; [|split; [|exact Enc]].
    - cbn [forallb]. rewrite andb_true_r. apply N.leb_le.
      destruct (Byte.to_N b0 =? 224) eqn:E0; limits; lia.
    - destruct (Byte.to_N b0 =? 224) eqn:E0; all_high. }
  destruct ((240 <=? Byte.to_N b0) && (Byte.to_N b0 <=? 244)) eqn:E4;
    [|discriminate].
  destruct r0 as [|b1 [|b2 [|b3 r3]]]; try discriminate;
    cbv beta iota zeta; try discriminate.
  destruct (in_range _ _ b1) eqn:R1; [|discriminate].
  destruct (in_range 128 191 b2) eqn:R2; [|discriminate].
  destruct (in_range 128 191 b3) eqn:R3; [|discriminate].
  cbn [andb]. intros W.
  pose proof (fun x => encode_four b0 b1 b2 b3 x E4 R1 R2 R3) as Enc.
  eexists [b0; b1; b2; b3], _, r3.
  split; [reflexivity|]. split; [cbn [length]; lia|].
  split; [reflexivity|]. split; [exact W|].
  split; [|split; [|exact Enc]].
  - unfold code_units.
    match goal with
    | |- context [if ?c <? 65536 then _ else _] =>
        destruct (c <? 65536) eqn:Ec
    end.
    + cbn [forallb]. rewrite andb_true_r. apply N.leb_le.
      destruct (Byte.to_N b0 =? 240) eqn:E0; limits; lia.
    + cbn [forallb]. rewrite andb_true_r.
      apply andb_true_iff. split; apply N.leb_le.
      * apply (N.le_trans _ 55296); [lia|apply N.le_add_r].
      * apply (N.le_trans _ 56320); [lia|apply N.le_add_r].
  - destruct (Byte.to_N b0 =? 240) eqn:E0; all_high.
Qed.

Lemma replace_all_nomatch (pat rep : jsstring) (c : N) (s : jsstring) :
  starts_with pat (c :: s) = false ->
  replace_all pat rep (c :: s) = c :: replace_all pat rep s.
Proof. intros H. unfold replace_all. cbn [replace_all_from]. now rewrite H. Qed.

(** The scan for an ASCII text steps over characters that are not ASCII. *)
Lemma replace_all_high (pat rep us s : jsstring) (p : N) (pat' : jsstring) :
  pat = p :: pat' -> p < 128 ->
  forallb (fun u => 128 <=? u) us = true ->
  replace_all pat rep (us ++ s) = us ++ replace_all pat rep s.
Proof.
  intros -> Hp. induction us as [|u us IH]; intros H; [reflexivity|].
  cbn [forallb] in H. apply andb_true_iff in H as [Hu Hus].
  cbn [app]. rewrite replace_all_nomatch, (IH Hus); [reflexivity|].
  cbn [starts_with]. destruct (N.eqb_spec p u) as [E|E]; [|reflexivity].
  limits. lia.
Qed.

Lemma text_split (a bs : list byte) (r : jsstring) :
  text bs = text a ++ r -> exists t, bs = a ++ t /\ r = text t.
Proof.
  revert bs; induction a as [|x a IH]; intros bs H.
  - exists bs. now split.
  - destruct bs as [|y bs]; [discriminate|].
    cbn [text map app] in H. injection H as Hxy H.
    destruct (IH bs H) as (t & -> & ->). exists t. split; [|reflexivity].
    cbn [app]. f_equal.
    now rewrite <- (byte_of_N_to_N y), Hxy, byte_of_N_to_N.
Qed.

Lemma well_formed_ascii (a t : list byte) :
  is_ascii a = true -> well_formed (a ++ t) = well_formed t.
Proof.
  induction a as [|b a IH]; intros H; [reflexivity|].
  cbn [is_ascii forallb] in H. apply andb_true_iff in H as [Hb Ha].
  cbn [app well_formed]. cbv beta iota zeta. rewrite Hb. now apply IH.
Qed.

(** On well-formed text, replacing in the decoding and encoding again is
    replacing in the bytes. *)
Lemma rewrite_bytes (n : nat) :
  forall bs : list byte,
    (length bs <= n)%nat ->
    well_formed bs = true ->
    text (utf8_encode
            (replace_all (text LANGUAGE_ID_PLAINTEXT)
                         (text LANGUAGE_ID_GDSCRIPT) (utf8_decode bs)))
    = replace_all (text LANGUAGE_ID_PLAINTEXT) (text LANGUAGE_ID_GDSCRIPT)
                  (text bs).
Proof.
  assert (Ne : text LANGUAGE_ID_PLAINTEXT <> []) by discriminate.
  assert (Hd : exists p pat', text LANGUAGE_ID_PLAINTEXT = p :: pat'
                              /\ p < 128).
  { eexists _, _. split; [reflexivity|]. reflexivity. }
  destruct Hd as (p & pat' & Ep & Hp).
  induction n as [|n IH]; intros bs Hn W.
  - destruct bs; [reflexivity|cbn in Hn; lia].
  - destruct bs as [|b0 r0]; [reflexivity|].
    destruct (starts_with (text LANGUAGE_ID_PLAINTEXT) (text (b0 :: r0)))
      eqn:S.
    + apply starts_with_split in S as (r & S).
      apply text_split in S as (t & E & ->). rewrite E in *.
      rewrite well_formed_ascii in W by reflexivity.
      rewrite utf8_decode_ascii by reflexivity.
      rewrite text_app, !replace_all_match by assumption.
      rewrite utf8_encode_ascii by reflexivity.
      rewrite text_app. f_equal. apply IH; [|exact W].
      rewrite length_app in Hn.
      change (length LANGUAGE_ID_PLAINTEXT) with 24%nat in Hn. lia.
    + destruct (Byte.to_N b0 <? 128) eqn:B.
      * assert (E : utf8_decode (b0 :: r0) = Byte.to_N b0 :: utf8_decode r0).
        { cbn [utf8_decode]. cbv beta iota zeta. now rewrite B. }
        assert (S' : starts_with (text LANGUAGE_ID_PLAINTEXT)
                                 (utf8_decode (b0 :: r0)) = false).
        { destruct (starts_with (text LANGUAGE_ID_PLAINTEXT)
                                (utf8_decode (b0 :: r0))) eqn:T;
            [|reflexivity].
          apply (starts_with_decode _ pair_ascii) in T. congruence. }
        rewrite E in S' |- *.
        change (text (b0 :: r0)) with (Byte.to_N b0 :: text r0) in S |- *.
        rewrite !replace_all_nomatch by assumption.
        cbn [utf8_encode]. rewrite B, byte_of_N_to_N.
        cbn [text map]. f_equal. apply IH; [cbn [length] in Hn; lia|].
        cbn [well_formed] in W. cbv beta iota zeta in W.
        now rewrite B in W.
      * destruct (sequence_round_trip b0 r0 B W)
          as (seq & units & r' & E & L & Ed & W' & Hu & Hs & Enc).
        rewrite Ed, E.
        rewrite (replace_all_high _ _ units _ p pat' Ep Hp Hu).
        rewrite Enc, !text_app.
        rewrite (replace_all_high _ _ (text seq) _ p pat' Ep Hp Hs).
        f_equal. apply IH; [cbn [length] in *; lia|exact W'].
Qed.

(** X21.  On a body that is well-formed UTF-8 the rewrite changes nothing but
    the pair: the bytes of the new body are the bytes of the old one with
    the occurrences of ["languageId":"plaintext"] met by a left-to-right
    scan replaced by ["languageId":"gdscript"]; every other byte, of
    characters outside ASCII too, is kept as it was. *)
Theorem rewrite_changes_only_the_pair (f : Frame) :
  well_formed (body f) = true ->
  text (rewritten_body f)
  = replace_all (text LANGUAGE_ID_PLAINTEXT) (text LANGUAGE_ID_GDSCRIPT)
                (text (body f)).
Proof.
  intros W. unfold rewritten_body, body_text.
  now apply (rewrite_bytes (length (body f))).
Qed.

Lemma rewrite_changes_only_the_pair_witness :
  text (rewritten_body opened)
  = replace_all (text LANGUAGE_ID_PLAINTEXT) (text LANGUAGE_ID_GDSCRIPT)
                (text (body opened)).
Proof. exact (rewrite_changes_only_the_pair opened eq_refl). Defined.

(** *** What the encoder writes *)

Ltac compare :=
  repeat match goal with
         | |- context [?x <? ?y] =>
             first [ replace (x <? y) with true
                       by (symmetry; apply N.ltb_lt; lia)
                   | replace (x <? y) with false
                       by (symmetry; apply N.ltb_ge; lia) ]
         | |- context [?x <=? ?y] =>
             first [ replace (x <=? y) with true
                       by (symmetry; apply N.leb_le; lia)
                   | replace (x <=? y) with false
                       by (symmetry; apply N.leb_gt; lia) ]
         | |- context [?x =? ?y] =>
             first [ replace (x =? y) with true
                       by (symmetry; apply N.eqb_eq; lia)
                   | replace (x =? y) with false
                       by (symmetry; apply N.eqb_neq; lia) ]
         end; cbn [andb]; try reflexivity.

Lemma well_formed_one (a : N) (rest : list byte) :
  a < 128 -> well_formed (byte_of_N a :: rest) = well_formed rest.
Proof.
  intros H. cbn [well_formed]. cbv beta iota zeta.
  rewrite to_N_byte_of_N by lia. compare.
Qed.

Lemma well_formed_two (a b : N) (rest : list byte) :
  194 <= a <= 223 -> 128 <= b <= 191 ->
  well_formed (byte_of_N a :: byte_of_N b :: rest) = well_formed rest.
Proof.
  intros Ha Hb. cbn [well_formed]. cbv beta iota zeta. unfold in_range.
  rewrite !to_N_byte_of_N by lia. compare.
Qed.

Lemma well_formed_three (a b c : N) (rest : list byte) :
  224 <= a <= 239 ->
  (if a =? 224 then 160 else 128) <= b <= (if a =? 237 then 159 else 191) ->
  128 <= c <= 191 ->
  well_formed (byte_of_N a :: byte_of_N b :: byte_of_N c :: rest)
  = well_formed rest.
Proof.
  intros Ha Hb Hc. cbn [well_formed]. cbv beta iota zeta. unfold in_range.
  assert (b < 256) by (destruct (a =? 237); lia).
  rewrite !to_N_byte_of_N by lia. revert Hb.
  destruct (N.eqb_spec a 224), (N.eqb_spec a 237); intros Hb; compare.
Qed.

Lemma well_formed_four (a b c d : N) (rest : list byte) :
  240 <= a <= 244 ->
  (if a =? 240 then 144 else 128) <= b <= (if a =? 244 then 143 else 191) ->
  128 <= c <= 191 ->
  128 <= d <= 191 ->
  well_formed (byte_of_N a :: byte_of_N b :: byte_of_N c :: byte_of_N d
                 :: rest)
  = well_formed rest.
Proof.
  intros Ha Hb Hc Hd. cbn [well_formed]. cbv beta iota zeta. unfold in_range.
  assert (b < 256) by (destruct (a =? 244); lia).
  rewrite !to_N_byte_of_N by lia. revert Hb.
  destruct (N.eqb_spec a 240), (N.eqb_spec a 244); intros Hb; compare.
Qed.

Lemma well_formed_replacement (rest : list byte) :
  well_formed (REPLACEMENT_BYTES ++ rest) = well_formed rest.
Proof. reflexivity. Qed.

Lemma two_ranges (u : N) :
  128 <= u < 2048 ->
  194 <= 192 + u / 64 <= 223 /\ 128 <= 128 + u mod 64 <= 191.
Proof. intros. euclid. Qed.

Lemma three_ranges (u : N) :
  2048 <= u < 65536 -> (u < 55296 \/ 57343 < u) ->
  224 <= 224 + u / 4096 <= 239
  /\ (if 224 + u / 4096 =? 224 then 160 else 128)
     <= 128 + (u / 64) mod 64
     <= (if 224 + u / 4096 =? 237 then 159 else 191)
  /\ 128 <= 128 + u mod 64 <= 191.
Proof.
  intros H1 H2.
  destruct (N.eqb_spec (224 + u / 4096) 224);
    destruct (N.eqb_spec (224 + u / 4096) 237);
    repeat split; euclid.
Qed.

Lemma four_ranges (cp : N) :
  65536 <= cp <= 1114111 ->
  240 <= 240 + cp / 262144 <= 244
  /\ (if 240 + cp / 262144 =? 240 then 144 else 128)
     <= 128 + (cp / 4096) mod 64
     <= (if 240 + cp / 262144 =? 244 then 143 else 191)
  /\ 128 <= 128 + (cp / 64) mod 64 <= 191
  /\ 128 <= 128 + cp mod 64 <= 191.
Proof.
  intros H1.
  destruct (N.eqb_spec (240 + cp / 262144) 240);
    destruct (N.eqb_spec (240 + cp / 262144) 244);
    repeat split; euclid.
Qed.

(** The encoder writes well-formed UTF-8, whatever the code units. *)
Lemma utf8_encode_well_formed (n : nat) :
  forall s : jsstring,
    (length s <= n)%nat ->
    forallb (fun u => u <? 65536) s = true ->
    well_formed (utf8_encode s) = true.
Proof.
  induction n as [|n IH]; intros s Hn B.
  - destruct s; [reflexivity|cbn in Hn; lia].
  - destruct s as [|u s]; [reflexivity|]. cbn [length] in Hn.
    cbn [forallb] in B. apply andb_true_iff in B as [Bu B].
    apply N.ltb_lt in Bu. cbn [utf8_encode].
    destruct (N.ltb_spec u 128) as [L1|L1].
    { rewrite well_formed_one by assumption. apply IH; [lia|exact B]. }
    destruct (N.ltb_spec u 2048) as [L2|L2].
    { destruct (two_ranges u ltac:(lia)) as [R1 R2].
      rewrite well_formed_two by assumption. apply IH; [lia|exact B]. }
    assert (T : (u < 55296 \/ 57343 < u) ->
                well_formed
                  (byte_of_N (224 + u / 4096)
                     :: byte_of_N (128 + (u / 64) mod 64)
                     :: byte_of_N (128 + u mod 64) :: utf8_encode s) = true).
    { intros O. destruct (three_ranges u ltac:(lia) O) as (R1 & R2 & R3).
      rewrite well_formed_three by assumption. apply IH; [lia|exact B]. }
    unfold is_high_surrogate, is_low_surrogate.
    destruct (N.leb_spec 55296 u) as [H1|H1];
      destruct (N.leb_spec u 56319) as [H2|H2]; cbn [andb].
    + destruct s as [|v s]; [reflexivity|]. cbn [length] in Hn.
      pose proof B as B'. cbn [forallb] in B'.
      apply andb_true_iff in B' as [_ B'].
      destruct (N.leb_spec 56320 v) as [V1|V1];
        destruct (N.leb_spec v 57343) as [V2|V2]; cbn [andb];
        try (rewrite well_formed_replacement; apply IH;
             [cbn [length]; lia|exact B]).
      cbv zeta.
      destruct (four_ranges (65536 + (u - 55296) * 1024 + (v - 56320))
                            ltac:(lia)) as (R1 & R2 & R3 & R4).
      rewrite well_formed_four by assumption. apply IH; [lia|exact B'].
    + destruct (N.leb_spec 56320 u) as [V1|V1];
        destruct (N.leb_spec u 57343) as [V2|V2]; cbn [andb];
        try (rewrite well_formed_replacement; apply IH; [lia|exact B]);
        apply T; lia.
    + destruct (N.leb_spec 56320 u) as [V1|V1]; [lia|].
      cbn [andb]. apply T; lia.
    + lia.
Qed.

(** The decoder writes code units. *)
Lemma utf8_decode_units (n : nat) :
  forall bs : list byte,
    (length bs <= n)%nat ->
    forallb (fun u => u <? 65536) (utf8_decode bs) = true.
Proof.
  induction n as [|n IH]; intros bs Hn.
  - destruct bs; [reflexivity|cbn in Hn; lia].
  - destruct bs as [|b0 r0]; [reflexivity|]. cbn [length] in Hn.
    assert (Rp : forall r, (length r <= n)%nat ->
                 forallb (fun u => u <? 65536)
                         (REPLACEMENT :: utf8_decode r) = true).
    { intros r Hr. cbn [forallb]. now rewrite IH. }
    pose proof (Byte.to_N_bounded b0) as B0.
    cbn [utf8_decode]. cbv beta iota zeta.
    destruct (Byte.to_N b0 <? 128) eqn:A.
    { cbn [forallb]. rewrite IH by lia.
      replace (_ <? 65536) with true by (symmetry; apply N.ltb_lt; lia).
      reflexivity. }
    destruct ((194 <=? Byte.to_N b0) && (Byte.to_N b0 <=? 223)) eqn:E2.
    { destruct r0 as [|b1 r1]; [reflexivity|]. cbn [length] in Hn.
      destruct (in_range 128 191 b1) eqn:R1;
        [|apply Rp; cbn [length]; lia].
      cbn [forallb]. rewrite IH by lia. limits.
      replace (_ <? 65536) with true by (symmetry; apply N.ltb_lt; lia).
      reflexivity. }
    destruct ((224 <=? Byte.to_N b0) && (Byte.to_N b0 <=? 239)) eqn:E3.
    { destruct r0 as [|b1 r1]; [reflexivity|]. cbn [length] in Hn.
      destruct (Byte.to_N b0 =? 237) eqn:Ed;
        (destruct (in_range _ _ b1) eqn:R1;
         [|apply Rp; cbn [length]; lia]);
        (destruct r1 as [|b2 r2]; [reflexivity|]); cbn [length] in Hn;
        (destruct (in_range 128 191 b2) eqn:R2;
         [|apply Rp; cbn [length]; lia]);
        cbn [forallb]; rewrite IH by lia; limits;
        (replace (_ <? 65536) with true
           by (symmetry; apply N.ltb_lt;
               destruct (Byte.to_N b0 =? 224); lia));
        reflexivity. }
    destruct ((240 <=? Byte.to_N b0) && (Byte.to_N b0 <=? 244)) eqn:E4;
      [|apply Rp; lia].
    destruct r0 as [|b1 r1]; [reflexivity|]. cbn [length] in Hn.
    destruct (Byte.to_N b0 =? 244) eqn:Ed;
      (destruct (in_range _ _ b1) eqn:R1;
       [|apply Rp; cbn [length]; lia]);
      (destruct r1 as [|b2 r2]; [reflexivity|]); cbn [length] in Hn;
      (destruct (in_range 128 191 b2) eqn:R2;
       [|apply Rp; cbn [length]; lia]);
      (destruct r2 as [|b3 r3]; [reflexivity|]); cbn [length] in Hn;
      (destruct (in_range 128 191 b3) eqn:R3;
       [|apply Rp; cbn [length]; lia]);
      rewrite forallb_app, IH by lia; rewrite andb_true_r;
      unfold code_units;
      match goal with
      | |- context [if ?c <? 65536 then _ else _] =>
          destruct (N.ltb_spec c 65536) as [Lc|Lc];
          [cbn [forallb]; rewrite andb_true_r; now apply N.ltb_lt|];
          assert (Hc : 65536 <= c <= 1114111)
            by (split; [exact Lc|];
                limits; destruct (Byte.to_N b0 =? 240); lia);
          destruct (surrogate_pair c Hc) as (_ & Hhi & Hlo)
      end;
      cbn [forallb]; rewrite andb_true_r;
      apply andb_true_iff; split; apply N.ltb_lt; lia.
Qed.

Lemma replace_all_from_units (f : N -> bool) (pat rep s : jsstring) :
  forallb f rep = true ->
  forallb f s = true ->
  forall skip, forallb f (replace_all_from skip pat rep s) = true.
Proof.
  intros Hr. induction s as [|c s IH]; intros Hs skip; [reflexivity|].
  cbn [forallb] in Hs. apply andb_true_iff in Hs as [Hc Hs].
  cbn [replace_all_from]. destruct skip as [|k]; [|now apply IH].
  destruct (starts_with pat (c :: s)).
  - rewrite forallb_app, Hr. now apply IH.
  - cbn [forallb]. rewrite Hc. now apply IH.
Qed.

(** X22.  Whatever the bytes of the received body, the body the rewrite
    writes is well-formed UTF-8; a body that is not well-formed is
    therefore never written back as it came. *)
Theorem rewritten_body_is_well_formed (f : Frame) :
  well_formed (rewritten_body f) = true.
Proof.
  unfold rewritten_body, body_text, replace_all.
  apply (utf8_encode_well_formed _ _ (le_n _)).
  apply replace_all_from_units; [reflexivity|].
  apply (utf8_decode_units _ _ (le_n _)).
Qed.

End RewriteTheorems.
